(** * Icon library deduplicator: grouping, duplicate resolution, report consumers

    A shallow embedding of the scripts of the repository:
    - the exact (hash) deduplicator [processIconGroups],
    - the visual deduplicator [processVisualDeduplication],
    - the two report-consuming deleters [deleteFilesByHashReport] and
      [deleteFilesByVisualReport],
    - the design-tool marker (the [figma.ui.onmessage] handler).

    JavaScript objects whose key order is observable ([Object.entries],
    [Object.values]) are association lists in insertion order; their
    content, when order is not part of a statement, is read through stdpp's
    [gmap].  A thrown exception is [None] in the option monad.  Strings are
    byte strings (UTF-8): the scripts' own names (styles, file names,
    digests) are ASCII.  [toLowerCase] and the character classes of the
    marker's regular expressions are modelled on ASCII, where they are
    exact; a statement that depends on them says for which names it is
    made.

    The grouper is modelled twice.  [Runtime.groupIconsByName] is the
    grouper as the engine runs it, on every library: [groups[iconName]]
    finds the members inherited from [Object.prototype], the assignment of
    a property to a string throws in strict mode, and a style path that
    exists and cannot be listed makes [readdirSync] throw.
    [groupIconsByName] is the grouper on the own keys of [groups], fed the
    entries it can record; [runtime_grouper_returns] shows that the first
    returns what the second computes whenever no entry is named
    [__proto__.svg] and every style path that exists can be listed. *)

From Stdlib Require OrderedTypeEx.
From stdpp Require Import gmap strings list fin_maps sorting pretty.

(** * Part I: the programs *)

(** ** JavaScript values used by the scripts *)

Module Js.

(** An object used as a dictionary, as [Object.entries] enumerates it:
    string keys in insertion order.  (Keys that are canonical array indices
    would be enumerated first by the engine; no statement below depends on
    the enumeration order of icon names, and style names and digests are
    never array indices.)  These are the own properties: style names and
    digests are never names of members of [Object.prototype]
    ([constructor], [__proto__], ...); where an icon name can be one, the
    inherited members are modelled apart (module [Runtime]). *)
Abbreviation obj V := (list (string * V)).

(** [o[k]] *)
Fixpoint get {V} (o : obj V) (k : string) : option V :=
  match o with
  | [] => None
  | (k', v) :: o' => if decide (k' = k) then Some v else get o' k
  end.

(** [o[k] = v]: an existing key keeps its position, a new key goes last. *)
Fixpoint set {V} (o : obj V) (k : string) (v : V) : obj V :=
  match o with
  | [] => [(k, v)]
  | (k', v') :: o' =>
      if decide (k' = k) then (k', v) :: o' else (k', v') :: set o' k v
  end.

Definition keys {V} (o : obj V) : list string := o.*1.
Definition values {V} (o : obj V) : list V := o.*2.

(** [arr.includes(x)] on an array of strings. *)
Definition includes (arr : list string) (x : string) : bool :=
  bool_decide (x ∈ arr).

(** [aSet.add(x)]: a [Set] keeps insertion order and has no duplicates. *)
Definition set_add (s : list string) (x : string) : list string :=
  if decide (x ∈ s) then s else s ++ [x].

(** The default comparison of [Array.prototype.sort]: code-unit order on
    strings. *)
Definition str_le (a b : string) : Prop := String.leb a b = true.

#[global] Instance str_le_dec a b : Decision (str_le a b).
Proof. unfold str_le. apply _. Defined.

(** [arr.sort()] on an array of strings. *)
Definition sort (arr : list string) : list string := merge_sort str_le arr.

(** A number held in a tally: [undefined++] leaves [NaN]. *)
Inductive num := Num (n : nat) | NaN.

Definition incr (v : option num) : num :=
  match v with
  | Some (Num n) => Num (S n)
  | _ => NaN
  end.

Definition add (a b : num) : num :=
  match a, b with
  | Num x, Num y => Num (x + y)
  | _, _ => NaN
  end.

(** A loop [for (const x of items) body] whose body may throw. *)
Fixpoint for_of {A S} (body : S → A → option S) (st : S) (items : list A)
    : option S :=
  match items with
  | [] => Some st
  | x :: rest => st' ← body st x; for_of body st' rest
  end.

(** [s.endsWith(suffix)] and [path.basename(file, ext)] on a directory
    entry name (no separator inside): [strip_suffix] removes the suffix when
    it is there. *)
Fixpoint strip_suffix (s suffix : string) : option string :=
  if String.eqb s suffix then Some ""
  else match s with
       | EmptyString => None
       | String c s' => String c <$> strip_suffix s' suffix
       end.

Definition endsWith (s suffix : string) : bool :=
  bool_decide (is_Some (strip_suffix s suffix)).

Definition basename (file ext : string) : string :=
  default file (strip_suffix file ext).

(** [s.includes(pattern)] on strings. *)
Fixpoint str_includes (s pattern : string) : bool :=
  String.prefix pattern s ||
  match s with
  | EmptyString => false
  | String _ s' => str_includes s' pattern
  end.

(** Characters: [toLowerCase] and the classes of the marker's regular
    expressions, on ASCII. *)
Definition lower_char (c : Ascii.ascii) : Ascii.ascii :=
  let n := Ascii.nat_of_ascii c in
  if (65 <=? n) && (n <=? 90) then Ascii.ascii_of_nat (n + 32) else c.

Definition is_lower_or_digit (c : Ascii.ascii) : bool :=
  let n := Ascii.nat_of_ascii c in
  ((97 <=? n) && (n <=? 122)) || ((48 <=? n) && (n <=? 57)).

Definition is_word_char (c : Ascii.ascii) : bool :=
  is_lower_or_digit c || (Ascii.nat_of_ascii c =? 95).

Definition is_line_end (c : Ascii.ascii) : bool :=
  let n := Ascii.nat_of_ascii c in (n =? 10) || (n =? 13).

Definition is_space (c : Ascii.ascii) : bool :=
  let n := Ascii.nat_of_ascii c in ((9 <=? n) && (n <=? 13)) || (n =? 32).

Definition is_ascii (c : Ascii.ascii) : bool := Ascii.nat_of_ascii c <? 128.

Fixpoint str_map (f : Ascii.ascii → Ascii.ascii) (s : string) : string :=
  match s with
  | EmptyString => EmptyString
  | String c s' => String (f c) (str_map f s')
  end.

Fixpoint str_filter (p : Ascii.ascii → bool) (s : string) : string :=
  match s with
  | EmptyString => EmptyString
  | String c s' => if p c then String c (str_filter p s') else str_filter p s'
  end.

Fixpoint str_take_while (p : Ascii.ascii → bool) (s : string) : string :=
  match s with
  | EmptyString => EmptyString
  | String c s' => if p c then String c (str_take_while p s') else EmptyString
  end.

Fixpoint str_drop_while (p : Ascii.ascii → bool) (s : string) : string :=
  match s with
  | EmptyString => EmptyString
  | String c s' => if p c then str_drop_while p s' else s
  end.

Fixpoint str_drop (n : nat) (s : string) : string :=
  match n, s with
  | S n', String _ s' => str_drop n' s'
  | _, _ => s
  end.

Definition toLowerCase (s : string) : string := str_map lower_char s.

Definition trim (s : string) : string :=
  String.rev (str_drop_while is_space (String.rev (str_drop_while is_space s))).

(** [s.replace(/pattern/g, "")] for a literal pattern: [skip] counts the
    characters of a match still to be dropped. *)
Fixpoint remove_all_from (pattern : string) (skip : nat) (s : string) : string :=
  match s with
  | EmptyString => EmptyString
  | String c s' =>
      match skip with
      | S k => remove_all_from pattern k s'
      | 0 =>
          if negb (String.eqb pattern "") && String.prefix pattern s
          then remove_all_from pattern (String.length pattern - 1) s'
          else String c (remove_all_from pattern 0 s')
      end
  end.

Definition remove_all (pattern s : string) : string := remove_all_from pattern 0 s.

(** A parsed JSON document; the fields of an object in the order
    [Object.entries] enumerates them. *)
#[warnings="-register-all"]
Inductive json :=
  | JNull
  | JBool (b : bool)
  | JNumber (n : Z)
  | JString (s : string)
  | JArray (items : list json)
  | JObject (fields : list (string * json)).

(** [document[k]] on a parsed JSON object. *)
Definition field (document : json) (k : string) : option json :=
  match document with
  | JObject fields => get fields k
  | _ => None
  end.

(** [Object.entries(items)] on an array: the indices, in decimal, with the
    items. *)
Definition index_entries (items : list json) : obj json :=
  imap (λ i item, (pretty i, item)) items.

(** The strings the string iterator yields, one per code point: the bytes
    of a UTF-8 sequence are kept together.  [need] counts the bytes the
    sequence in [current] still lacks. *)
Definition utf8_width (c : Ascii.ascii) : nat :=
  let n := Ascii.nat_of_ascii c in
  if n <? 192 then 1 else if n <? 224 then 2 else if n <? 240 then 3 else 4.

Fixpoint code_points_from (need : nat) (current s : string) : list string :=
  match s with
  | EmptyString => if String.eqb current "" then [] else [current]
  | String c s' =>
      match need with
      | S k =>
          let current' := current +:+ String c "" in
          match k with
          | 0 => current' :: code_points_from 0 "" s'
          | S _ => code_points_from k current' s'
          end
      | 0 =>
          match utf8_width c with
          | S (S k) => code_points_from (S k) (String c "") s'
          | _ => String c "" :: code_points_from 0 "" s'
          end
      end
  end.

Definition code_points (s : string) : list string := code_points_from 0 "" s.

End Js.

(** The content of an object, forgetting the key order. *)
Definition content {V} (o : Js.obj V) : gmap string V := list_to_map o.

Definition content2 {V} (o : Js.obj (Js.obj V)) : gmap string (gmap string V) :=
  content <$> content o.

(** ** The grouper (the same text in both deduplicators) *)

Definition STYLES : list string := ["outlined"; "filled"; "sharp"; "round"].

Section Grouper.

(** [path.join] of Node, the icon root directory, and the directory listing
    of the file system: [None] when [fs.existsSync(dir)] is false, the
    entries in the order [fs.readdirSync(dir)] returns them otherwise (a
    style path that exists is a directory).  [groups[iconName]] reads the
    own keys: no entry is named after a member of [Object.prototype]. *)
Variable path_join : list string → string.
Variable ICON_DIR : string.
Variable readdirSync : string → option (list string).

Definition group_file (dir style : string)
    (groups : Js.obj (Js.obj string)) (file : string)
    : Js.obj (Js.obj string) :=
  if Js.endsWith file ".svg" then
    let iconName := Js.basename file ".svg" in
    let inner := default [] (Js.get groups iconName) in
    Js.set groups iconName (Js.set inner style (path_join [dir; file]))
  else groups.

Definition group_style (groups : Js.obj (Js.obj string)) (style : string)
    : Js.obj (Js.obj string) :=
  let dir := path_join [ICON_DIR; style] in
  match readdirSync dir with
  | None => groups
  | Some files => foldl (group_file dir style) groups files
  end.

Definition groupIconsByName : Js.obj (Js.obj string) :=
  foldl group_style [] STYLES.

End Grouper.

(** ** Choosing what to keep in a cluster (the same two lines in both
    deduplicators)

    [const keep = cluster.includes("outlined") ? "outlined" : cluster.sort()[0];]
    [const remove = cluster.filter((style) => style !== keep);]

    [sort] works in place, so when it runs the filter walks the sorted
    array.  [None] is [undefined], the first element of an empty array. *)

Definition cluster_keep (cluster : list string) : option string :=
  if Js.includes cluster "outlined" then Some "outlined"
  else head (Js.sort cluster).

Definition cluster_after_keep (cluster : list string) : list string :=
  if Js.includes cluster "outlined" then cluster else Js.sort cluster.

Definition cluster_remove (cluster : list string) : list string :=
  filter (λ style, Some style ≠ cluster_keep cluster) (cluster_after_keep cluster).

(** ** The grouper as the engine runs it

    [groups] is an ordinary object: [groups[iconName]] finds the members it
    inherits from [Object.prototype] too, and the scripts are ES modules,
    so they run in strict mode. *)

Module Runtime.

(** The members every object inherits from [Object.prototype], apart from
    the accessor [__proto__]: all of them functions. *)
Definition MEMBERS : list string :=
  ["constructor"; "hasOwnProperty"; "isPrototypeOf"; "propertyIsEnumerable";
   "toLocaleString"; "toString"; "valueOf";
   "__defineGetter__"; "__defineSetter__";
   "__lookupGetter__"; "__lookupSetter__"].

(** What the grouper has built: the own properties of [groups], and the
    properties it has written on [Object.prototype] itself (through
    [groups["__proto__"][style] = path]), which every object inherits from
    then on. *)
Record Heap := {
  groups : Js.obj (Js.obj string);
  inherited : Js.obj string
}.

(** The value of [groups[iconName]]. *)
Inductive slot :=
  | Own (variants : Js.obj string)
  | Prototype
  | Member
  | Inherited (value : string)
  | Undefined.

Definition lookup (heap : Heap) (iconName : string) : slot :=
  match Js.get (groups heap) iconName with
  | Some variants => Own variants
  | None =>
      if decide (iconName = "__proto__") then Prototype
      else if decide (iconName ∈ MEMBERS) then Member
      else match Js.get (inherited heap) iconName with
           | Some value => Inherited value
           | None => Undefined
           end
  end.

Section Grouper.

Variable path_join : list string → string.
Variable ICON_DIR : string.

(** [fs.existsSync(dir)], and [fs.readdirSync(dir)]: [None] when it throws
    (the path is not a directory, or may not be read). *)
Variable existsSync : string → bool.
Variable readdirSync : string → option (list string).

(** [groups[iconName] = {}] followed by [groups[iconName][style] = path]. *)
Definition create (heap : Heap) (iconName style path : string) : Heap :=
  {| groups := Js.set (groups heap) iconName [(style, path)];
     inherited := inherited heap |}.

(** The body of [for (const file of fs.readdirSync(dir))]:
    - an own entry gets the style;
    - [undefined], or an inherited empty string, is falsy: the entry is
      created;
    - [groups["__proto__"]] is [Object.prototype]: the path is written on
      it, and no entry is created;
    - an inherited function is truthy: the path is written on the function,
      and no entry is created;
    - an inherited string that is not empty is truthy, and the assignment
      of a property to a string throws a [TypeError] in strict mode. *)
Definition group_file (dir style : string) (heap : Heap) (file : string)
    : option Heap :=
  if Js.endsWith file ".svg" then
    let iconName := Js.basename file ".svg" in
    let path := path_join [dir; file] in
    match lookup heap iconName with
    | Own variants =>
        Some {| groups := Js.set (groups heap) iconName (Js.set variants style path);
                inherited := inherited heap |}
    | Undefined => Some (create heap iconName style path)
    | Inherited value =>
        if decide (value = "") then Some (create heap iconName style path)
        else None
    | Prototype =>
        Some {| groups := groups heap;
                inherited := Js.set (inherited heap) style path |}
    | Member => Some heap
    end
  else Some heap.

Definition group_style (heap : Heap) (style : string) : option Heap :=
  let dir := path_join [ICON_DIR; style] in
  if existsSync dir then
    files ← readdirSync dir;
    Js.for_of (group_file dir style) heap files
  else Some heap.

(** The Group mapping, [None] when the grouper throws. *)
Definition groupIconsByName : option (Js.obj (Js.obj string)) :=
  heap ← Js.for_of group_style {| groups := []; inherited := [] |} STYLES;
  Some (groups heap).

End Grouper.

End Runtime.

(** ** The exact (hash) deduplicator *)

Module Hash.

(** One report entry: [{ keep: [...], remove: [...] }]. *)
Record Decision := { keep : list (option string); remove : list string }.

(** The report and the counters of one run. *)
Record Run := {
  report : Js.obj Decision;
  totalIcons : nat;
  totalIconsAffected : nat;
  totalFilesRemoved : nat;
  removedPerStyle : Js.obj Js.num
}.

Section Pipeline.

Variable path_join : list string → string.
Variable ICON_DIR : string.
Variable readdirSync : string → option (list string).

(** [getFileHash]: the MD5 digest, in hexadecimal, of the file at a path;
    [None] when reading the file throws. *)
Variable getFileHash : string → option string.

(** [hashes[style] = getFileHash(filePath)] for every variant. *)
Definition hashVariants (variants : Js.obj string) : option (Js.obj string) :=
  Js.for_of (λ hashes '(style, filePath),
               hash ← getFileHash filePath;
               Some (Js.set hashes style hash))
            [] variants.

(** [hashMap]: digest -> styles, in the order the styles come. *)
Definition groupByHash (hashes : Js.obj string) : Js.obj (list string) :=
  foldl (λ hashMap '(style, hash),
           Js.set hashMap hash (default [] (Js.get hashMap hash) ++ [style]))
        [] hashes.

Definition duplicateClusters (hashes : Js.obj string) : list (list string) :=
  filter (λ g, 1 < length g) (Js.values (groupByHash hashes)).

(** [removedPerStyle[style]++] *)
Definition count_style (tallies : Js.obj Js.num) (style : string) : Js.obj Js.num :=
  Js.set tallies style (Js.incr (Js.get tallies style)).

(** The body of [for (const cluster of duplicateClusters)]: the entry of the
    icon, the total and the tallies after one more cluster. *)
Definition resolve_cluster (acc : Decision * nat * Js.obj Js.num)
    (cluster : list string) : Decision * nat * Js.obj Js.num :=
  let '(entry, total, tallies) := acc in
  let keep_style := cluster_keep cluster in
  let remove_styles := cluster_remove cluster in
  ({| keep := keep entry ++ [keep_style];
      remove := remove entry ++ remove_styles |},
   total + length remove_styles,
   foldl count_style tallies remove_styles).

(** The body of [for (const [iconName, variants] of Object.entries(iconGroups))].
    The entry [report[iconName]] is created empty, filled by the cluster
    loop and is the only entry the loop touches. *)
Definition process_icon (st : Run) (item : string * Js.obj string) : option Run :=
  let '(iconName, variants) := item in
  hashes ← hashVariants variants;
  let clusters := duplicateClusters hashes in
  if bool_decide (0 < length clusters) then
    let '(entry, total, tallies) :=
      foldl resolve_cluster
            ({| keep := []; remove := [] |}, totalFilesRemoved st, removedPerStyle st)
            clusters in
    Some {| report := Js.set (report st) iconName entry;
            totalIcons := S (totalIcons st);
            totalIconsAffected := S (totalIconsAffected st);
            totalFilesRemoved := total;
            removedPerStyle := tallies |}
  else
    Some {| report := report st;
            totalIcons := S (totalIcons st);
            totalIconsAffected := totalIconsAffected st;
            totalFilesRemoved := totalFilesRemoved st;
            removedPerStyle := removedPerStyle st |}.

Definition initial : Run :=
  {| report := [];
     totalIcons := 0;
     totalIconsAffected := 0;
     totalFilesRemoved := 0;
     removedPerStyle := (λ s, (s, Js.Num 0)) <$> STYLES |}.

Definition processGroups (iconGroups : Js.obj (Js.obj string)) : option Run :=
  Js.for_of process_icon initial iconGroups.

(** The run: the report it writes and the counters it prints; [None] when a
    file cannot be read. *)
Definition processIconGroups : option Run :=
  processGroups (groupIconsByName path_join ICON_DIR readdirSync).

End Pipeline.

(** The document [JSON.stringify(report, null, 2)] writes. *)
Definition keep_json (k : option string) : Js.json :=
  match k with Some s => Js.JString s | None => Js.JNull end.

Definition entry_json (d : Decision) : Js.json :=
  Js.JObject [("keep", Js.JArray (keep_json <$> keep d));
              ("remove", Js.JArray (Js.JString <$> remove d))].

Definition report_json (r : Js.obj Decision) : Js.json :=
  Js.JObject ((λ e, (e.1, entry_json e.2)) <$> r).

End Hash.

(** ** The visual deduplicator *)

Module Visual.

(** One report entry: [{ keep, remove }]. *)
Record Decision := { keep : option string; remove : list string }.

Record Run := {
  report : Js.obj Decision;
  totalIcons : nat;
  iconsWithDuplicates : nat;
  totalFilesToRemove : nat;
  removalByStyle : Js.obj Js.num
}.

Section Pipeline.

Variable path_join : list string → string.
Variable ICON_DIR : string.
Variable TEMP_DIR : string.
Variable readdirSync : string → option (list string).

(** [renderSvgToPng(svgPath, outputPath)]: [None] when the renderer throws. *)
Variable renderSvgToPng : string → string → option unit.

(** [visuallyCompare(file1, file2)]: the judgment of the oracle on two
    scratch files, [None] when it throws.  Every scratch file of an icon is
    written before the first comparison and none is rewritten during the
    run, so the judgment depends on the two paths only. *)
Variable visuallyCompare : string → string → option bool.

(** The render loop: [pngPaths[style] = pngPath]. *)
Definition renderAll (iconName : string) (styleEntries : Js.obj string)
    : option (Js.obj string) :=
  Js.for_of (λ pngPaths '(style, svgPath),
               let pngPath :=
                 path_join [TEMP_DIR; iconName +:+ "_" +:+ style +:+ ".png"] in
               _ ← renderSvgToPng svgPath pngPath;
               Some (Js.set pngPaths style pngPath))
            [] styleEntries.

(** [if (!visualDuplicates.has(style)) visualDuplicates.set(style, new Set())] *)
Definition ensure_set (visualDuplicates : Js.obj (list string)) (style : string)
    : Js.obj (list string) :=
  match Js.get visualDuplicates style with
  | Some _ => visualDuplicates
  | None => Js.set visualDuplicates style []
  end.

(** [visualDuplicates.get(style).add(other)]: the set is changed in place. *)
Definition add_member (visualDuplicates : Js.obj (list string))
    (style other : string) : Js.obj (list string) :=
  Js.set visualDuplicates style
    (Js.set_add (default [] (Js.get visualDuplicates style)) other).

(** The body of [if (equal)]: each style is entered in the set of the
    other. *)
Definition mark_equal (visualDuplicates : Js.obj (list string))
    (styleA styleB : string) : Js.obj (list string) :=
  let vd1 := ensure_set visualDuplicates styleA in
  let vd2 := ensure_set vd1 styleB in
  let vd3 := add_member vd2 styleA styleB in
  add_member vd3 styleB styleA.

(** [await visuallyCompare(pngPaths[styleA], pngPaths[styleB])] *)
Definition judgment (pngPaths : Js.obj string) (styleA styleB : string)
    : option bool :=
  fileA ← Js.get pngPaths styleA;
  fileB ← Js.get pngPaths styleB;
  visuallyCompare fileA fileB.

(** The inner loop, [j] from [i + 1]: [styleA] against every later style. *)
Definition compare_with (pngPaths : Js.obj string) (styleA : string)
    (visualDuplicates : Js.obj (list string)) (later : Js.obj string)
    : option (Js.obj (list string)) :=
  Js.for_of (λ vd '(styleB, _),
               equal ← judgment pngPaths styleA styleB;
               Some (if equal : bool then mark_equal vd styleA styleB else vd))
            visualDuplicates later.

(** The outer loop over [i]: the entries from index [i + 1] on are the tail
    of the list. *)
Fixpoint compare_pairs (pngPaths : Js.obj string) (styleEntries : Js.obj string)
    (visualDuplicates : Js.obj (list string)) : option (Js.obj (list string)) :=
  match styleEntries with
  | [] => Some visualDuplicates
  | (styleA, _) :: later =>
      vd ← compare_with pngPaths styleA visualDuplicates later;
      compare_pairs pngPaths later vd
  end.

(** [allInvolved]: the keys, then every member of every set. *)
Definition allInvolved (visualDuplicates : Js.obj (list string)) : list string :=
  foldl (λ acc s, foldl Js.set_add acc s)
        (foldl Js.set_add [] (Js.keys visualDuplicates))
        (Js.values visualDuplicates).

(** The body of [remove.forEach]. *)
Definition count_style (acc : nat * Js.obj Js.num) (style : string)
    : nat * Js.obj Js.num :=
  let '(total, tallies) := acc in
  match Js.get tallies style with
  | Some v => (S total, Js.set tallies style (Js.incr (Some v)))
  | None => acc
  end.

Definition process_icon (st : Run) (item : string * Js.obj string) : option Run :=
  let '(iconName, styles) := item in
  let counted :=
    {| report := report st;
       totalIcons := S (totalIcons st);
       iconsWithDuplicates := iconsWithDuplicates st;
       totalFilesToRemove := totalFilesToRemove st;
       removalByStyle := removalByStyle st |} in
  let styleEntries := styles in
  if bool_decide (length styleEntries < 2) then Some counted
  else
    pngPaths ← renderAll iconName styleEntries;
    visualDuplicates ← compare_pairs pngPaths styleEntries [];
    if bool_decide (0 < length visualDuplicates) then
      let cluster := allInvolved visualDuplicates in
      let keep_style := cluster_keep cluster in
      let remove_styles := cluster_remove cluster in
      let '(total, tallies) :=
        foldl count_style (totalFilesToRemove st, removalByStyle st) remove_styles in
      Some {| report := Js.set (report st) iconName
                          {| keep := keep_style; remove := remove_styles |};
              totalIcons := S (totalIcons st);
              iconsWithDuplicates := S (iconsWithDuplicates st);
              totalFilesToRemove := total;
              removalByStyle := tallies |}
    else Some counted.

Definition initial : Run :=
  {| report := [];
     totalIcons := 0;
     iconsWithDuplicates := 0;
     totalFilesToRemove := 0;
     removalByStyle := [("outlined", Js.Num 0); ("filled", Js.Num 0);
                        ("sharp", Js.Num 0); ("round", Js.Num 0)] |}.

Definition processGroups (iconGroups : Js.obj (Js.obj string)) : option Run :=
  Js.for_of process_icon initial iconGroups.

(** The run: the report it writes and the counters it prints; [None] when
    the renderer or the oracle throws. *)
Definition processVisualDeduplication : option Run :=
  processGroups (groupIconsByName path_join ICON_DIR readdirSync).

End Pipeline.

(** The document [JSON.stringify(report, null, 2)] writes: a property that
    is [undefined] is left out. *)
Definition entry_json (d : Decision) : Js.json :=
  Js.JObject (match keep d with
              | Some s => [("keep", Js.JString s)]
              | None => []
              end ++ [("remove", Js.JArray (Js.JString <$> remove d))]).

Definition report_json (r : Js.obj Decision) : Js.json :=
  Js.JObject ((λ e, (e.1, entry_json e.2)) <$> r).

End Visual.

(** ** The report-consuming deleters *)

Module Deleter.

(** What the deleters print. *)
Inductive log_line :=
  | ReportNotFound (reportPath : string)
  | FileDeleted (filePath : string)
  | TotalDeleted (totalDeleted : nat).

(** What a path of the file system holds: a regular file with its text, or
    a directory.  [fs.existsSync] is true of both; [fs.readFileSync] and
    [fs.unlinkSync] throw on a directory.  (Permissions are not modelled: a
    regular file can be read and removed.) *)
Inductive node :=
  | File (text : string)
  | Directory.

(** The state of the deletion loops: the file system, the counter and the
    lines printed so far. *)
Record State := {
  files : gmap string node;
  totalDeleted : nat;
  printed : list log_line
}.

Section Deleters.

Variable path_join : list string → string.
Variable ICON_DIR : string.

(** [JSON.parse]: [None] when it throws. *)
Variable JSON_parse : string → option Js.json.

(** [Object.entries(report)]: the fields of an object, the indices and
    items of an array, the indices and characters of a string, nothing for
    a number or a boolean; it throws on [null].  (A character of a string
    makes the loop body throw whatever it is, so the characters are taken
    to be the code points.) *)
Definition entries (report : Js.json) : option (Js.obj Js.json) :=
  match report with
  | Js.JObject fields => Some fields
  | Js.JArray items => Some (Js.index_entries items)
  | Js.JString s => Some (Js.index_entries (Js.JString <$> Js.code_points s))
  | Js.JNumber _ | Js.JBool _ => Some []
  | Js.JNull => None
  end.

(** [const { remove } = group] followed by [for (const style of remove)]:
    what the loop walks, the items of an array or the code points of a
    string; [None] where the script throws ([group] is [null], or [remove]
    is missing or is not iterable). *)
Definition removals (group : Js.json) : option (list Js.json) :=
  match group with
  | Js.JObject fields =>
      match Js.get fields "remove" with
      | Some (Js.JArray styles) => Some styles
      | Some (Js.JString s) => Some (Js.JString <$> Js.code_points s)
      | _ => None
      end
  | _ => None
  end.

(** [if (fs.existsSync(filePath)) { fs.unlinkSync(filePath); totalDeleted++; ... }]:
    [None] when [unlinkSync] throws. *)
Definition unlink_if_exists (st : State) (filePath : string) : option State :=
  match files st !! filePath with
  | None => Some st
  | Some (File _) =>
      Some {| files := delete filePath (files st);
              totalDeleted := S (totalDeleted st);
              printed := printed st ++ [FileDeleted filePath] |}
  | Some Directory => None
  end.

(** The file a removal points at; [path.join] throws on an argument that
    is not a string. *)
Definition target (iconName : string) (style : Js.json) : option string :=
  match style with
  | Js.JString style => Some (path_join [ICON_DIR; style; iconName +:+ ".svg"])
  | _ => None
  end.

(** The body of [for (const style of remove)]. *)
Definition delete_style (iconName : string) (st : State) (style : Js.json)
    : option State :=
  filePath ← target iconName style;
  unlink_if_exists st filePath.

Definition delete_group (iconName : string) (st : State) (group : Js.json)
    : option State :=
  remove ← removals group;
  Js.for_of (delete_style iconName) st remove.

(** [Array.isArray(entry) ? entry : [entry]] *)
Definition groups_of (entry : Js.json) : list Js.json :=
  match entry with
  | Js.JArray groups => groups
  | _ => [entry]
  end.

Definition start (fs : gmap string node) : State :=
  {| files := fs; totalDeleted := 0; printed := [] |}.

Definition finish (st : State) : gmap string node * list log_line :=
  (files st, printed st ++ [TotalDeleted (totalDeleted st)]).

(** The deletion loops of the hash deleter over a parsed report. *)
Definition deleteByHashReport (fs : gmap string node) (report : Js.json)
    : option State :=
  items ← entries report;
  Js.for_of (λ st '(iconName, entry),
               Js.for_of (delete_group iconName) st (groups_of entry))
            (start fs) items.

(** The deletion loops of the visual deleter over a parsed report. *)
Definition deleteByVisualReport (fs : gmap string node) (report : Js.json)
    : option State :=
  items ← entries report;
  Js.for_of (λ st '(iconName, data), delete_group iconName st data)
            (start fs) items.

(** [fs.readFileSync(reportPath, "utf-8")] once [fs.existsSync(reportPath)]
    is true: it throws on a directory. *)
Definition readFileSync (entry : node) : option string :=
  match entry with
  | File text => Some text
  | Directory => None
  end.

(** The deleters: the files left and the lines printed; [None] when the
    script throws. *)
Definition deleteFilesByHashReport (fs : gmap string node) (reportPath : string)
    : option (gmap string node * list log_line) :=
  match fs !! reportPath with
  | None => Some (fs, [ReportNotFound reportPath])
  | Some entry =>
      text ← readFileSync entry;
      report ← JSON_parse text;
      st ← deleteByHashReport fs report;
      Some (finish st)
  end.

Definition deleteFilesByVisualReport (fs : gmap string node) (reportPath : string)
    : option (gmap string node * list log_line) :=
  match fs !! reportPath with
  | None => Some (fs, [ReportNotFound reportPath])
  | Some entry =>
      text ← readFileSync entry;
      report ← JSON_parse text;
      st ← deleteByVisualReport fs report;
      Some (finish st)
  end.

End Deleters.

End Deleter.

(** ** The marker of the design tool *)

Module Marker.

Definition WARNING : string := "⚠️".

(** The frame [markVariantForDeletion] draws: [strokes], [strokeWeight] and
    [strokeAlign]. *)
Record Frame := {
  stroke_color : nat * nat * nat;
  strokeWeight : nat;
  strokeAlign : string
}.

Definition red_frame : Frame :=
  {| stroke_color := (1, 0, 0); strokeWeight := 3; strokeAlign := "OUTSIDE" |}.

(** A child of a component set.  [sealed] tells that the host refuses a
    change of its strokes (the assignment throws). *)
Record Variant := {
  variant_type : string;
  variant_name : string;
  frame : option Frame;
  sealed : bool
}.

(** A node [findAll] visits on the current page. *)
Record SceneNode := {
  node_type : string;
  node_name : string;
  children : list Variant
}.

Record Message := { msg_type : string; msg_content : string }.

Definition normalizeName (name : string) : string :=
  Js.trim (Js.str_filter Js.is_word_char
             (Js.remove_all WARNING (Js.toLowerCase name))).

(** [variantName.match(/Style=(.+)/)]: the first place where [Style=] is
    followed by a character that does not end the line, and the rest of that
    line. *)
Fixpoint match_Style (variantName : string) : option string :=
  match variantName with
  | EmptyString => None
  | String _ rest =>
      let captured :=
        Js.str_take_while (λ c, negb (Js.is_line_end c)) (Js.str_drop 6 variantName) in
      if String.prefix "Style=" variantName && negb (String.eqb captured "")
      then Some captured
      else match_Style rest
  end.

Definition extractStyleFromVariantName (variantName : string) : string :=
  match match_Style variantName with
  | Some captured => Js.str_filter Js.is_lower_or_digit (Js.toLowerCase captured)
  | None => Js.str_filter Js.is_lower_or_digit (Js.toLowerCase variantName)
  end.

(** The variant after the call and the value returned. *)
Definition markVariantForDeletion (variant : Variant) : Variant * bool :=
  let name :=
    if Js.str_includes (variant_name variant) WARNING then variant_name variant
    else variant_name variant +:+ " " +:+ WARNING in
  if sealed variant then
    ({| variant_type := variant_type variant; variant_name := name;
        frame := frame variant; sealed := sealed variant |}, false)
  else
    ({| variant_type := variant_type variant; variant_name := name;
        frame := Some red_frame; sealed := sealed variant |}, true).

Inductive reason := TwoToneStyle | ListedInReport.

(** [remove.map((s) => s.toLowerCase())]: it throws on an item that is
    not a string. *)
Definition lower_all (items : list Js.json) : option (list string) :=
  mapM (λ item, match item with
                | Js.JString s => Some (Js.toLowerCase s)
                | _ => None
                end) items.

Definition falsy (v : Js.json) : bool :=
  match v with
  | Js.JNull | Js.JBool false | Js.JNumber 0 | Js.JString EmptyString => true
  | _ => false
  end.

(** [report[iconName]]: [None] where it throws ([report] is [null]).  An
    entry is a field of an object or an item of an array, found by its
    index in decimal.  Every other value the handler can get there (a
    character or the length of a string, the length of an array, a member
    the report inherits from its prototype) has no [remove] member, which
    is all the handler asks of it: it is not told from [undefined]
    ([Some None]). *)
Definition report_entry (report : Js.json) (iconName : string)
    : option (option Js.json) :=
  match report with
  | Js.JNull => None
  | Js.JObject fields => Some (Js.get fields iconName)
  | Js.JArray items => Some (Js.get (Js.index_entries items) iconName)
  | Js.JString _ | Js.JNumber _ | Js.JBool _ => Some None
  end.

(** [(entry.remove || []).map((s) => s.toLowerCase())] for a truthy entry,
    and the empty list for a falsy one, which the handler skips; [None]
    where it throws ([remove] is truthy and has no [map], or an item is not
    a string). *)
Definition entry_remove (entry : Js.json) : option (list string) :=
  if falsy entry then Some []
  else match entry with
       | Js.JObject props =>
           match Js.get props "remove" with
           | None => Some []
           | Some (Js.JArray items) => lower_all items
           | Some v => if falsy v then Some [] else None
           end
       | _ => Some []
       end.

Definition report_remove (report : Js.json) (iconName : string)
    : option (list string) :=
  entry ← report_entry report iconName;
  match entry with
  | None => Some []
  | Some entry => entry_remove entry
  end.

(** [shouldMark] and [reason] for one variant: the two-tone test comes
    first and does not look at the report. *)
Definition shouldMark (report : Js.json) (iconName styleName : string)
    : option (option reason) :=
  if decide (styleName = "twotone") then Some (Some TwoToneStyle)
  else
    remove ← report_remove report iconName;
    Some (if Js.includes remove styleName then Some ListedInReport else None).

(** The body of [for (const variant of variants)] for a child of type
    COMPONENT; the other children are not looked at. *)
Definition visit_variant (report : Js.json) (iconName : string)
    (acc : list Variant * nat) (child : Variant) : option (list Variant * nat) :=
  let '(done, markedCount) := acc in
  if decide (variant_type child = "COMPONENT") then
    let styleName := extractStyleFromVariantName (variant_name child) in
    decision ← shouldMark report iconName styleName;
    match decision with
    | Some _ =>
        let '(marked, ok) := markVariantForDeletion child in
        Some (done ++ [marked], if ok then S markedCount else markedCount)
    | None => Some (done ++ [child], markedCount)
    end
  else Some (done ++ [child], markedCount).

(** The body of [for (const set of componentSets)]; nodes of another type
    are not in [componentSets]. *)
Definition visit_node (report : Js.json) (acc : list SceneNode * nat)
    (node : SceneNode) : option (list SceneNode * nat) :=
  let '(done, markedCount) := acc in
  if decide (node_type node = "COMPONENT_SET") then
    let iconName := normalizeName (node_name node) in
    '(kids, count) ← Js.for_of (visit_variant report iconName)
                               ([], markedCount) (children node);
    Some (done ++ [{| node_type := node_type node; node_name := node_name node;
                      children := kids |}], count)
  else Some (done ++ [node], markedCount).

(** The message handler: the page after it and the count it closes the
    plugin with ([None] in second place when the message is not a report to
    load); [None] when the handler throws. *)
Section Handler.

Variable JSON_parse : string → option Js.json.

Definition onmessage (msg : Message) (page : list SceneNode)
    : option (list SceneNode * option nat) :=
  if decide (msg_type msg = "load-json") then
    report ← JSON_parse (msg_content msg);
    '(nodes, markedCount) ← Js.for_of (visit_node report) ([], 0) page;
    Some (nodes, Some markedCount)
  else Some (page, None).

End Handler.

End Marker.

(** ** Vocabulary of the statements *)

(** What one [groups[iconName][style] = path] does to the content. *)
Definition group_insert (iconName style path : string)
  (m : gmap string (gmap string string)) : gmap string (gmap string string) :=
<[iconName := <[style := path]> (default ∅ (m !! iconName))]> m.

(** Two views of one file-system state: the same directories exist and
    each listing is a reordering of the other. *)
Definition same_files (rd rd' : string → option (list string)) : Prop :=
  ∀ dir, option_Forall2 (≡ₚ) (rd dir) (rd' dir).


(** The variants of one icon as the grouper builds them: each style once,
    and only styles of [STYLES]. *)
Definition wf_variants (variants : Js.obj string) : Prop :=
  NoDup (Js.keys variants) ∧ Js.keys variants ⊆ STYLES.

(** A Group mapping as the grouper builds it: each icon name once. *)
Definition wf_groups (groups : Js.obj (Js.obj string)) : Prop :=
  NoDup (Js.keys groups) ∧ Forall (λ e, wf_variants e.2) groups.

(** The sum of a tally table, as JavaScript adds numbers. *)
Definition tally_sum (tallies : Js.obj Js.num) : Js.num :=
  foldr (λ e acc, Js.add e.2 acc) (Js.Num 0) tallies.

(** The entry the hash deduplicator builds from the duplicate clusters of
    one icon: one kept style per cluster, the removals one after another. *)
Definition hash_entry (clusters : list (list string)) : Hash.Decision :=
  {| Hash.keep := cluster_keep <$> clusters;
     Hash.remove := mjoin (cluster_remove <$> clusters) |}.

(** The number of removals listed in a report. *)
Definition hash_removals (report : Js.obj Hash.Decision) : nat :=
  sum_list_with (λ e, length (Hash.remove e.2)) report.

Definition visual_removals (report : Js.obj Visual.Decision) : nat :=
  sum_list_with (λ e, length (Visual.remove e.2)) report.

(** The report entry of one icon in the hash deduplicator, if it has one. *)
Definition hash_icon_entry (getFileHash : string → option string)
    (item : string * Js.obj string) : option (string * Hash.Decision) :=
  hashes ← Hash.hashVariants getFileHash item.2;
  let clusters := Hash.duplicateClusters hashes in
  if bool_decide (0 < length clusters) then Some (item.1, hash_entry clusters)
  else None.

(** The counters of a hash run agree with its report. *)
Definition hash_consistent (st : Hash.Run) : Prop :=
  Js.keys (Hash.removedPerStyle st) = STYLES ∧
  tally_sum (Hash.removedPerStyle st) = Js.Num (Hash.totalFilesRemoved st) ∧
  Hash.totalFilesRemoved st = hash_removals (Hash.report st).

(** The pairs the two comparison loops walk, in their order: every style
    with every later one. *)
Fixpoint ordered_pairs (styles : list string) : list (string * string) :=
  match styles with
  | [] => []
  | styleA :: later => ((λ styleB, (styleA, styleB)) <$> later) ++ ordered_pairs later
  end.

(** The pairs of styles the oracle judges equal. *)
Definition equal_pairs (judge : string → string → option bool)
    (styles : list string) : list (string * string) :=
  filter (λ p, judge p.1 p.2 = Some true) (ordered_pairs styles).

(** The involved set: the styles touched by at least one judgment of
    equality. *)
Definition involved (judge : string → string → option bool)
    (styles : list string) (s : string) : Prop :=
  ∃ t, (s, t) ∈ equal_pairs judge styles ∨ (t, s) ∈ equal_pairs judge styles.

(** What the table of visual duplicates mentions: its keys and the members
    of its sets. *)
Definition touched (visualDuplicates : Js.obj (list string)) (s : string) : Prop :=
  is_Some (Js.get visualDuplicates s) ∨
  ∃ k members, Js.get visualDuplicates k = Some members ∧ s ∈ members.

(** The table of visual duplicates after the given pairs were entered. *)
Definition mark_pairs (vd : Js.obj (list string)) (pairs : list (string * string))
    : Js.obj (list string) :=
  foldl (λ vd p, Visual.mark_equal vd p.1 p.2) vd pairs.

(** The entry the visual deduplicator writes for an involved set. *)
Definition visual_entry (cluster : list string) : Visual.Decision :=
  {| Visual.keep := cluster_keep cluster; Visual.remove := cluster_remove cluster |}.

(** The counters of a visual run agree with its report. *)
Definition visual_consistent (st : Visual.Run) : Prop :=
  Js.keys (Visual.removalByStyle st) = STYLES ∧
  tally_sum (Visual.removalByStyle st) = Js.Num (Visual.totalFilesToRemove st) ∧
  Visual.totalFilesToRemove st = visual_removals (Visual.report st).

(** The scratch file of one variant. *)
Definition pngPath (path_join : list string → string) (TEMP_DIR : string)
    (iconName style : string) : string :=
  path_join [TEMP_DIR; iconName +:+ "_" +:+ style +:+ ".png"].

(** The report entry of one icon in the visual deduplicator, if it has
    one. *)
Definition visual_icon_entry (path_join : list string → string)
    (TEMP_DIR : string) (renderSvgToPng : string → string → option unit)
    (visuallyCompare : string → string → option bool)
    (item : string * Js.obj string) : option (string * Visual.Decision) :=
  if bool_decide (length item.2 < 2) then None
  else
    pngPaths ← Visual.renderAll path_join TEMP_DIR renderSvgToPng item.1 item.2;
    vd ← Visual.compare_pairs visuallyCompare pngPaths item.2 [];
    if bool_decide (0 < length vd)
    then Some (item.1, visual_entry (Visual.allInvolved vd))
    else None.

(** The choice the specification asks for in a cluster: "outlined" when it
    is there, else the smallest style name; and the other members removed. *)
Definition outlined_or_smallest (cluster : list string) (keep : option string)
    (remove : list string) : Prop :=
  ("outlined" ∈ cluster → keep = Some "outlined") ∧
  ("outlined" ∉ cluster →
     ∃ m, keep = Some m ∧ m ∈ cluster ∧ ∀ s, s ∈ cluster → Js.str_le m s) ∧
  remove ≡ₚ filter (λ s, Some s ≠ keep) cluster.

(** The kept style and the removed ones split the cluster. *)
Definition splits_cluster (cluster : list string) (keep : option string)
    (remove : list string) : Prop :=
  ∃ style, keep = Some style ∧ (style ∉ remove) ∧ (style :: remove ≡ₚ cluster).

(** The shape "one Decision object per cluster": an array with an element
    for each duplicate cluster. *)
Definition per_cluster_array (clusters : list (list string)) (entry : Js.json)
    : Prop :=
  ∃ decisions, entry = Js.JArray decisions ∧ length decisions = length clusters.

(** The files a report asks to delete, in the order the loops reach them;
    [None] when a loop throws on the way. *)
Section DeleterTargets.
Variable path_join : list string → string.
Variable ICON_DIR : string.

Definition group_targets (iconName : string) (group : Js.json)
    : option (list string) :=
  remove ← Deleter.removals group;
  mapM (Deleter.target path_join ICON_DIR iconName) remove.

Definition hash_entry_targets (item : string * Js.json) : option (list string) :=
  mjoin <$> mapM (group_targets item.1) (Deleter.groups_of item.2).

Definition hash_report_targets (report : Js.json) : option (list string) :=
  items ← Deleter.entries report;
  mjoin <$> mapM hash_entry_targets items.

Definition visual_report_targets (report : Js.json) : option (list string) :=
  items ← Deleter.entries report;
  mjoin <$> mapM (λ item, group_targets item.1 item.2) items.

End DeleterTargets.

(** What the marker makes of a child of a component set, and of a node of
    the page, when it does not throw. *)
Definition variant_after (report : Js.json) (iconName : string)
    (child child' : Marker.Variant) : Prop :=
  if decide (Marker.variant_type child = "COMPONENT") then
    match Marker.shouldMark report iconName
            (Marker.extractStyleFromVariantName (Marker.variant_name child)) with
    | Some (Some _) => child' = (Marker.markVariantForDeletion child).1
    | Some None => child' = child
    | None => False
    end
  else child' = child.

Definition node_after (report : Js.json) (node node' : Marker.SceneNode) : Prop :=
  if decide (Marker.node_type node = "COMPONENT_SET") then
    Marker.node_type node' = Marker.node_type node ∧
    Marker.node_name node' = Marker.node_name node ∧
    Forall2 (variant_after report (Marker.normalizeName (Marker.node_name node)))
            (Marker.children node) (Marker.children node')
  else node' = node.

(** A report as one of the two deduplicators writes it. *)
Definition written_report (report : Js.json) : Prop :=
  (∃ r, report = Hash.report_json r) ∨ (∃ r, report = Visual.report_json r).

(** ** A small icon library, for examples *)

Module Example.

Definition path_join (parts : list string) : string := String.concat "/" parts.

(** Three icons: [a] in all four styles, [b] in two, [c] in three; one file
    that is not an icon. *)
Definition readdirSync (dir : string) : option (list string) :=
  if decide (dir = "icons/outlined") then Some ["a.svg"; "c.svg"; "README.md"]
  else if decide (dir = "icons/filled") then Some ["a.svg"; "b.svg"; "c.svg"]
  else if decide (dir = "icons/sharp") then Some ["b.svg"; "a.svg"]
  else if decide (dir = "icons/round") then Some ["a.svg"; "c.svg"]
  else None.

(** The same directories, listed in another order. *)
Definition readdirSync' (dir : string) : option (list string) :=
  if decide (dir = "icons/outlined") then Some ["README.md"; "c.svg"; "a.svg"]
  else if decide (dir = "icons/filled") then Some ["c.svg"; "a.svg"; "b.svg"]
  else if decide (dir = "icons/sharp") then Some ["a.svg"; "b.svg"]
  else if decide (dir = "icons/round") then Some ["c.svg"; "a.svg"]
  else None.

(** The four style directories exist. *)
Definition existsSync (dir : string) : bool :=
  bool_decide (dir ∈ ["icons/outlined"; "icons/filled"; "icons/sharp"; "icons/round"]).

(** Digests: [a] is the same file in outlined and filled and another same
    file in sharp and round; [b] is one file twice; [c] is the same in
    filled and round only. *)
Definition getFileHash (filePath : string) : option string :=
  if bool_decide (filePath ∈ ["icons/outlined/a.svg"; "icons/filled/a.svg"])
  then Some "0cc175b9c0f1b6a831c399e269772661"
  else if bool_decide (filePath ∈ ["icons/sharp/a.svg"; "icons/round/a.svg"])
  then Some "92eb5ffee6ae2fec3ad71c777531578f"
  else if bool_decide (filePath ∈ ["icons/filled/b.svg"; "icons/sharp/b.svg"])
  then Some "4a8a08f09d37b73795649038408b5f33"
  else if bool_decide (filePath ∈ ["icons/filled/c.svg"; "icons/round/c.svg"])
  then Some "8277e0910d750195b448797616e091ad"
  else if bool_decide (filePath = "icons/outlined/c.svg")
  then Some "e1671797c52e15f763380b45e841ec32"
  else None.

Definition renderSvgToPng (svgPath outputPath : string) : option unit := Some ().

(** The oracle: for [c], outlined and filled look the same, filled and
    round look the same, outlined and round do not; for [a], sharp and
    round look the same; nothing else does. *)
Definition visuallyCompare (file1 file2 : string) : option bool :=
  Some (bool_decide ((file1, file2) ∈
    [("tmp/c_outlined.png", "tmp/c_filled.png");
     ("tmp/c_filled.png", "tmp/c_round.png");
     ("tmp/a_sharp.png", "tmp/a_round.png")])).

Definition hash_run : option Hash.Run :=
  Eval vm_compute in Hash.processIconGroups path_join "icons" readdirSync getFileHash.

Definition visual_run : option Visual.Run :=
  Eval vm_compute in
    Visual.processVisualDeduplication path_join "icons" "tmp" readdirSync
      renderSvgToPng visuallyCompare.

(** The report files, by name of their text, and a file that is not JSON. *)
Definition JSON_parse (text : string) : option Js.json :=
  if decide (text = "hash report") then
    Hash.report_json <$> (Hash.report <$> hash_run)
  else if decide (text = "visual report") then
    Visual.report_json <$> (Visual.report <$> visual_run)
  else None.

(** The files on disk once both reports are written, [b] in the sharp
    style being already gone. *)
Definition files : gmap string Deleter.node :=
  Deleter.File <$>
  list_to_map
    [("dedup-report.json", "hash report");
     ("visual-dedup-report.json", "visual report");
     ("icons/outlined/a.svg", "<svg>a</svg>");
     ("icons/filled/a.svg", "<svg>a</svg>");
     ("icons/sharp/a.svg", "<svg>a2</svg>");
     ("icons/round/a.svg", "<svg>a2</svg>");
     ("icons/filled/b.svg", "<svg>b</svg>");
     ("icons/outlined/c.svg", "<svg>c</svg>");
     ("icons/filled/c.svg", "<svg>c2</svg>");
     ("icons/round/c.svg", "<svg>c2</svg>")].

(** A page of the design tool: the component set of [c] with a two-tone
    variant, and a frame that is not a component set. *)
Definition page : list Marker.SceneNode :=
  [{| Marker.node_type := "FRAME"; Marker.node_name := "Cover";
      Marker.children := [] |};
   {| Marker.node_type := "COMPONENT_SET"; Marker.node_name := "C";
      Marker.children :=
        [{| Marker.variant_type := "COMPONENT";
            Marker.variant_name := "Style=Outlined";
            Marker.frame := None; Marker.sealed := false |};
         {| Marker.variant_type := "COMPONENT";
            Marker.variant_name := "Style=Two Tone";
            Marker.frame := None; Marker.sealed := false |};
         {| Marker.variant_type := "COMPONENT";
            Marker.variant_name := "Style=Round";
            Marker.frame := None; Marker.sealed := true |}] |}].

Definition message : Marker.Message :=
  {| Marker.msg_type := "load-json"; Marker.msg_content := "visual report" |}.

End Example.

(** A library with an icon named after the accessor [__proto__]: the
    directory of the outlined style, the only one there is, holds
    [__proto__.svg] and [outlined.svg].  Two listings of it. *)
Module PrototypeExample.

Definition existsSync (dir : string) : bool := bool_decide (dir = "icons/outlined").

Definition readdirSync (dir : string) : option (list string) :=
  if decide (dir = "icons/outlined") then Some ["__proto__.svg"; "outlined.svg"]
  else None.

Definition readdirSync' (dir : string) : option (list string) :=
  if decide (dir = "icons/outlined") then Some ["outlined.svg"; "__proto__.svg"]
  else None.

End PrototypeExample.

(** ** Vocabulary of the further properties *)

(** The path a Group mapping holds for an icon and a style: the entry of
    [iconName], and in it the property [style], own properties both (what
    [Object.entries] enumerates); [None] when either is missing. *)
Definition group_path (groups : Js.obj (Js.obj string)) (iconName style : string)
    : option string :=
  variants ← Js.get groups iconName; Js.get variants style.

(** The path the grouper records for the icon file of a style directory:
    [None] when the directory is missing or does not list the file. *)
Definition listed_path (path_join : list string → string) (ICON_DIR : string)
    (readdirSync : string → option (list string)) (iconName style : string)
    : option string :=
  let dir := path_join [ICON_DIR; style] in
  files ← readdirSync dir;
  if decide (iconName +:+ ".svg" ∈ files)
  then Some (path_join [dir; iconName +:+ ".svg"]) else None.

(** The styles of a digest table that have a given digest, in order. *)
Definition styles_with (hashes : Js.obj string) (hash : string) : list string :=
  (filter (λ e, e.2 = hash) hashes).*1.

(** The digest of the file of one style of an icon. *)
Definition variant_hash (getFileHash : string → option string)
    (variants : Js.obj string) (style : string) : option string :=
  filePath ← Js.get variants style; getFileHash filePath.

(** [other] is in the set the table of visual duplicates holds for
    [style]. *)
Definition listed_with (visualDuplicates : Js.obj (list string))
    (style other : string) : Prop :=
  ∃ members, Js.get visualDuplicates style = Some members ∧ other ∈ members.

(** The pairs of styles of an icon whose scratch files the oracle judges
    equal. *)
Definition scratch_equal (path_join : list string → string) (TEMP_DIR : string)
    (visuallyCompare : string → string → option bool)
    (iconName : string) (styles : list string) : list (string * string) :=
  filter (λ p, visuallyCompare (pngPath path_join TEMP_DIR iconName p.1)
                               (pngPath path_join TEMP_DIR iconName p.2)
               = Some true)
         (ordered_pairs styles).

(** A report none of whose entries, the values [Object.entries] yields, is
    an array. *)
Definition no_array_entry (report : Js.json) : Prop :=
  ∀ items, Deleter.entries report = Some items →
           Forall (λ e : string * Js.json, ∀ groups, e.2 ≠ Js.JArray groups) items.

(** An entry with its groups merged into one object: the removals of the
    groups of an array, one after another; an entry that is not an array is
    left as it is.  [None] when a group of the array has no [remove]
    array. *)
Definition merged_entry (entry : Js.json) : option Js.json :=
  match entry with
  | Js.JArray groups =>
      removes ← mapM Deleter.removals groups;
      Some (Js.JObject [("remove", Js.JArray (mjoin removes))])
  | _ => Some entry
  end.

(** Every character of a string is in a class. *)
Fixpoint str_all (p : Ascii.ascii → bool) (s : string) : bool :=
  match s with
  | EmptyString => true
  | String c s' => p c && str_all p s'
  end.

(** A tally table with one count for each style of [STYLES]. *)
Definition tally_table (count : string → nat) : Js.obj Js.num :=
  (λ style, (style, Js.Num (count style))) <$> STYLES.

(** How many times a style is in a list of styles. *)
Definition occurrences (style : string) (styles : list string) : nat :=
  length (filter (λ s, s = style) styles).

(** The number of entries of a report that remove a style. *)
Definition hash_style_removals (report : Js.obj Hash.Decision) (style : string)
    : nat :=
  length (filter (λ e, style ∈ Hash.remove e.2) report).

Definition visual_style_removals (report : Js.obj Visual.Decision)
    (style : string) : nat :=
  length (filter (λ e, style ∈ Visual.remove e.2) report).

(** ** The libraries, pages and reports the statements are made for *)

(** A listing without the entries named after a function every object
    inherits: [groups[iconName]] is that function for them, which is
    truthy, so that the grouper records nothing. *)
Definition visible (files : list string) : list string :=
  filter (λ file, Js.basename file ".svg" ∉ Runtime.MEMBERS) files.

(** What the grouper reads of a directory: nothing when the path does not
    exist. *)
Definition listing (existsSync : string → bool)
    (readdirSync : string → option (list string)) (dir : string)
    : option (list string) :=
  if existsSync dir then visible <$> readdirSync dir else None.

(** A style whose path exists and cannot be listed. *)
Definition unlistable (path_join : list string → string) (ICON_DIR : string)
    (existsSync : string → bool) (readdirSync : string → option (list string))
    (style : string) : Prop :=
  existsSync (path_join [ICON_DIR; style]) = true ∧
  readdirSync (path_join [ICON_DIR; style]) = None.

(** No style directory lists an entry [__proto__.svg]. *)
Definition no_proto_file (path_join : list string → string) (ICON_DIR : string)
    (existsSync : string → bool) (readdirSync : string → option (list string))
    : Prop :=
  ∀ style files,
    style ∈ STYLES →
    existsSync (path_join [ICON_DIR; style]) = true →
    readdirSync (path_join [ICON_DIR; style]) = Some files →
    "__proto__.svg" ∉ files.

(** A name made of ASCII characters and warning signs.  On such a name
    the engine's [toLowerCase], [trim] and regular expressions do what
    [Js.toLowerCase], [Js.trim], [Js.is_word_char] and [Js.is_line_end]
    say. *)
Definition plain_name (name : string) : Prop :=
  str_all Js.is_ascii (Js.remove_all Marker.WARNING name) = true.

(** A page all of whose names, of nodes and of their children, are such
    names. *)
Definition plain_page (page : list Marker.SceneNode) : Prop :=
  Forall (λ node,
            plain_name (Marker.node_name node) ∧
            Forall (λ child, plain_name (Marker.variant_name child))
                   (Marker.children node)) page.

(** A document all of whose string values are ASCII. *)
Fixpoint ascii_json (document : Js.json) : bool :=
  match document with
  | Js.JString s => str_all Js.is_ascii s
  | Js.JArray items => forallb ascii_json items
  | Js.JObject fields => forallb (λ e, ascii_json e.2) fields
  | _ => true
  end.

(** ** The reports of the example library *)

Module ExampleReports.

Definition hash_report : Js.obj Hash.Decision :=
  Eval vm_compute in default [] (Hash.report <$> Example.hash_run).

Definition visual_report : Js.obj Visual.Decision :=
  Eval vm_compute in default [] (Visual.report <$> Example.visual_run).

(** A report in the shape only the hash deleter reads, one object per
    cluster, and the same removals in one object. *)
Definition per_cluster : list (string * Js.json) :=
  [("a", Js.JArray
           [Js.JObject [("keep", Js.JString "outlined");
                        ("remove", Js.JArray [Js.JString "filled"])];
            Js.JObject [("keep", Js.JString "round");
                        ("remove", Js.JArray [Js.JString "sharp"])]]);
   ("c", Js.JObject [("keep", Js.JString "filled");
                     ("remove", Js.JArray [Js.JString "round"])])].

Definition merged : list (string * Js.json) :=
  [("a", Js.JObject [("remove", Js.JArray [Js.JString "filled"; Js.JString "sharp"])]);
   ("c", Js.JObject [("keep", Js.JString "filled");
                     ("remove", Js.JArray [Js.JString "round"])])].

End ExampleReports.

(** * Part II: the properties *)

(** ** Facts about objects *)

Section ObjFacts.
Context {V : Type}.
Implicit Types (o : Js.obj V) (k : string) (v : V).

Lemma get_content o k : Js.get o k = content o !! k.
Proof.
  unfold content. induction o as [|[k' v'] o IH]; simpl; [done|].
  case_decide; subst; by simplify_map_eq.
Qed.

Lemma content_set o k v : content (Js.set o k v) = <[k:=v]> (content o).
Proof.
  unfold content. induction o as [|[k' v'] o IH]; simpl; [done|].
  case_decide; subst; simpl.
  - by rewrite insert_insert_eq.
  - rewrite IH. by apply insert_insert_ne.
Qed.

Lemma keys_set_in o k v : k ∈ Js.keys o → Js.keys (Js.set o k v) = Js.keys o.
Proof.
  unfold Js.keys. induction o as [|[k' v'] o IH]; simpl.
  - by intros ?%elem_of_nil.
  - intros Hin. case_decide; subst; simpl; [done|].
    f_equal. apply IH. apply elem_of_cons in Hin as [?|?]; [congruence|done].
Qed.

Lemma keys_set_notin o k v : k ∉ Js.keys o → Js.set o k v = o ++ [(k, v)].
Proof.
  unfold Js.keys. induction o as [|[k' v'] o IH]; simpl; [done|].
  intros Hnin. apply not_elem_of_cons in Hnin as [? ?].
  case_decide; [congruence|]. f_equal. by apply IH.
Qed.

Lemma keys_set o k v :
  Js.keys (Js.set o k v) = if decide (k ∈ Js.keys o) then Js.keys o else Js.keys o ++ [k].
Proof.
  case_decide.
  - by apply keys_set_in.
  - rewrite keys_set_notin by done. unfold Js.keys. by rewrite fmap_app.
Qed.

Lemma NoDup_keys_set o k v : NoDup (Js.keys o) → NoDup (Js.keys (Js.set o k v)).
Proof.
  intros Hnd. rewrite keys_set. case_decide; [done|].
  apply NoDup_app. split_and!; [done| |apply NoDup_singleton].
  intros x Hx ->%list_elem_of_singleton. done.
Qed.

Lemma get_Some_elem o k v : Js.get o k = Some v → (k, v) ∈ o.
Proof.
  induction o as [|[k' v'] o IH]; simpl; [done|].
  case_decide; subst.
  - intros [= ->]. left.
  - intros ?. right. auto.
Qed.

Lemma get_None_keys o k : Js.get o k = None ↔ k ∉ Js.keys o.
Proof.
  unfold Js.keys. induction o as [|[k' v'] o IH]; simpl.
  - split; [intros _; apply not_elem_of_nil|done].
  - case_decide; subst.
    + split; [done|]. intros []. left.
    + rewrite IH, not_elem_of_cons. split; [by intros ?|by intros [_ ?]].
Qed.

Lemma elem_get o k v : NoDup (Js.keys o) → (k, v) ∈ o → Js.get o k = Some v.
Proof.
  unfold Js.keys. induction o as [|[k' v'] o IH]; simpl.
  - by intros _ ?%elem_of_nil.
  - intros [Hk Hnd]%NoDup_cons [Heq|Hin]%elem_of_cons.
    + injection Heq as -> ->. by rewrite decide_True.
    + case_decide; subst; [|by apply IH].
      exfalso. apply Hk. apply list_elem_of_fmap. by exists (k, v).
Qed.

End ObjFacts.

(** ** File names *)

Lemma strip_suffix_eq s suffix :
Js.strip_suffix s suffix =
  if String.eqb s suffix then Some ""
  else match s with
       | EmptyString => None
       | String c s' => String c <$> Js.strip_suffix s' suffix
       end.
Proof. by destruct s. Qed.

Lemma strip_suffix_spec s suffix p :
Js.strip_suffix s suffix = Some p → s = p +:+ suffix.
Proof.
revert p. induction s as [|c s IH]; intros p; rewrite strip_suffix_eq.
- destruct (String.eqb_spec "" suffix) as [<-|_]; [|done]. by intros [= <-].
- destruct (String.eqb_spec (String c s) suffix) as [<-|_].
  + by intros [= <-].
  + destruct (Js.strip_suffix s suffix) as [q|] eqn:Hq; simpl; [|done].
    intros [= <-]. change (String c s = String c (q +:+ suffix)).
    f_equal. by apply IH.
Qed.

Lemma endsWith_basename file ext :
Js.endsWith file ext = true → file = Js.basename file ext +:+ ext.
Proof.
unfold Js.endsWith, Js.basename. intros [p Hp]%bool_decide_eq_true.
rewrite Hp. simpl. by apply strip_suffix_spec.
Qed.

Lemma basename_inj file1 file2 ext :
Js.endsWith file1 ext = true → Js.endsWith file2 ext = true →
Js.basename file1 ext = Js.basename file2 ext → file1 = file2.
Proof.
intros H1%endsWith_basename H2%endsWith_basename Heq.
rewrite H1, H2. by rewrite Heq.
Qed.

(** ** The grouper: content and listing order *)

Lemma group_insert_comm i1 i2 style p1 p2 m :
(i1 = i2 → p1 = p2) →
group_insert i1 style p1 (group_insert i2 style p2 m)
= group_insert i2 style p2 (group_insert i1 style p1 m).
Proof.
intros Hp. unfold group_insert. destruct (decide (i1 = i2)) as [->|Hne].
- by rewrite Hp.
- rewrite !lookup_insert_ne by done. by apply insert_insert_ne.
Qed.

Section GrouperContent.
Variable path_join : list string → string.
Variable ICON_DIR : string.

Lemma content2_group_file dir style groups file :
  content2 (group_file path_join dir style groups file)
  = if Js.endsWith file ".svg"
    then group_insert (Js.basename file ".svg") style (path_join [dir; file])
           (content2 groups)
    else content2 groups.
Proof.
  unfold group_file. destruct (Js.endsWith file ".svg"); [|done].
  unfold content2, group_insert.
  rewrite content_set, fmap_insert, content_set, lookup_fmap, get_content.
  by destruct (content groups !! Js.basename file ".svg").
Qed.

Lemma group_file_content_proper dir style g g' file :
  content2 g = content2 g' →
  content2 (group_file path_join dir style g file)
  = content2 (group_file path_join dir style g' file).
Proof. intros Heq. by rewrite !content2_group_file, Heq. Qed.

Lemma group_file_swap dir style g file1 file2 :
  content2 (group_file path_join dir style
              (group_file path_join dir style g file1) file2)
  = content2 (group_file path_join dir style
              (group_file path_join dir style g file2) file1).
Proof.
  rewrite !content2_group_file.
  destruct (Js.endsWith file1 ".svg") eqn:H1,
           (Js.endsWith file2 ".svg") eqn:H2; try done.
  apply group_insert_comm. intros Heq.
  by rewrite (basename_inj file2 file1 ".svg").
Qed.

Lemma foldl_group_file_perm dir style files files' :
  files ≡ₚ files' →
  ∀ g g', content2 g = content2 g' →
    content2 (foldl (group_file path_join dir style) g files)
    = content2 (foldl (group_file path_join dir style) g' files').
Proof.
  induction 1 as [|file l l' _ IH|file1 file2 l|l1 l2 l3 _ IH1 _ IH2];
    intros g g' Heq; simpl.
  - done.
  - by apply IH, group_file_content_proper.
  - assert (∀ a b, content2 a = content2 b →
            content2 (foldl (group_file path_join dir style) a l)
            = content2 (foldl (group_file path_join dir style) b l)) as Hl.
    { clear. induction l as [|x l IHl]; intros a b Hab; simpl; [done|].
      by apply IHl, group_file_content_proper. }
    apply Hl. rewrite group_file_swap.
    by do 2 apply group_file_content_proper.
  - etrans; [by apply IH1|by apply IH2].
Qed.

Lemma group_style_perm rd rd' style g g' :
  same_files rd rd' → content2 g = content2 g' →
  content2 (group_style path_join ICON_DIR rd g style)
  = content2 (group_style path_join ICON_DIR rd' g' style).
Proof.
  intros Hrd Heq. unfold group_style.
  destruct (Hrd (path_join [ICON_DIR; style])) as [l l' Hp|]; [|done].
  by apply foldl_group_file_perm.
Qed.

(** On its own keys the grouper produces the same content (the same icon
    names, each with the same styles bound to the same paths) whatever
    order the directory listings come in. *)
Lemma plain_listing_order rd rd' :
  same_files rd rd' →
  let groups := groupIconsByName path_join ICON_DIR rd in
  let groups' := groupIconsByName path_join ICON_DIR rd' in
  content2 groups = content2 groups' ∧
  ∀ iconName style,
    (variants ← Js.get groups iconName; Js.get variants style)
    = (variants ← Js.get groups' iconName; Js.get variants style).
Proof.
  intros Hrd groups groups'.
  assert (content2 groups = content2 groups') as Heq.
  { unfold groups, groups', groupIconsByName.
    assert (∀ styles g g', content2 g = content2 g' →
      content2 (foldl (group_style path_join ICON_DIR rd) g styles)
      = content2 (foldl (group_style path_join ICON_DIR rd') g' styles)) as H.
    { induction styles as [|s styles IH]; intros g g' Hg; simpl; [done|].
      by apply IH, group_style_perm. }
    by apply H. }
  split; [done|]. intros iconName style.
  assert (∀ g : Js.obj (Js.obj string),
            (variants ← Js.get g iconName; Js.get variants style)
            = (m ← content2 g !! iconName; m !! style)) as Hget.
  { intros g. unfold content2. rewrite lookup_fmap, get_content.
    destruct (content g !! iconName); simpl; [apply get_content|done]. }
  by rewrite !Hget, Heq.
Qed.

End GrouperContent.

(** ** The order of [sort] and the choice of what to keep *)

#[global] Instance str_le_total : Total Js.str_le.
Proof. intros a b. apply String.leb_total. Qed.

#[global] Instance str_le_trans : Transitive Js.str_le.
Proof.
  intros a b c. unfold Js.str_le, String.leb.
  destruct (String.compare a b) eqn:Hab; [| |done]; intros _.
  - apply String.compare_eq_iff in Hab as ->. done.
  - destruct (String.compare b c) eqn:Hbc; [| |done]; intros _.
    + apply String.compare_eq_iff in Hbc as <-. by rewrite Hab.
    + apply OrderedTypeEx.String_as_OT.cmp_lt in Hab, Hbc.
      pose proof (OrderedTypeEx.String_as_OT.lt_trans _ _ _ Hab Hbc) as Hac.
      apply OrderedTypeEx.String_as_OT.cmp_lt in Hac.
      unfold OrderedTypeEx.String_as_OT.cmp in Hac. by rewrite Hac.
Qed.

#[global] Instance str_le_antisym : AntiSymm (=) Js.str_le.
Proof. intros a b. apply String.leb_antisym. Qed.

Lemma str_le_refl a : Js.str_le a a.
Proof. by destruct (total Js.str_le a a). Qed.

Lemma sort_perm cluster : Js.sort cluster ≡ₚ cluster.
Proof. apply merge_sort_Permutation. Qed.

Lemma elem_of_sort cluster s : s ∈ Js.sort cluster ↔ s ∈ cluster.
Proof. by rewrite sort_perm. Qed.

Lemma head_sort_min cluster m :
  head (Js.sort cluster) = Some m →
  m ∈ cluster ∧ ∀ s, s ∈ cluster → Js.str_le m s.
Proof.
  intros Hhd.
  pose proof (StronglySorted_merge_sort Js.str_le cluster) as Hsorted.
  fold (Js.sort cluster) in Hsorted.
  setoid_rewrite <-elem_of_sort.
  destruct (Js.sort cluster) as [|x l]; simplify_eq/=.
  apply StronglySorted_inv in Hsorted as [_ Hall].
  split; [left|]. intros s [->|Hs]%elem_of_cons.
  - apply str_le_refl.
  - by eapply Forall_forall in Hall.
Qed.

Lemma head_sort_is_Some cluster : cluster ≠ [] → is_Some (head (Js.sort cluster)).
Proof.
  intros Hne. destruct (Js.sort cluster) as [|x l] eqn:Hs; [|by eexists].
  destruct Hne. apply Permutation_nil_r. by rewrite <-Hs, sort_perm.
Qed.

Lemma includes_true arr x : Js.includes arr x = true ↔ x ∈ arr.
Proof. apply bool_decide_eq_true. Qed.

Lemma includes_false arr x : Js.includes arr x = false ↔ x ∉ arr.
Proof. apply bool_decide_eq_false. Qed.

Lemma cluster_after_keep_perm cluster : cluster_after_keep cluster ≡ₚ cluster.
Proof.
  unfold cluster_after_keep. destruct (Js.includes _ _); [done|apply sort_perm].
Qed.

Lemma cluster_keep_outlined cluster :
  "outlined" ∈ cluster → cluster_keep cluster = Some "outlined".
Proof. intros H%includes_true. unfold cluster_keep. by rewrite H. Qed.

Lemma cluster_keep_smallest cluster :
  "outlined" ∉ cluster → cluster ≠ [] →
  ∃ m, cluster_keep cluster = Some m ∧ m ∈ cluster ∧
       ∀ s, s ∈ cluster → Js.str_le m s.
Proof.
  intros H%includes_false Hne. unfold cluster_keep. rewrite H.
  destruct (head_sort_is_Some cluster Hne) as [m Hm].
  exists m. split; [done|]. by apply head_sort_min.
Qed.

Lemma cluster_keep_elem cluster :
  cluster ≠ [] → ∃ k, cluster_keep cluster = Some k ∧ k ∈ cluster.
Proof.
  intros Hne. destruct (decide ("outlined" ∈ cluster)) as [Hin|Hnin].
  - exists "outlined". by rewrite cluster_keep_outlined.
  - destruct (cluster_keep_smallest cluster Hnin Hne) as (m & ? & ? & _). eauto.
Qed.

Lemma elem_of_cluster_remove cluster s :
  s ∈ cluster_remove cluster ↔ s ∈ cluster ∧ Some s ≠ cluster_keep cluster.
Proof.
  unfold cluster_remove. rewrite list_elem_of_filter, cluster_after_keep_perm.
  tauto.
Qed.

Lemma cluster_remove_perm cluster :
  cluster_remove cluster ≡ₚ filter (λ style, Some style ≠ cluster_keep cluster) cluster.
Proof. unfold cluster_remove. by rewrite cluster_after_keep_perm. Qed.

Lemma filter_ne_perm (l : list string) k :
  NoDup l → k ∈ l → k :: filter (λ s, Some s ≠ Some k) l ≡ₚ l.
Proof.
  induction l as [|x l IH]; intros Hnd Hin.
  - by apply elem_of_nil in Hin.
  - apply NoDup_cons in Hnd as [Hx Hnd]. rewrite filter_cons.
    destruct (decide (x = k)) as [->|Hne].
    + rewrite decide_False by (intros H; by apply H).
      f_equiv. clear IH Hin. induction l as [|y l IHl]; [done|].
      apply not_elem_of_cons in Hx as [? ?]. apply NoDup_cons in Hnd as [_ ?].
      rewrite filter_cons, decide_True by congruence. f_equiv. by apply IHl.
    + rewrite decide_True by congruence.
      apply elem_of_cons in Hin as [?|Hin]; [congruence|].
      rewrite Permutation_swap. f_equiv. by apply IH.
Qed.

(** The kept style together with the removed ones is the cluster. *)
Lemma cluster_keep_remove_perm cluster k :
  NoDup cluster → cluster_keep cluster = Some k → k ∈ cluster →
  k :: cluster_remove cluster ≡ₚ cluster.
Proof.
  intros Hnd Hk Hin. rewrite cluster_remove_perm, Hk. by apply filter_ne_perm.
Qed.

Lemma cluster_keep_in cluster k :
  cluster_keep cluster = Some k → k ∈ cluster.
Proof.
  unfold cluster_keep. destruct (Js.includes cluster "outlined") eqn:H.
  - intros [= <-]. by apply includes_true.
  - intros Hhd. by apply head_sort_min in Hhd as [? _].
Qed.

Lemma cluster_remove_length cluster :
  NoDup cluster → cluster ≠ [] →
  S (length (cluster_remove cluster)) = length cluster.
Proof.
  intros Hnd Hne. destruct (cluster_keep_elem cluster Hne) as (k & Hk & Hin).
  by rewrite <-(cluster_keep_remove_perm cluster k Hnd Hk Hin) at 2.
Qed.

(** ** What the grouper guarantees to the resolvers *)

Section ObjForall.
Context {V : Type}.
Implicit Types (o : Js.obj V) (k : string) (v : V).

Lemma elem_of_set o k v e : e ∈ Js.set o k v → e = (k, v) ∨ e ∈ o.
Proof.
  induction o as [|[k' v'] o IH]; simpl.
  - intros ->%list_elem_of_singleton. by left.
  - case_decide; subst; rewrite !elem_of_cons; intros [?|?]; auto.
    destruct (IH ltac:(done)); auto.
Qed.

Lemma Forall_set (P : string * V → Prop) o k v :
  Forall P o → P (k, v) → Forall P (Js.set o k v).
Proof.
  rewrite !Forall_forall. intros Ho Hkv e [->|He]%elem_of_set; auto.
Qed.

Lemma keys_set_subseteq o k v (S : list string) :
  Js.keys o ⊆ S → k ∈ S → Js.keys (Js.set o k v) ⊆ S.
Proof.
  intros Ho Hk. rewrite keys_set. case_decide; [done|].
  intros x [?|Hx]%elem_of_app; [auto|].
  by apply list_elem_of_singleton in Hx as ->.
Qed.

End ObjForall.

Section GrouperInvariant.
Variable path_join : list string → string.
Variable ICON_DIR : string.
Variable readdirSync : string → option (list string).

Lemma wf_group_file dir style groups file :
  style ∈ STYLES → wf_groups groups →
  wf_groups (group_file path_join dir style groups file).
Proof.
  intros Hstyle [Hnd Hall]. unfold group_file.
  destruct (Js.endsWith file ".svg"); [|done].
  split; [by apply NoDup_keys_set|].
  apply Forall_set; [done|]. simpl.
  destruct (Js.get groups (Js.basename file ".svg")) as [inner|] eqn:Hget; simpl.
  - apply get_Some_elem in Hget.
    eapply Forall_forall in Hall as [Hnd' Hsub]; [|done]. simpl in *.
    split; [by apply NoDup_keys_set|by apply keys_set_subseteq].
  - split; [apply NoDup_singleton|].
    intros x Hx. by apply list_elem_of_singleton in Hx as ->.
Qed.

Lemma wf_group_style groups style :
  style ∈ STYLES → wf_groups groups →
  wf_groups (group_style path_join ICON_DIR readdirSync groups style).
Proof.
  intros Hstyle Hwf. unfold group_style.
  destruct (readdirSync _) as [files|]; [|done].
  revert groups Hwf. induction files as [|f files IH]; intros groups Hwf; simpl.
  - done.
  - by apply IH, wf_group_file.
Qed.

Lemma wf_groupIconsByName :
  wf_groups (groupIconsByName path_join ICON_DIR readdirSync).
Proof.
  unfold groupIconsByName.
  assert (∀ styles groups, styles ⊆ STYLES → wf_groups groups →
            wf_groups (foldl (group_style path_join ICON_DIR readdirSync)
                         groups styles)) as H.
  { induction styles as [|s styles IH]; intros groups Hsub Hwf; simpl; [done|].
    apply IH; [set_solver|]. apply wf_group_style; [set_solver|done]. }
  apply H; [done|]. split; [apply NoDup_nil_2|apply Forall_nil_2].
Qed.

End GrouperInvariant.

(** ** The hash deduplicator: clusters *)

Lemma for_of_cons {A S} (body : S → A → option S) st x l :
  Js.for_of body st (x :: l) = st' ← body st x; Js.for_of body st' l.
Proof. done. Qed.

Section HashClusters.
Variable getFileHash : string → option string.

Lemma hashVariants_keys variants hashes :
  Hash.hashVariants getFileHash variants = Some hashes →
  NoDup (Js.keys hashes) ∧ Js.keys hashes ⊆ Js.keys variants.
Proof.
  unfold Hash.hashVariants.
  assert (∀ acc, NoDup (Js.keys acc) →
    Js.for_of (λ hashes '(style, filePath),
                 hash ← getFileHash filePath; Some (Js.set hashes style hash))
              acc variants = Some hashes →
    NoDup (Js.keys hashes) ∧ Js.keys hashes ⊆ Js.keys acc ++ Js.keys variants) as H.
  { induction variants as [|[style filePath] variants IH]; intros acc Hnd; simpl.
    - intros [= <-]. split; [done|]. by rewrite app_nil_r.
    - destruct (getFileHash filePath) as [hash|]; simpl; [|done].
      intros Hrun. apply IH in Hrun as [? Hsub]; [|by apply NoDup_keys_set].
      split; [done|]. etrans; [done|]. rewrite keys_set. simpl.
      intros x. rewrite !elem_of_app, elem_of_cons.
      case_decide; [tauto|]. rewrite elem_of_app, list_elem_of_singleton. tauto. }
  intros Hrun. apply H in Hrun; [done|apply NoDup_nil_2].
Qed.

Lemma groupByHash_snoc hashes style hash :
  Hash.groupByHash (hashes ++ [(style, hash)])
  = Js.set (Hash.groupByHash hashes) hash
      (default [] (Js.get (Hash.groupByHash hashes) hash) ++ [style]).
Proof. unfold Hash.groupByHash. by rewrite foldl_app. Qed.

Lemma concat_values_push (hashMap : Js.obj (list string)) hash style :
  mjoin (Js.values (Js.set hashMap hash (default [] (Js.get hashMap hash) ++ [style])))
  ≡ₚ mjoin (Js.values hashMap) ++ [style].
Proof.
  unfold Js.values. induction hashMap as [|[h c] hashMap IH]; simpl; [done|].
  case_decide; subst; simpl.
  - rewrite <-!app_assoc. f_equiv. apply Permutation_app_comm.
  - by rewrite IH, app_assoc.
Qed.

(** The clusters of a digest table split its styles. *)
Lemma groupByHash_partition hashes :
  mjoin (Js.values (Hash.groupByHash hashes)) ≡ₚ Js.keys hashes.
Proof.
  induction hashes as [|[style hash] hashes IH] using rev_ind; [done|].
  rewrite groupByHash_snoc, concat_values_push, IH.
  unfold Js.keys. by rewrite fmap_app.
Qed.

Lemma concat_filter_sublist {A} (P : list A → Prop) `{∀ x, Decision (P x)} ls :
  mjoin (filter P ls) `sublist_of` mjoin ls.
Proof.
  induction ls as [|l ls IH]; simpl; [done|]. rewrite filter_cons.
  case_decide; simpl.
  - by apply sublist_app.
  - by apply sublist_inserts_l.
Qed.

Lemma duplicateClusters_sublist hashes :
  mjoin (Hash.duplicateClusters hashes)
  `sublist_of` mjoin (Js.values (Hash.groupByHash hashes)).
Proof. apply concat_filter_sublist. Qed.

Lemma duplicateClusters_NoDup hashes :
  NoDup (Js.keys hashes) → NoDup (mjoin (Hash.duplicateClusters hashes)).
Proof.
  intros Hnd. eapply sublist_NoDup; [|apply duplicateClusters_sublist].
  by rewrite groupByHash_partition.
Qed.

Lemma duplicateClusters_elem hashes cluster s :
  cluster ∈ Hash.duplicateClusters hashes → s ∈ cluster → s ∈ Js.keys hashes.
Proof.
  intros Hc Hs. rewrite <-groupByHash_partition.
  eapply sublist_subseteq; [apply duplicateClusters_sublist|].
  apply list_elem_of_join. eauto.
Qed.

Lemma duplicateClusters_length hashes cluster :
  cluster ∈ Hash.duplicateClusters hashes → 1 < length cluster.
Proof. unfold Hash.duplicateClusters. by intros [? _]%list_elem_of_filter. Qed.

Lemma NoDup_concat_elem {A} (ls : list (list A)) l :
  NoDup (mjoin ls) → l ∈ ls → NoDup l.
Proof.
  induction ls as [|l' ls IH]; simpl.
  - by intros _ ?%elem_of_nil.
  - intros (? & _ & ?)%NoDup_app [->|?]%elem_of_cons; auto.
Qed.

End HashClusters.

(** ** The hash deduplicator: counters and report *)

Lemma tally_count_style tallies style n :
  style ∈ Js.keys tallies → tally_sum tallies = Js.Num n →
  tally_sum (Hash.count_style tallies style) = Js.Num (S n).
Proof.
  unfold Hash.count_style, Js.keys. revert n.
  induction tallies as [|[k v] tallies IH]; intros n Hin; simpl.
  - by apply elem_of_nil in Hin.
  - case_decide; subst; simpl.
    + destruct v as [a|], (tally_sum tallies) as [b|]; simpl; try done.
      intros [= <-]. done.
    + simpl in Hin. apply elem_of_cons in Hin as [?|Hin]; [congruence|].
      destruct v as [a|]; [|done].
      destruct (tally_sum tallies) as [b|] eqn:Hb; [|done]. simpl.
      intros [= <-]. rewrite (IH b Hin eq_refl). simpl. f_equal. lia.
Qed.

Lemma keys_count_style tallies style :
  style ∈ Js.keys tallies →
  Js.keys (Hash.count_style tallies style) = Js.keys tallies.
Proof. apply keys_set_in. Qed.

Lemma foldl_count_style tallies styles n :
  styles ⊆ Js.keys tallies → tally_sum tallies = Js.Num n →
  Js.keys (foldl Hash.count_style tallies styles) = Js.keys tallies ∧
  tally_sum (foldl Hash.count_style tallies styles) = Js.Num (n + length styles).
Proof.
  revert tallies n. induction styles as [|s styles IH]; intros tallies n Hsub Hsum.
  - simpl. by rewrite Nat.add_0_r.
  - simpl. assert (s ∈ Js.keys tallies) as Hs by (apply Hsub; left).
    destruct (IH (Hash.count_style tallies s) (S n)) as [Hk Ht].
    + rewrite keys_count_style by done. intros x Hx. apply Hsub. by right.
    + by apply tally_count_style.
    + rewrite Hk, Ht, keys_count_style by done. split; [done|]. f_equal. lia.
Qed.

Lemma foldl_resolve_cluster clusters entry total tallies :
  foldl Hash.resolve_cluster (entry, total, tallies) clusters
  = ({| Hash.keep := Hash.keep entry ++ (cluster_keep <$> clusters);
        Hash.remove := Hash.remove entry ++ mjoin (cluster_remove <$> clusters) |},
     total + length (mjoin (cluster_remove <$> clusters)),
     foldl Hash.count_style tallies (mjoin (cluster_remove <$> clusters))).
Proof.
  revert entry total tallies.
  induction clusters as [|c clusters IH]; intros [keep remove] total tallies; simpl.
  - by rewrite !app_nil_r, Nat.add_0_r.
  - rewrite IH. simpl. rewrite <-!app_assoc, length_app, foldl_app.
    by rewrite Nat.add_assoc.
Qed.

Lemma hash_removals_snoc report icon entry :
  hash_removals (report ++ [(icon, entry)])
  = hash_removals report + length (Hash.remove entry).
Proof.
  unfold hash_removals. rewrite sum_list_with_app. simpl. lia.
Qed.

Section HashRun.
Variable getFileHash : string → option string.

Lemma removed_styles_in_STYLES variants hashes s :
  wf_variants variants →
  Hash.hashVariants getFileHash variants = Some hashes →
  s ∈ mjoin (cluster_remove <$> Hash.duplicateClusters hashes) → s ∈ STYLES.
Proof.
  intros [_ Hsub] Hh (r & Hs & (c & -> & Hc)%list_elem_of_fmap)%list_elem_of_join.
  apply elem_of_cluster_remove in Hs as [Hs _].
  apply hashVariants_keys in Hh as [_ Hk].
  apply Hsub, Hk. by eapply duplicateClusters_elem.
Qed.

Lemma process_icon_step st0 st1 icon variants :
  wf_variants variants → icon ∉ Js.keys (Hash.report st0) →
  hash_consistent st0 →
  Hash.process_icon getFileHash st0 (icon, variants) = Some st1 →
  Hash.report st1
  = Hash.report st0 ++ option_list (hash_icon_entry getFileHash (icon, variants)) ∧
  Hash.totalIcons st1 = S (Hash.totalIcons st0) ∧
  hash_consistent st1.
Proof.
  intros Hwf Hfresh (Hkeys & Hsum & Htotal).
  unfold Hash.process_icon, hash_icon_entry. simpl.
  destruct (Hash.hashVariants getFileHash variants) as [hashes|] eqn:Hh; simpl;
    [|done].
  case_bool_decide.
  - rewrite foldl_resolve_cluster. simpl. intros [= <-]. simpl.
    set (removes := mjoin (cluster_remove <$> Hash.duplicateClusters hashes)).
    destruct (foldl_count_style (Hash.removedPerStyle st0) removes
                (Hash.totalFilesRemoved st0)) as [Hk Ht]; [|done|].
    { rewrite Hkeys. intros s Hs. by eapply removed_styles_in_STYLES. }
    rewrite keys_set_notin by done.
    split_and!; [done|done|].
    split_and!; simpl; [congruence|done|].
    rewrite hash_removals_snoc. simpl. by rewrite Htotal.
  - intros [= <-]. simpl. rewrite app_nil_r. done.
Qed.

Lemma for_of_process_icon groups st0 st :
  Forall (λ e, wf_variants e.2) groups →
  NoDup (Js.keys (Hash.report st0) ++ Js.keys groups) →
  hash_consistent st0 →
  Js.for_of (Hash.process_icon getFileHash) st0 groups = Some st →
  Hash.report st = Hash.report st0 ++ omap (hash_icon_entry getFileHash) groups ∧
  Hash.totalIcons st = Hash.totalIcons st0 + length groups ∧
  hash_consistent st.
Proof.
  revert st0. induction groups as [|[icon variants] groups IH];
    intros st0 Hwf Hnd Hcons.
  - simpl. intros [= <-]. by rewrite app_nil_r, Nat.add_0_r.
  - rewrite for_of_cons.
    destruct (Hash.process_icon getFileHash st0 (icon, variants)) as [st1|] eqn:Hstep;
      simpl; [|done].
    apply Forall_cons in Hwf as [Hwf1 Hwf]. simpl in Hwf1.
    assert (icon ∉ Js.keys (Hash.report st0)) as Hfresh.
    { apply NoDup_app in Hnd as (_ & Hdisj & _). intros Hin.
      apply (Hdisj _ Hin). left. }
    destruct (process_icon_step _ _ _ _ Hwf1 Hfresh Hcons Hstep)
      as (Hrep & Hcount & Hcons1).
    intros Hrun. apply IH in Hrun as (Hrep' & Hcount' & Hcons'); [|done| |done].
    + rewrite Hrep', Hrep, Hcount', Hcount, <-app_assoc.
      split_and!; [|lia|done]. f_equal. simpl.
      by destruct (hash_icon_entry getFileHash (icon, variants)).
    + rewrite Hrep. unfold Js.keys in *. rewrite fmap_app.
      assert (Js.keys (option_list (hash_icon_entry getFileHash (icon, variants)))
              `sublist_of` [icon]) as Hsl.
      { unfold hash_icon_entry. simpl.
        destruct (Hash.hashVariants _ _); simpl; [|apply sublist_nil_l].
        case_bool_decide; simpl; [done|apply sublist_nil_l]. }
      eapply sublist_NoDup; [|apply sublist_app; [apply sublist_app|]; done].
      simpl in Hnd. by rewrite <-app_assoc.
Qed.

Lemma hash_initial_consistent : hash_consistent Hash.initial.
Proof. done. Qed.

Lemma processGroups_spec groups st :
  wf_groups groups →
  Hash.processGroups getFileHash groups = Some st →
  Hash.report st = omap (hash_icon_entry getFileHash) groups ∧
  Hash.totalIcons st = length groups ∧
  hash_consistent st.
Proof.
  intros [Hnd Hwf] Hrun.
  by apply for_of_process_icon in Hrun; [|done|done|apply hash_initial_consistent].
Qed.

End HashRun.

(** ** The visual deduplicator: the involved set *)

Section VisualPairs.

Lemma get_set_eq {V} (o : Js.obj V) k v : Js.get (Js.set o k v) k = Some v.
Proof. by rewrite get_content, content_set, lookup_insert_eq. Qed.

Lemma get_set_ne {V} (o : Js.obj V) k k' v :
  k ≠ k' → Js.get (Js.set o k v) k' = Js.get o k'.
Proof. intros. by rewrite !get_content, content_set, lookup_insert_ne. Qed.

Lemma get_set {V} (o : Js.obj V) k k' v :
  Js.get (Js.set o k v) k' = if decide (k = k') then Some v else Js.get o k'.
Proof. case_decide; subst; [apply get_set_eq|by apply get_set_ne]. Qed.

Lemma elem_of_set_add s x y : y ∈ Js.set_add s x ↔ y ∈ s ∨ y = x.
Proof.
  unfold Js.set_add. case_decide.
  - split; [auto|]. intros [?| ->]; done.
  - by rewrite elem_of_app, list_elem_of_singleton.
Qed.

Lemma NoDup_set_add s x : NoDup s → NoDup (Js.set_add s x).
Proof.
  intros Hnd. unfold Js.set_add. case_decide; [done|].
  apply NoDup_app. split_and!; [done| |apply NoDup_singleton].
  intros y Hy Hy'. apply list_elem_of_singleton in Hy' as ->. done.
Qed.

Lemma touched_ensure_set vd k s :
  touched (Visual.ensure_set vd k) s ↔ touched vd s ∨ s = k.
Proof.
  unfold Visual.ensure_set, touched. destruct (Js.get vd k) as [m|] eqn:Hk.
  - split; [by left|]. intros [?| ->]; [done|]. left. by rewrite Hk.
  - setoid_rewrite get_set. split.
    + intros [Hs|(k' & m & Hm & Hs)].
      * case_decide; [by right|]. by left; left.
      * case_decide; simplify_eq; [by apply elem_of_nil in Hs|].
        left. right. eauto.
    + intros [[Hs|(k' & m & Hm & Hs)]| ->].
      * left. by case_decide.
      * right. exists k', m. split; [|done]. case_decide; [congruence|done].
      * left. by rewrite decide_True.
Qed.

Lemma get_ensure_set_same vd k : is_Some (Js.get (Visual.ensure_set vd k) k).
Proof.
  unfold Visual.ensure_set. destruct (Js.get vd k) eqn:Hk; [by rewrite Hk|].
  by rewrite get_set_eq.
Qed.

Lemma get_ensure_set_mono vd k k' :
  is_Some (Js.get vd k') → is_Some (Js.get (Visual.ensure_set vd k) k').
Proof.
  unfold Visual.ensure_set. destruct (Js.get vd k) eqn:Hk; [done|].
  rewrite get_set. by case_decide.
Qed.

Lemma get_add_member_mono vd k x k' :
  is_Some (Js.get vd k') → is_Some (Js.get (Visual.add_member vd k x) k').
Proof. unfold Visual.add_member. rewrite get_set. by case_decide. Qed.

Lemma touched_add_member vd k x s :
  is_Some (Js.get vd k) →
  touched (Visual.add_member vd k x) s ↔ touched vd s ∨ s = x.
Proof.
  intros [m Hk]. unfold Visual.add_member, touched. rewrite Hk. simpl.
  setoid_rewrite get_set. split.
  - intros [Hs|(k' & m' & Hm & Hs)].
    + left. left. case_decide; [subst; by rewrite Hk|done].
    + case_decide; simplify_eq.
      * apply elem_of_set_add in Hs as [Hs| ->]; [|by right].
        left. right. eauto.
      * left. right. eauto.
  - intros [[Hs|(k' & m' & Hm & Hs)]| ->].
    + left. by case_decide.
    + right. destruct (decide (k = k')) as [<-|Hne].
      * exists k, (Js.set_add m x). rewrite decide_True by done.
        split; [done|]. apply elem_of_set_add. left. congruence.
      * exists k', m'. by rewrite decide_False.
    + right. exists k, (Js.set_add m x). rewrite decide_True by done.
      split; [done|]. apply elem_of_set_add. by right.
Qed.

(** Entering a pair touches its two styles and nothing else. *)
Lemma touched_mark_equal vd a b s :
  touched (Visual.mark_equal vd a b) s ↔ touched vd s ∨ s = a ∨ s = b.
Proof.
  unfold Visual.mark_equal.
  rewrite !touched_add_member, !touched_ensure_set; [tauto| |].
  - apply get_ensure_set_mono, get_ensure_set_same.
  - apply get_add_member_mono, get_ensure_set_same.
Qed.

Lemma touched_nil s : ¬ touched [] s.
Proof. intros [[? ?]|(? & ? & ? & _)]; done. Qed.

Lemma touched_mark_pairs pairs vd s :
  touched (mark_pairs vd pairs) s ↔
  touched vd s ∨ ∃ t, (s, t) ∈ pairs ∨ (t, s) ∈ pairs.
Proof.
  unfold mark_pairs. revert vd.
  induction pairs as [|[a b] pairs IH]; intros vd; simpl.
  - split; [by left|]. intros [?|[t [H|H]]]; [done|..]; by apply elem_of_nil in H.
  - rewrite IH, touched_mark_equal. setoid_rewrite elem_of_cons. split.
    + intros [[?|[->| ->]]|[t [?|?]]]; eauto 8.
    + intros [?|[t [[?|?]|[?|?]]]]; simplify_eq; eauto 8.
Qed.

End VisualPairs.

Section VisualCompare.
Variable visuallyCompare : string → string → option bool.
Variable pngPaths : Js.obj string.

Local Abbreviation judge := (Visual.judgment visuallyCompare pngPaths).

Lemma mark_pairs_app vd l1 l2 :
  mark_pairs vd (l1 ++ l2) = mark_pairs (mark_pairs vd l1) l2.
Proof. apply foldl_app. Qed.

Lemma compare_with_spec styleA vd0 later vd :
  Visual.compare_with visuallyCompare pngPaths styleA vd0 later = Some vd →
  vd = mark_pairs vd0
         (filter (λ p, judge p.1 p.2 = Some true)
                 ((λ styleB, (styleA, styleB)) <$> Js.keys later)).
Proof.
  unfold Visual.compare_with. revert vd0.
  induction later as [|[styleB svg] later IH]; intros vd0.
  - simpl. by intros [= <-].
  - rewrite for_of_cons. simpl.
    destruct (judge styleA styleB) as [[]|] eqn:Hj; simpl; [| |done].
    + intros Hrun%IH. rewrite filter_cons, decide_True by done. done.
    + intros Hrun%IH. rewrite filter_cons, decide_False by (simpl; congruence).
      done.
Qed.

Lemma compare_pairs_spec styleEntries vd0 vd :
  Visual.compare_pairs visuallyCompare pngPaths styleEntries vd0 = Some vd →
  vd = mark_pairs vd0 (equal_pairs judge (Js.keys styleEntries)).
Proof.
  unfold equal_pairs. revert vd0.
  induction styleEntries as [|[styleA svg] later IH]; intros vd0; simpl.
  - by intros [= <-].
  - destruct (Visual.compare_with _ _ _ _ _) as [vd1|] eqn:Hwith; simpl; [|done].
    apply compare_with_spec in Hwith as ->. intros Hrun%IH.
    by rewrite filter_app, mark_pairs_app.
Qed.

End VisualCompare.

Lemma NoDup_keys_ensure_set vd k :
  NoDup (Js.keys vd) → NoDup (Js.keys (Visual.ensure_set vd k)).
Proof.
  unfold Visual.ensure_set. destruct (Js.get vd k); [done|apply NoDup_keys_set].
Qed.

Lemma NoDup_keys_mark_pairs pairs vd :
  NoDup (Js.keys vd) → NoDup (Js.keys (mark_pairs vd pairs)).
Proof.
  unfold mark_pairs. revert vd.
  induction pairs as [|[a b] pairs IH]; intros vd Hnd; simpl; [done|].
  apply IH. unfold Visual.mark_equal, Visual.add_member.
  by do 2 apply NoDup_keys_set; do 2 apply NoDup_keys_ensure_set.
Qed.

Lemma ordered_pairs_elem styles a b :
  NoDup styles → (a, b) ∈ ordered_pairs styles →
  a ∈ styles ∧ b ∈ styles ∧ a ≠ b.
Proof.
  induction styles as [|x styles IH]; simpl.
  - by intros _ ?%elem_of_nil.
  - intros [Hx Hnd]%NoDup_cons [Hin|Hin]%elem_of_app.
    + apply list_elem_of_fmap in Hin as (y & [= -> ->] & Hy).
      split_and!; [left|by right|]. by intros ->.
    + destruct (IH Hnd Hin) as (? & ? & ?). split_and!; [by right|by right|done].
Qed.

Lemma foldl_set_add_elem l acc x :
  x ∈ foldl Js.set_add acc l ↔ x ∈ acc ∨ x ∈ l.
Proof.
  revert acc. induction l as [|y l IH]; intros acc; simpl.
  - split; [by left|]. intros [?|?%elem_of_nil]; done.
  - rewrite IH, elem_of_set_add, elem_of_cons. naive_solver.
Qed.

Lemma foldl_set_add_NoDup l acc : NoDup acc → NoDup (foldl Js.set_add acc l).
Proof.
  revert acc. induction l as [|y l IH]; intros acc Hnd; simpl; [done|].
  by apply IH, NoDup_set_add.
Qed.

Lemma allInvolved_NoDup vd : NoDup (Visual.allInvolved vd).
Proof.
  unfold Visual.allInvolved.
  assert (∀ sets acc, NoDup acc →
            NoDup (foldl (λ acc s, foldl Js.set_add acc s) acc sets)) as H.
  { induction sets as [|s sets IH]; intros acc Hnd; simpl; [done|].
    by apply IH, foldl_set_add_NoDup. }
  apply H, foldl_set_add_NoDup, NoDup_nil_2.
Qed.

Lemma allInvolved_elem vd x :
  x ∈ Visual.allInvolved vd ↔
  x ∈ Js.keys vd ∨ ∃ members, members ∈ Js.values vd ∧ x ∈ members.
Proof.
  unfold Visual.allInvolved.
  assert (∀ sets acc,
            x ∈ foldl (λ acc s, foldl Js.set_add acc s) acc sets ↔
            x ∈ acc ∨ ∃ members, members ∈ sets ∧ x ∈ members) as H.
  { induction sets as [|s sets IH]; intros acc; simpl.
    - split; [by left|]. intros [?|(? & ?%elem_of_nil & _)]; done.
    - rewrite IH, foldl_set_add_elem. setoid_rewrite elem_of_cons.
      naive_solver. }
  rewrite H, foldl_set_add_elem. rewrite elem_of_nil. tauto.
Qed.

Lemma allInvolved_touched vd x :
  NoDup (Js.keys vd) → x ∈ Visual.allInvolved vd ↔ touched vd x.
Proof.
  intros Hnd. rewrite allInvolved_elem. unfold touched. f_equiv.
  - rewrite <-not_eq_None_Some, get_None_keys. split; [auto|].
    apply dec_stable.
  - unfold Js.values. split.
    + intros (m & ([k m'] & -> & Hin)%list_elem_of_fmap & Hx).
      exists k, m'. split; [by apply elem_get|done].
    + intros (k & m & Hget%get_Some_elem & Hx).
      exists m. split; [|done]. apply list_elem_of_fmap. by exists (k, m).
Qed.

(** The styles in [allInvolved] are the involved set. *)
Lemma allInvolved_involved visuallyCompare pngPaths styleEntries vd x :
  Visual.compare_pairs visuallyCompare pngPaths styleEntries [] = Some vd →
  x ∈ Visual.allInvolved vd ↔
  involved (Visual.judgment visuallyCompare pngPaths) (Js.keys styleEntries) x.
Proof.
  intros ->%compare_pairs_spec.
  rewrite allInvolved_touched by apply NoDup_keys_mark_pairs, NoDup_nil_2.
  rewrite touched_mark_pairs. unfold involved.
  split; [intros [?%touched_nil|?]; done|by right].
Qed.

Lemma involved_two visuallyCompare pngPaths styleEntries vd :
  NoDup (Js.keys styleEntries) →
  Visual.compare_pairs visuallyCompare pngPaths styleEntries [] = Some vd →
  0 < length vd →
  1 < length (Visual.allInvolved vd) ∧
  Visual.allInvolved vd ⊆ Js.keys styleEntries.
Proof.
  intros Hnd Hrun Hlen.
  assert (∀ a b, (a, b) ∈ equal_pairs (Visual.judgment visuallyCompare pngPaths)
                             (Js.keys styleEntries) →
                 a ∈ Js.keys styleEntries ∧ b ∈ Js.keys styleEntries ∧ a ≠ b) as Hpair.
  { intros a b [_ Hin]%list_elem_of_filter. by apply ordered_pairs_elem. }
  split.
  - destruct vd as [|[k m] vd'] eqn:Hvd; [simpl in Hlen; lia|]. rewrite <-Hvd in *.
    assert (k ∈ Visual.allInvolved vd) as Hk.
    { apply allInvolved_elem. left. rewrite Hvd. left. }
    apply (allInvolved_involved _ _ _ _ _ Hrun) in Hk as [t Ht].
    assert (∃ a b, a ≠ b ∧ a ∈ Visual.allInvolved vd ∧ b ∈ Visual.allInvolved vd)
      as (a & b & Hne & Ha & Hb).
    { destruct Ht as [Ht|Ht]; destruct (Hpair _ _ Ht) as (_ & _ & Hne).
      - exists k, t. split; [done|].
        split; apply (allInvolved_involved _ _ _ _ _ Hrun).
        + exists t. by left.
        + exists k. by right.
      - exists t, k. split; [done|].
        split; apply (allInvolved_involved _ _ _ _ _ Hrun).
        + exists k. by left.
        + exists t. by right. }
    pose proof (allInvolved_NoDup vd) as Hnd'.
    destruct (Visual.allInvolved vd) as [|x [|y l]]; simpl; [| |lia].
    + by apply elem_of_nil in Ha.
    + apply list_elem_of_singleton in Ha, Hb. congruence.
  - intros x [t Ht]%(allInvolved_involved _ _ _ _ _ Hrun).
    destruct Ht as [Ht|Ht]; destruct (Hpair _ _ Ht) as (? & ? & _); done.
Qed.

(** ** The visual deduplicator: counters and report *)

Lemma foldl_visual_count_style styles total tallies :
  styles ⊆ Js.keys tallies →
  foldl Visual.count_style (total, tallies) styles
  = (total + length styles, foldl Hash.count_style tallies styles).
Proof.
  revert total tallies.
  induction styles as [|s styles IH]; intros total tallies Hsub.
  - simpl. by rewrite Nat.add_0_r.
  - assert (s ∈ Js.keys tallies) as Hs by (apply Hsub; left).
    assert (Visual.count_style (total, tallies) s
            = (S total, Hash.count_style tallies s)) as Hstep.
    { unfold Visual.count_style, Hash.count_style.
      destruct (Js.get tallies s) as [v|] eqn:Hget; [done|].
      by apply get_None_keys in Hget. }
    cbn [foldl length]. rewrite Hstep, IH.
    + f_equal. lia.
    + rewrite keys_count_style by done. intros x Hx. apply Hsub. by right.
Qed.

Lemma visual_removals_snoc report icon entry :
  visual_removals (report ++ [(icon, entry)])
  = visual_removals report + length (Visual.remove entry).
Proof.
  unfold visual_removals. rewrite sum_list_with_app. simpl. lia.
Qed.

Section VisualRun.
Variable path_join : list string → string.
Variable TEMP_DIR : string.
Variable renderSvgToPng : string → string → option unit.
Variable visuallyCompare : string → string → option bool.

Local Abbreviation process_icon :=
  (Visual.process_icon path_join TEMP_DIR renderSvgToPng visuallyCompare).
Local Abbreviation icon_entry :=
  (visual_icon_entry path_join TEMP_DIR renderSvgToPng visuallyCompare).

Lemma visual_process_icon_step st0 st1 icon variants :
  wf_variants variants → icon ∉ Js.keys (Visual.report st0) →
  visual_consistent st0 →
  process_icon st0 (icon, variants) = Some st1 →
  Visual.report st1
  = Visual.report st0 ++ option_list (icon_entry (icon, variants)) ∧
  Visual.totalIcons st1 = S (Visual.totalIcons st0) ∧
  visual_consistent st1.
Proof.
  intros [Hnd Hsub] Hfresh (Hkeys & Hsum & Htotal).
  unfold Visual.process_icon, visual_icon_entry. simpl.
  case_bool_decide.
  { intros [= <-]. simpl. by rewrite app_nil_r. }
  destruct (Visual.renderAll _ _ _ _ _) as [pngPaths|]; simpl; [|done].
  destruct (Visual.compare_pairs _ _ _ _) as [vd|] eqn:Hvd; simpl; [|done].
  case_bool_decide as Hlen.
  - destruct (involved_two _ _ _ _ Hnd Hvd Hlen) as [_ Hinv].
    set (removes := cluster_remove (Visual.allInvolved vd)).
    assert (removes ⊆ Js.keys (Visual.removalByStyle st0)) as Hrem.
    { rewrite Hkeys. intros s [Hs _]%elem_of_cluster_remove. by apply Hsub, Hinv. }
    rewrite foldl_visual_count_style by done.
    intros [= <-]. simpl.
    destruct (foldl_count_style (Visual.removalByStyle st0) removes
                (Visual.totalFilesToRemove st0) Hrem Hsum) as [Hk Ht].
    rewrite keys_set_notin by done.
    split_and!; [done|done|].
    split_and!; simpl; [congruence|done|].
    rewrite visual_removals_snoc. simpl. by rewrite Htotal.
  - intros [= <-]. simpl. by rewrite app_nil_r.
Qed.

Lemma visual_for_of_process_icon groups st0 st :
  Forall (λ e, wf_variants e.2) groups →
  NoDup (Js.keys (Visual.report st0) ++ Js.keys groups) →
  visual_consistent st0 →
  Js.for_of process_icon st0 groups = Some st →
  Visual.report st = Visual.report st0 ++ omap icon_entry groups ∧
  Visual.totalIcons st = Visual.totalIcons st0 + length groups ∧
  visual_consistent st.
Proof.
  revert st0. induction groups as [|[icon variants] groups IH];
    intros st0 Hwf Hnd Hcons.
  - simpl. intros [= <-]. by rewrite app_nil_r, Nat.add_0_r.
  - rewrite for_of_cons.
    destruct (process_icon st0 (icon, variants)) as [st1|] eqn:Hstep;
      simpl; [|done].
    apply Forall_cons in Hwf as [Hwf1 Hwf]. simpl in Hwf1.
    assert (icon ∉ Js.keys (Visual.report st0)) as Hfresh.
    { apply NoDup_app in Hnd as (_ & Hdisj & _). intros Hin.
      apply (Hdisj _ Hin). left. }
    destruct (visual_process_icon_step _ _ _ _ Hwf1 Hfresh Hcons Hstep)
      as (Hrep & Hcount & Hcons1).
    intros Hrun. apply IH in Hrun as (Hrep' & Hcount' & Hcons'); [|done| |done].
    + rewrite Hrep', Hrep, Hcount', Hcount, <-app_assoc.
      split_and!; [|lia|done]. f_equal. simpl.
      by destruct (icon_entry (icon, variants)).
    + rewrite Hrep. unfold Js.keys in *. rewrite fmap_app.
      assert (Js.keys (option_list (icon_entry (icon, variants)))
              `sublist_of` [icon]) as Hsl.
      { unfold visual_icon_entry. simpl.
        case_bool_decide; [apply sublist_nil_l|].
        destruct (Visual.renderAll _ _ _ _ _); simpl; [|apply sublist_nil_l].
        destruct (Visual.compare_pairs _ _ _ _); simpl; [|apply sublist_nil_l].
        case_bool_decide; simpl; [done|apply sublist_nil_l]. }
      eapply sublist_NoDup; [|apply sublist_app; [apply sublist_app|]; done].
      simpl in Hnd. by rewrite <-app_assoc.
Qed.

Lemma visual_initial_consistent : visual_consistent Visual.initial.
Proof. done. Qed.

Lemma visual_processGroups_spec groups st :
  wf_groups groups →
  Visual.processGroups path_join TEMP_DIR renderSvgToPng visuallyCompare groups
    = Some st →
  Visual.report st = omap icon_entry groups ∧
  Visual.totalIcons st = length groups ∧
  visual_consistent st.
Proof.
  intros [Hnd Hwf] Hrun.
  by apply visual_for_of_process_icon in Hrun;
    [|done|done|apply visual_initial_consistent].
Qed.

End VisualRun.

(** ** Where the entries of a report come from *)

Section ReportEntries.
Variable path_join : list string → string.
Variable ICON_DIR TEMP_DIR : string.
Variable readdirSync : string → option (list string).
Variable getFileHash : string → option string.
Variable renderSvgToPng : string → string → option unit.
Variable visuallyCompare : string → string → option bool.

Lemma grouped_variants_wf icon variants :
  (icon, variants) ∈ groupIconsByName path_join ICON_DIR readdirSync →
  wf_variants variants.
Proof.
  intros Hin. destruct (wf_groupIconsByName path_join ICON_DIR readdirSync) as [_ Hall].
  by eapply Forall_forall in Hall; [|done].
Qed.

(** Every entry of the hash report is the entry of the duplicate clusters
    of an icon of the Group mapping. *)
Lemma hash_report_entry run icon d :
  Hash.processIconGroups path_join ICON_DIR readdirSync getFileHash = Some run →
  (icon, d) ∈ Hash.report run →
  ∃ variants hashes,
    (icon, variants) ∈ groupIconsByName path_join ICON_DIR readdirSync ∧
    wf_variants variants ∧
    Hash.hashVariants getFileHash variants = Some hashes ∧
    NoDup (Js.keys hashes) ∧
    Hash.duplicateClusters hashes ≠ [] ∧
    d = hash_entry (Hash.duplicateClusters hashes).
Proof.
  intros Hrun Hin.
  apply processGroups_spec in Hrun as (Hrep & _); [|apply wf_groupIconsByName].
  rewrite Hrep in Hin.
  apply list_elem_of_omap in Hin as ([icon' variants] & Hg & Hentry).
  unfold hash_icon_entry in Hentry. simpl in Hentry.
  destruct (Hash.hashVariants getFileHash variants) as [hashes|] eqn:Hh;
    simpl in Hentry; [|done].
  case_bool_decide as Hlen; [|done]. injection Hentry as -> <-.
  exists variants, hashes. split_and!; try done.
  - by eapply grouped_variants_wf.
  - by apply hashVariants_keys in Hh as [? _].
  - intros Hnil. rewrite Hnil in Hlen. simpl in Hlen. lia.
Qed.

(** The duplicate clusters of an icon: at least two styles each, no style
    twice, no style in two clusters. *)
Lemma duplicate_cluster_facts hashes cluster :
  NoDup (Js.keys hashes) → cluster ∈ Hash.duplicateClusters hashes →
  1 < length cluster ∧ NoDup cluster ∧ cluster ≠ [] ∧ cluster ⊆ Js.keys hashes.
Proof.
  intros Hnd Hc. pose proof (duplicateClusters_length _ _ Hc) as Hlen.
  split_and!; [done| | |].
  - eapply NoDup_concat_elem; [by apply duplicateClusters_NoDup|done].
  - intros ->. simpl in Hlen. lia.
  - intros s Hs. by eapply duplicateClusters_elem.
Qed.

(** Every entry of the visual report is the entry of the involved set of
    an icon of the Group mapping. *)
Lemma visual_report_entry run icon d :
  Visual.processVisualDeduplication path_join ICON_DIR TEMP_DIR readdirSync
    renderSvgToPng visuallyCompare = Some run →
  (icon, d) ∈ Visual.report run →
  ∃ variants pngPaths vd,
    (icon, variants) ∈ groupIconsByName path_join ICON_DIR readdirSync ∧
    wf_variants variants ∧
    Visual.renderAll path_join TEMP_DIR renderSvgToPng icon variants = Some pngPaths ∧
    Visual.compare_pairs visuallyCompare pngPaths variants [] = Some vd ∧
    0 < length vd ∧
    d = visual_entry (Visual.allInvolved vd).
Proof.
  intros Hrun Hin.
  apply visual_processGroups_spec in Hrun as (Hrep & _); [|apply wf_groupIconsByName].
  rewrite Hrep in Hin.
  apply list_elem_of_omap in Hin as ([icon' variants] & Hg & Hentry).
  unfold visual_icon_entry in Hentry. simpl in Hentry.
  case_bool_decide; [done|].
  destruct (Visual.renderAll _ _ _ _ _) as [pngPaths|] eqn:Hr; simpl in Hentry; [|done].
  destruct (Visual.compare_pairs _ _ _ _) as [vd|] eqn:Hvd; simpl in Hentry; [|done].
  case_bool_decide as Hlen; [|done]. injection Hentry as -> <-.
  exists variants, pngPaths, vd. split_and!; try done.
  by eapply grouped_variants_wf.
Qed.

End ReportEntries.

Lemma cluster_split cluster :
  NoDup cluster → cluster ≠ [] →
  ∃ k, cluster_keep cluster = Some k ∧ (k ∉ cluster_remove cluster) ∧
       (∀ s, s ∈ cluster ↔ s = k ∨ s ∈ cluster_remove cluster) ∧
       (k :: cluster_remove cluster ≡ₚ cluster).
Proof.
  intros Hnd Hne. destruct (cluster_keep_elem cluster Hne) as (k & Hk & Hin).
  exists k. split_and!; [done| | |by apply cluster_keep_remove_perm].
  - rewrite elem_of_cluster_remove, Hk. intros [_ ?]. done.
  - intros s. rewrite elem_of_cluster_remove, Hk. split.
    + intros Hs. destruct (decide (s = k)); [by left|]. right.
      split; [done|congruence].
    + intros [->|[? _]]; done.
Qed.

(** ** The statistics and the shape of the entries *)

Section RunProperties.
Variable path_join : list string → string.
Variable ICON_DIR TEMP_DIR : string.
Variable readdirSync : string → option (list string).
Variable getFileHash : string → option string.
Variable renderSvgToPng : string → string → option unit.
Variable visuallyCompare : string → string → option bool.

(** C5. In a run of either deduplicator, the total of removals printed at
    the end is the sum of the lengths of the remove lists of the report it
    writes, the tally table has one count per style of [STYLES], and these
    counts add up to the same total. *)
Theorem removal_totals :
  (∀ run,
     Hash.processIconGroups path_join ICON_DIR readdirSync getFileHash = Some run →
     Hash.totalFilesRemoved run = hash_removals (Hash.report run) ∧
     Js.keys (Hash.removedPerStyle run) = STYLES ∧
     tally_sum (Hash.removedPerStyle run) = Js.Num (Hash.totalFilesRemoved run)) ∧
  (∀ run,
     Visual.processVisualDeduplication path_join ICON_DIR TEMP_DIR readdirSync
       renderSvgToPng visuallyCompare = Some run →
     Visual.totalFilesToRemove run = visual_removals (Visual.report run) ∧
     Js.keys (Visual.removalByStyle run) = STYLES ∧
     tally_sum (Visual.removalByStyle run) = Js.Num (Visual.totalFilesToRemove run)).
Proof.
  split; intros run Hrun.
  - apply processGroups_spec in Hrun as (_ & _ & Hk & Hs & Ht);
      [done|apply wf_groupIconsByName].
  - apply visual_processGroups_spec in Hrun as (_ & _ & Hk & Hs & Ht);
      [done|apply wf_groupIconsByName].
Qed.

(** C10. Every entry of a report written by either deduplicator keeps
    something and removes something: in the hash report the keep list is
    not empty and each of its members is a style, in the visual report
    keep is a style, and in both the remove list is not empty. *)
Theorem entries_keep_and_remove :
  (∀ run icon d,
     Hash.processIconGroups path_join ICON_DIR readdirSync getFileHash = Some run →
     (icon, d) ∈ Hash.report run →
     Hash.keep d ≠ [] ∧
     Forall (λ k, ∃ style, k = Some style ∧ style ∈ STYLES) (Hash.keep d) ∧
     Hash.remove d ≠ []) ∧
  (∀ run icon d,
     Visual.processVisualDeduplication path_join ICON_DIR TEMP_DIR readdirSync
       renderSvgToPng visuallyCompare = Some run →
     (icon, d) ∈ Visual.report run →
     (∃ style, Visual.keep d = Some style ∧ style ∈ STYLES) ∧
     Visual.remove d ≠ []).
Proof.
  split; intros run icon d Hrun Hin.
  - destruct (hash_report_entry _ _ _ _ _ _ _ Hrun Hin)
      as (variants & hashes & _ & [_ Hsub] & Hh & Hnd & Hne & ->).
    apply hashVariants_keys in Hh as [_ Hk]. simpl.
    destruct (Hash.duplicateClusters hashes) as [|c clusters] eqn:Hcs; [done|].
    assert (∀ c', c' ∈ c :: clusters →
              1 < length c' ∧ NoDup c' ∧ c' ≠ [] ∧ c' ⊆ Js.keys hashes) as Hfacts.
    { intros c' Hc'. apply duplicate_cluster_facts; [done|]. by rewrite Hcs. }
    split_and!; [done| |].
    + apply Forall_fmap, Forall_forall. intros c' Hc'. simpl.
      destruct (Hfacts c' Hc') as (_ & _ & Hne' & Hsub').
      destruct (cluster_keep_elem c' Hne') as (k & -> & Hkin).
      exists k. split; [done|]. by apply Hsub, Hk, Hsub'.
    + destruct (Hfacts c ltac:(left)) as (Hlen & Hndc & Hnec & _).
      pose proof (cluster_remove_length c Hndc Hnec) as Hrem. simpl.
      destruct (cluster_remove c); [simpl in Hrem; lia|done].
  - destruct (visual_report_entry _ _ _ _ _ _ _ _ _ Hrun Hin)
      as (variants & pngPaths & vd & _ & [Hnd Hsub] & _ & Hvd & Hlen & ->).
    destruct (involved_two _ _ _ _ Hnd Hvd Hlen) as [Htwo Hinv]. simpl.
    assert (Visual.allInvolved vd ≠ []) as Hne.
    { intros Hnil. rewrite Hnil in Htwo. simpl in Htwo. lia. }
    split.
    + destruct (cluster_keep_elem _ Hne) as (k & -> & Hkin).
      exists k. split; [done|]. by apply Hsub, Hinv.
    + pose proof (cluster_remove_length _ (allInvolved_NoDup vd) Hne) as Hrem.
      destruct (cluster_remove (Visual.allInvolved vd)); [simpl in Hrem; lia|done].
Qed.

End RunProperties.

(** ** The choice of what to keep, in the reports *)

Lemma cluster_outlined_or_smallest cluster :
  cluster ≠ [] →
  outlined_or_smallest cluster (cluster_keep cluster) (cluster_remove cluster).
Proof.
  intros Hne. split_and!.
  - apply cluster_keep_outlined.
  - intros Hnin. by apply cluster_keep_smallest.
  - apply cluster_remove_perm.
Qed.

Lemma cluster_splits cluster :
  NoDup cluster → cluster ≠ [] →
  splits_cluster cluster (cluster_keep cluster) (cluster_remove cluster).
Proof.
  intros Hnd Hne. destruct (cluster_split cluster Hnd Hne) as (k & Hk & Hnin & _ & Hp).
  by exists k.
Qed.

Lemma Forall3_clusters (P : list string → option string → list string → Prop)
    (clusters : list (list string)) :
  (∀ c, c ∈ clusters → P c (cluster_keep c) (cluster_remove c)) →
  Forall3 P clusters (cluster_keep <$> clusters) (cluster_remove <$> clusters).
Proof.
  induction clusters as [|c clusters IH]; intros HP; simpl; constructor.
  - apply HP. left.
  - apply IH. intros c' Hc'. apply HP. by right.
Qed.

(** The kept styles and the removed styles of an entry are, together, the
    styles of its clusters. *)
Lemma hash_entry_perm clusters :
  (∀ c, c ∈ clusters → NoDup c ∧ c ≠ []) →
  ∃ kept, cluster_keep <$> clusters = Some <$> kept ∧
          kept ++ mjoin (cluster_remove <$> clusters) ≡ₚ mjoin clusters.
Proof.
  induction clusters as [|c clusters IH]; intros Hall.
  - by exists [].
  - destruct IH as (kept & Hk & Hp); [intros c' Hc'; apply Hall; by right|].
    destruct (Hall c ltac:(left)) as [Hnd Hne].
    destruct (cluster_split c Hnd Hne) as (k & Hkc & _ & _ & Hpc).
    exists (k :: kept). rewrite !fmap_cons, Hkc, Hk. split; [done|].
    cbn [mjoin list_join]. rewrite <-Hp.
    trans ((k :: cluster_remove c) ++ kept ++ mjoin (cluster_remove <$> clusters));
      [|by f_equiv].
    simpl. f_equiv. rewrite !app_assoc. f_equiv; [|done].
    apply Permutation_app_comm.
Qed.

Section Choice.
Variable path_join : list string → string.
Variable ICON_DIR TEMP_DIR : string.
Variable readdirSync : string → option (list string).
Variable getFileHash : string → option string.
Variable renderSvgToPng : string → string → option unit.
Variable visuallyCompare : string → string → option bool.

(** C1. In both deduplicators every duplicate cluster (which has two
    styles or more) keeps "outlined" when "outlined" is one of its styles
    and otherwise the smallest of its style names in the order of strings,
    and removes exactly its other styles.  In the hash report the entry of
    an icon lists the kept style of each of its clusters, in order, and
    the removals of its clusters one after another. *)
Theorem keep_outlined_or_smallest :
  (∀ run icon d,
     Hash.processIconGroups path_join ICON_DIR readdirSync getFileHash = Some run →
     (icon, d) ∈ Hash.report run →
     ∃ variants hashes removes,
       (icon, variants) ∈ groupIconsByName path_join ICON_DIR readdirSync ∧
       Hash.hashVariants getFileHash variants = Some hashes ∧
       Hash.remove d = mjoin removes ∧
       Forall (λ cluster, 2 ≤ length cluster) (Hash.duplicateClusters hashes) ∧
       Forall3 outlined_or_smallest
         (Hash.duplicateClusters hashes) (Hash.keep d) removes) ∧
  (∀ run icon d,
     Visual.processVisualDeduplication path_join ICON_DIR TEMP_DIR readdirSync
       renderSvgToPng visuallyCompare = Some run →
     (icon, d) ∈ Visual.report run →
     ∃ variants pngPaths visualDuplicates,
       (icon, variants) ∈ groupIconsByName path_join ICON_DIR readdirSync ∧
       Visual.renderAll path_join TEMP_DIR renderSvgToPng icon variants
         = Some pngPaths ∧
       Visual.compare_pairs visuallyCompare pngPaths variants []
         = Some visualDuplicates ∧
       2 ≤ length (Visual.allInvolved visualDuplicates) ∧
       outlined_or_smallest (Visual.allInvolved visualDuplicates)
         (Visual.keep d) (Visual.remove d)).
Proof.
  split; intros run icon d Hrun Hin.
  - destruct (hash_report_entry _ _ _ _ _ _ _ Hrun Hin)
      as (variants & hashes & Hg & _ & Hh & Hnd & _ & ->).
    exists variants, hashes, (cluster_remove <$> Hash.duplicateClusters hashes).
    split_and!; [done..| |].
    + apply Forall_forall. intros c Hc.
      by destruct (duplicate_cluster_facts _ _ Hnd Hc) as (? & _).
    + apply Forall3_clusters. intros c Hc.
      destruct (duplicate_cluster_facts _ _ Hnd Hc) as (_ & _ & Hne & _).
      by apply cluster_outlined_or_smallest.
  - destruct (visual_report_entry _ _ _ _ _ _ _ _ _ Hrun Hin)
      as (variants & pngPaths & vd & Hg & [Hnd _] & Hr & Hvd & Hlen & ->).
    destruct (involved_two _ _ _ _ Hnd Hvd Hlen) as [Htwo _].
    exists variants, pngPaths, vd. split_and!; [done..|].
    apply cluster_outlined_or_smallest. intros Hnil.
    rewrite Hnil in Htwo. simpl in Htwo. lia.
Qed.

(** C4. In every entry written by either deduplicator the kept style is
    not in the remove list, and the kept style together with the remove
    list is exactly the cluster: in the hash report, cluster by cluster
    and for the whole entry (no kept style of the entry is in its remove
    list, and the kept and removed styles are the styles of its clusters);
    in the visual report, the kept style and the removed styles are
    exactly the involved set, the styles that some judgment of the oracle
    found equal to another. *)
Theorem keep_and_remove_split_cluster :
  (∀ run icon d,
     Hash.processIconGroups path_join ICON_DIR readdirSync getFileHash = Some run →
     (icon, d) ∈ Hash.report run →
     ∃ variants hashes removes,
       (icon, variants) ∈ groupIconsByName path_join ICON_DIR readdirSync ∧
       Hash.hashVariants getFileHash variants = Some hashes ∧
       Hash.remove d = mjoin removes ∧
       Forall3 splits_cluster (Hash.duplicateClusters hashes) (Hash.keep d) removes ∧
       (∀ style, Some style ∈ Hash.keep d → style ∉ Hash.remove d) ∧
       (∀ style, Some style ∈ Hash.keep d ∨ style ∈ Hash.remove d ↔
                 ∃ cluster, cluster ∈ Hash.duplicateClusters hashes ∧ style ∈ cluster)) ∧
  (∀ run icon d,
     Visual.processVisualDeduplication path_join ICON_DIR TEMP_DIR readdirSync
       renderSvgToPng visuallyCompare = Some run →
     (icon, d) ∈ Visual.report run →
     ∃ variants pngPaths,
       (icon, variants) ∈ groupIconsByName path_join ICON_DIR readdirSync ∧
       Visual.renderAll path_join TEMP_DIR renderSvgToPng icon variants
         = Some pngPaths ∧
       ∃ kept, Visual.keep d = Some kept ∧ (kept ∉ Visual.remove d) ∧
         ∀ style, kept = style ∨ style ∈ Visual.remove d ↔
                  involved (Visual.judgment visuallyCompare pngPaths)
                           (Js.keys variants) style).
Proof.
  split; intros run icon d Hrun Hin.
  - destruct (hash_report_entry _ _ _ _ _ _ _ Hrun Hin)
      as (variants & hashes & Hg & _ & Hh & Hnd & _ & ->).
    exists variants, hashes, (cluster_remove <$> Hash.duplicateClusters hashes).
    assert (∀ c, c ∈ Hash.duplicateClusters hashes → NoDup c ∧ c ≠ []) as Hfacts.
    { intros c Hc. by destruct (duplicate_cluster_facts _ _ Hnd Hc) as (_ & ? & ? & _). }
    destruct (hash_entry_perm _ Hfacts) as (kept & Hkept & Hperm).
    pose proof (duplicateClusters_NoDup hashes Hnd) as Hnd'.
    rewrite <-Hperm in Hnd'. apply NoDup_app in Hnd' as (_ & Hdisj & _).
    simpl. split_and!; [done..| | |].
    + apply Forall3_clusters. intros c Hc. by apply cluster_splits; apply Hfacts.
    + intros style Hs. rewrite Hkept in Hs.
      apply list_elem_of_fmap in Hs as (s & [= ->] & Hs). by apply Hdisj.
    + intros style. rewrite Hkept, list_elem_of_fmap. split.
      * intros Hs.
        assert (style ∈ kept ++ mjoin (cluster_remove <$> Hash.duplicateClusters hashes))
          as Hin'.
        { apply elem_of_app. destruct Hs as [(s & [= ->] & Hs)|Hs]; auto. }
        rewrite Hperm in Hin'. apply list_elem_of_join in Hin' as (c & ? & ?).
        by exists c.
      * intros (c & Hc & Hs).
        assert (style ∈ mjoin (Hash.duplicateClusters hashes)) as Hin'.
        { apply list_elem_of_join. by exists c. }
        rewrite <-Hperm in Hin'. apply elem_of_app in Hin' as [?|?]; [|by right].
        left. by exists style.
  - destruct (visual_report_entry _ _ _ _ _ _ _ _ _ Hrun Hin)
      as (variants & pngPaths & vd & Hg & [Hnd _] & Hr & Hvd & Hlen & ->).
    destruct (involved_two _ _ _ _ Hnd Hvd Hlen) as [Htwo _].
    exists variants, pngPaths. split_and!; [done..|].
    assert (Visual.allInvolved vd ≠ []) as Hne.
    { intros Hnil. rewrite Hnil in Htwo. simpl in Htwo. lia. }
    destruct (cluster_split _ (allInvolved_NoDup vd) Hne) as (k & Hk & Hnin & Hiff & _).
    exists k. simpl. split_and!; [done..|].
    intros style. rewrite <-(allInvolved_involved _ _ _ _ _ Hvd), Hiff.
    split; (intros [?|?]; [by left|by right]).
Qed.

End Choice.

(** ** Judgments that chain *)

Lemma for_of_success {A S} (body : S → A → option S) st items st' x :
  Js.for_of body st items = Some st' → x ∈ items →
  ∃ s s', body s x = Some s'.
Proof.
  revert st. induction items as [|y items IH]; intros st.
  - by intros _ ?%elem_of_nil.
  - rewrite for_of_cons. destruct (body st y) as [st1|] eqn:Hy; simpl; [|done].
    intros Hrun [->|Hx]%elem_of_cons; [by eauto|]. by eapply IH.
Qed.

Section Chain.
Variable path_join : list string → string.
Variable ICON_DIR TEMP_DIR : string.
Variable readdirSync : string → option (list string).
Variable renderSvgToPng : string → string → option unit.
Variable visuallyCompare : string → string → option bool.

Local Abbreviation icon_entry :=
  (visual_icon_entry path_join TEMP_DIR renderSvgToPng visuallyCompare).

Lemma visual_entries_keys groups :
  Js.keys (omap icon_entry groups) `sublist_of` Js.keys groups.
Proof.
  unfold Js.keys. induction groups as [|[icon variants] groups IH]; simpl; [done|].
  destruct (icon_entry (icon, variants)) as [[icon' d]|] eqn:He; simpl.
  - assert (icon' = icon) as ->; [|by apply sublist_skip].
    unfold visual_icon_entry in He. simpl in He.
    case_bool_decide; [done|].
    destruct (Visual.renderAll _ _ _ _ _); simpl in He; [|done].
    destruct (Visual.compare_pairs _ _ _ _); simpl in He; [|done].
    case_bool_decide; by simplify_eq.
  - by apply sublist_cons.
Qed.

Lemma renderAll_three icon svgO svgF svgR pngPaths :
  Visual.renderAll path_join TEMP_DIR renderSvgToPng icon
    [("outlined", svgO); ("filled", svgF); ("round", svgR)] = Some pngPaths →
  pngPaths = [("outlined", pngPath path_join TEMP_DIR icon "outlined");
              ("filled", pngPath path_join TEMP_DIR icon "filled");
              ("round", pngPath path_join TEMP_DIR icon "round")].
Proof.
  unfold Visual.renderAll. rewrite !for_of_cons.
  destruct (renderSvgToPng svgO _); simpl; [|done].
  destruct (renderSvgToPng svgF _); simpl; [|done].
  destruct (renderSvgToPng svgR _); simpl; [|done].
  by intros [= <-].
Qed.

Lemma visual_process_icon_success st st' icon variants :
  2 ≤ length variants →
  Visual.process_icon path_join TEMP_DIR renderSvgToPng visuallyCompare st
    (icon, variants) = Some st' →
  ∃ pngPaths vd,
    Visual.renderAll path_join TEMP_DIR renderSvgToPng icon variants = Some pngPaths ∧
    Visual.compare_pairs visuallyCompare pngPaths variants [] = Some vd.
Proof.
  intros Hlen. unfold Visual.process_icon.
  rewrite bool_decide_eq_false_2 by lia.
  destruct (Visual.renderAll _ _ _ _ _) as [pngPaths|]; simpl; [|done].
  destruct (Visual.compare_pairs _ _ _ _) as [vd|] eqn:Hvd; simpl; [|done].
  intros _. by exists pngPaths, vd.
Qed.

(** C2. When, for an icon in the styles outlined, filled and round, the
    oracle finds outlined and filled equal, filled and round equal, and
    outlined and round not equal, the involved set is the three styles and
    the entry written for the icon keeps outlined and removes filled and
    round, although outlined and round were not judged equal. *)
Theorem chained_judgments_one_cluster run icon svgO svgF svgR :
  let variants := [("outlined", svgO); ("filled", svgF); ("round", svgR)] in
  let png := pngPath path_join TEMP_DIR icon in
  Visual.processVisualDeduplication path_join ICON_DIR TEMP_DIR readdirSync
    renderSvgToPng visuallyCompare = Some run →
  (icon, variants) ∈ groupIconsByName path_join ICON_DIR readdirSync →
  visuallyCompare (png "outlined") (png "filled") = Some true →
  visuallyCompare (png "filled") (png "round") = Some true →
  visuallyCompare (png "outlined") (png "round") = Some false →
  Js.get (Visual.report run) icon
    = Some {| Visual.keep := Some "outlined"; Visual.remove := ["filled"; "round"] |} ∧
  ∃ pngPaths,
    Visual.renderAll path_join TEMP_DIR renderSvgToPng icon variants = Some pngPaths ∧
    ¬ (("outlined", "round") ∈
         equal_pairs (Visual.judgment visuallyCompare pngPaths) (Js.keys variants)) ∧
    ∀ style, involved (Visual.judgment visuallyCompare pngPaths) (Js.keys variants) style
             ↔ style ∈ ["outlined"; "filled"; "round"].
Proof.
  intros variants png Hrun Hg Hof Hfr Hor.
  destruct (for_of_success _ _ _ _ _ Hrun Hg) as (s & s' & Hstep).
  apply visual_process_icon_success in Hstep as (pngPaths & vd & Hrender & Hvd);
    [|simpl; lia].
  pose proof (renderAll_three _ _ _ _ _ Hrender) as Hpaths.
  assert (equal_pairs (Visual.judgment visuallyCompare pngPaths) (Js.keys variants)
          = [("outlined", "filled"); ("filled", "round")]) as Hpairs.
  { rewrite Hpaths. unfold equal_pairs, Visual.judgment. simpl.
    rewrite !filter_cons. simpl. fold png. rewrite Hof, Hfr, Hor. done. }
  pose proof (compare_pairs_spec _ _ _ _ _ Hvd) as Hvd'.
  rewrite Hpairs in Hvd'. vm_compute in Hvd'.
  assert (icon_entry (icon, variants)
          = Some (icon, {| Visual.keep := Some "outlined";
                          Visual.remove := ["filled"; "round"] |})) as Hentry.
  { unfold visual_icon_entry. rewrite bool_decide_eq_false_2 by (simpl; lia).
    cbn [fst snd]. rewrite Hrender. cbn [mbind option_bind]. rewrite Hvd.
    cbn [mbind option_bind]. rewrite Hvd'. done. }
  split.
  - apply visual_processGroups_spec in Hrun as (Hrep & _); [|apply wf_groupIconsByName].
    apply elem_get.
    + rewrite Hrep. eapply sublist_NoDup; [|apply visual_entries_keys].
      apply wf_groupIconsByName.
    + rewrite Hrep. apply list_elem_of_omap. by exists (icon, variants).
  - exists pngPaths. split; [done|]. rewrite Hpairs. split.
    + intros Hin. repeat (apply elem_of_cons in Hin as [[=]|Hin]).
      by apply elem_of_nil in Hin.
    + intros style. unfold involved. rewrite Hpairs.
      split.
      * intros (t & [Hin|Hin]);
          repeat (apply elem_of_cons in Hin as [[= -> ->]|Hin]);
          try (by apply elem_of_nil in Hin);
          apply (bool_decide_unpack _); vm_compute; exact I.
      * intros Hin. repeat (apply elem_of_cons in Hin as [->|Hin]).
        -- exists "filled". left. left.
        -- exists "round". left. right. left.
        -- exists "filled". right. right. left.
        -- by apply elem_of_nil in Hin.
Qed.

End Chain.

(** ** The shape of the hash report on disk *)

Lemma get_fmap {V W} (f : V → W) (o : Js.obj V) k :
  Js.get ((λ e, (e.1, f e.2)) <$> o) k = f <$> Js.get o k.
Proof.
  induction o as [|[k' v] o IH]; simpl; [done|]. by case_decide.
Qed.

Lemma clusters_kept clusters :
  (∀ c, c ∈ clusters → NoDup c ∧ c ≠ []) →
  ∃ kept, cluster_keep <$> clusters = Some <$> kept ∧
          Forall3 (λ c k r, splits_cluster c (Some k) r)
                  clusters kept (cluster_remove <$> clusters).
Proof.
  induction clusters as [|c clusters IH]; intros Hall.
  - exists []. split; [done|constructor].
  - destruct IH as (kept & Hk & HF); [intros c' Hc'; apply Hall; by right|].
    destruct (Hall c ltac:(left)) as [Hnd Hne].
    destruct (cluster_split c Hnd Hne) as (k & Hkc & Hnin & _ & Hp).
    exists (k :: kept). rewrite !fmap_cons, Hkc, Hk. split; [done|].
    constructor; [|done]. by exists k.
Qed.

Section DiskShape.
Variable path_join : list string → string.
Variable ICON_DIR : string.
Variable readdirSync : string → option (list string).
Variable getFileHash : string → option string.

(** C3, as the program has it.  In the report the hash deduplicator writes,
    an icon with duplicate clusters, however many, is a single object: its
    keep array holds the kept style of each cluster, in the order of the
    clusters, and its remove array holds the removals of the clusters one
    after another.  The entry is never an array, and the hash deleter
    takes it as a list of one group. *)
Theorem hash_report_entry_is_one_object run icon entry :
  Hash.processIconGroups path_join ICON_DIR readdirSync getFileHash = Some run →
  Js.field (Hash.report_json (Hash.report run)) icon = Some entry →
  ∃ variants hashes kept removes,
    (icon, variants) ∈ groupIconsByName path_join ICON_DIR readdirSync ∧
    Hash.hashVariants getFileHash variants = Some hashes ∧
    Forall3 (λ cluster k remove, splits_cluster cluster (Some k) remove)
            (Hash.duplicateClusters hashes) kept removes ∧
    entry = Js.JObject [("keep", Js.JArray (Js.JString <$> kept));
                        ("remove", Js.JArray (Js.JString <$> mjoin removes))] ∧
    (∀ items, entry ≠ Js.JArray items) ∧
    Deleter.groups_of entry = [entry].
Proof.
  intros Hrun Hfield. unfold Hash.report_json, Js.field in Hfield.
  rewrite get_fmap in Hfield.
  destruct (Js.get (Hash.report run) icon) as [d|] eqn:Hget; simplify_eq/=.
  apply get_Some_elem in Hget.
  destruct (hash_report_entry _ _ _ _ _ _ _ Hrun Hget)
    as (variants & hashes & Hg & _ & Hh & Hnd & _ & ->).
  destruct (clusters_kept (Hash.duplicateClusters hashes)) as (kept & Hk & HF).
  { intros c Hc. by destruct (duplicate_cluster_facts _ _ Hnd Hc) as (_ & ? & ? & _). }
  exists variants, hashes, kept, (cluster_remove <$> Hash.duplicateClusters hashes).
  split_and!; [done..| |done|done].
  unfold Hash.entry_json. simpl. rewrite Hk, <-list_fmap_compose. done.
Qed.

End DiskShape.
(** ** The deleters *)

Lemma for_of_app {A S} (body : S → A → option S) st l1 l2 :
  Js.for_of body st (l1 ++ l2) = st' ← Js.for_of body st l1; Js.for_of body st' l2.
Proof.
  revert st. induction l1 as [|x l1 IH]; intros st; [done|].
  rewrite <-app_comm_cons, !for_of_cons.
  destruct (body st x) as [st1|]; simpl; [apply IH|done].
Qed.

Lemma for_of_fold {A B S} (decode : A → option (list B)) (step : S → B → option S)
    (body : S → A → option S) :
  (∀ st x, body st x = ys ← decode x; Js.for_of step st ys) →
  ∀ st items,
    Js.for_of body st items
    = yss ← mapM decode items; Js.for_of step st (mjoin yss).
Proof.
  intros Hbody st items. revert st.
  induction items as [|x items IH]; intros st; [done|].
  rewrite for_of_cons, Hbody. cbn [mapM].
  destruct (decode x) as [ys|]; simpl; [|done].
  destruct (Js.for_of step st ys) as [st1|] eqn:Hys; simpl.
  - rewrite IH. destruct (mapM decode items) as [yss|]; simpl; [|done].
    by rewrite for_of_app, Hys.
  - destruct (mapM decode items) as [yss|]; simpl; [|done].
    by rewrite for_of_app, Hys.
Qed.

Lemma for_of_each {A B S} (decode : A → option B) (step : S → B → option S)
    st items :
  Js.for_of (λ st x, y ← decode x; step st y) st items
  = ys ← mapM decode items; Js.for_of step st ys.
Proof.
  revert st. induction items as [|x items IH]; intros st; [done|].
  rewrite for_of_cons. cbn [mapM].
  destruct (decode x) as [y|]; simpl; [|done].
  destruct (step st y) as [st1|] eqn:Hy; simpl.
  - rewrite IH. destruct (mapM decode items) as [ys|]; simpl; [|done].
    by rewrite Hy.
  - destruct (mapM decode items) as [ys|]; simpl; [|done].
    by rewrite Hy.
Qed.

Section DeleterFacts.
Variable path_join : list string → string.
Variable ICON_DIR : string.
Variable JSON_parse : string → option Js.json.

Local Abbreviation delete_group := (Deleter.delete_group path_join ICON_DIR).

Lemma delete_group_targets iconName st group :
  delete_group iconName st group
  = paths ← group_targets path_join ICON_DIR iconName group;
    Js.for_of Deleter.unlink_if_exists st paths.
Proof.
  unfold Deleter.delete_group, group_targets.
  destruct (Deleter.removals group) as [remove|]; simpl; [|done].
  apply for_of_each.
Qed.

Lemma deleteByHashReport_targets fs report :
  Deleter.deleteByHashReport path_join ICON_DIR fs report
  = paths ← hash_report_targets path_join ICON_DIR report;
    Js.for_of Deleter.unlink_if_exists (Deleter.start fs) paths.
Proof.
  unfold Deleter.deleteByHashReport, hash_report_targets.
  destruct (Deleter.entries report) as [items|]; simpl; [|done].
  rewrite (for_of_fold (hash_entry_targets path_join ICON_DIR)
             Deleter.unlink_if_exists).
  - by destruct (mapM _ items).
  - intros st [iconName entry]. unfold hash_entry_targets. simpl.
    rewrite (for_of_fold (group_targets path_join ICON_DIR iconName)
               Deleter.unlink_if_exists).
    + by destruct (mapM _ (Deleter.groups_of entry)).
    + intros st' group. apply delete_group_targets.
Qed.

Lemma deleteByVisualReport_targets fs report :
  Deleter.deleteByVisualReport path_join ICON_DIR fs report
  = paths ← visual_report_targets path_join ICON_DIR report;
    Js.for_of Deleter.unlink_if_exists (Deleter.start fs) paths.
Proof.
  unfold Deleter.deleteByVisualReport, visual_report_targets.
  destruct (Deleter.entries report) as [items|]; simpl; [|done].
  rewrite (for_of_fold (λ item, group_targets path_join ICON_DIR item.1 item.2)
             Deleter.unlink_if_exists).
  - by destruct (mapM _ items).
  - intros st [iconName data]. apply delete_group_targets.
Qed.

Lemma unlink_absent st filePath :
  Deleter.files st !! filePath = None →
  Deleter.unlink_if_exists st filePath = Some st.
Proof. intros Hnone. unfold Deleter.unlink_if_exists. by rewrite Hnone. Qed.

Lemma files_unlink st st' filePath :
  Deleter.unlink_if_exists st filePath = Some st' →
  Deleter.files st' = delete filePath (Deleter.files st).
Proof.
  unfold Deleter.unlink_if_exists.
  destruct (Deleter.files st !! filePath) as [[text|]|] eqn:Hf; [| |].
  - by intros [= <-].
  - done.
  - intros [= <-]. symmetry. by apply delete_id.
Qed.

Lemma files_unlink_all paths st st' p :
  Js.for_of Deleter.unlink_if_exists st paths = Some st' →
  Deleter.files st' !! p
  = if decide (p ∈ paths) then None else Deleter.files st !! p.
Proof.
  revert st. induction paths as [|q paths IH]; intros st.
  - simpl. by intros [= <-].
  - rewrite for_of_cons.
    destruct (Deleter.unlink_if_exists st q) as [st1|] eqn:Hq; simpl; [|done].
    intros Hrun. rewrite (IH _ Hrun), (files_unlink _ _ _ Hq).
    destruct (decide (p ∈ paths)) as [Hin'|Hnin'].
    + rewrite decide_True; [done|by right].
    + destruct (decide (p = q)) as [->|Hne].
      * rewrite lookup_delete_eq, decide_True; [done|left].
      * rewrite lookup_delete_ne by done. rewrite decide_False; [done|].
        by intros [?|?]%elem_of_cons.
Qed.

Lemma unlink_all_absent paths st :
  (∀ p, p ∈ paths → Deleter.files st !! p = None) →
  Js.for_of Deleter.unlink_if_exists st paths = Some st.
Proof.
  induction paths as [|q paths IH]; intros Habs; [done|].
  rewrite for_of_cons, unlink_absent by (apply Habs; left). simpl.
  apply IH. intros p Hp. apply Habs. by right.
Qed.

(** Running the deletion loops again on what they left deletes nothing. *)
Lemma unlink_all_again paths fs st :
  Js.for_of Deleter.unlink_if_exists (Deleter.start fs) paths = Some st →
  Js.for_of Deleter.unlink_if_exists (Deleter.start (Deleter.files st)) paths
  = Some (Deleter.start (Deleter.files st)).
Proof.
  intros Hrun. apply unlink_all_absent. intros p Hp. simpl.
  by rewrite (files_unlink_all _ _ _ _ Hrun), decide_True.
Qed.

(** The loops end when no target is a directory. *)
Lemma unlink_all_files paths st :
  (∀ p, p ∈ paths → Deleter.files st !! p ≠ Some Deleter.Directory) →
  is_Some (Js.for_of Deleter.unlink_if_exists st paths).
Proof.
  revert st. induction paths as [|q paths IH]; intros st Hfiles; [done|].
  rewrite for_of_cons.
  destruct (Deleter.unlink_if_exists st q) as [st1|] eqn:Hq; simpl.
  - apply IH. intros p Hp. rewrite (files_unlink _ _ _ Hq).
    destruct (decide (p = q)) as [->|Hne].
    + by rewrite lookup_delete_eq.
    + rewrite lookup_delete_ne by done. apply Hfiles. by right.
  - exfalso. unfold Deleter.unlink_if_exists in Hq.
    destruct (Deleter.files st !! q) as [[text|]|] eqn:Hf; [done| |done].
    by apply (Hfiles q); [left|].
Qed.

(** C8. When the report file does not exist, each deleter prints the
    missing path and returns: no file is deleted, the file system is the
    one it started with. *)
Theorem missing_report_deletes_nothing fs reportPath :
  fs !! reportPath = None →
  Deleter.deleteFilesByHashReport path_join ICON_DIR JSON_parse fs reportPath
    = Some (fs, [Deleter.ReportNotFound reportPath]) ∧
  Deleter.deleteFilesByVisualReport path_join ICON_DIR JSON_parse fs reportPath
    = Some (fs, [Deleter.ReportNotFound reportPath]).
Proof.
  intros Hnone.
  unfold Deleter.deleteFilesByHashReport, Deleter.deleteFilesByVisualReport.
  by rewrite Hnone.
Qed.

(** C9. A removal whose target file is already absent is skipped: the loop
    body returns without throwing and leaves the files, the counter and
    the printed lines as they were.  So running a deleter again on the
    file system it left does not throw, deletes nothing and counts
    nothing: it prints a total of 0 (or that the report is missing, when
    the report was one of its own targets). *)
Theorem absent_target_is_skipped :
  (∀ iconName st style,
     Deleter.files st !! path_join [ICON_DIR; style; iconName +:+ ".svg"] = None →
     Deleter.delete_style path_join ICON_DIR iconName st (Js.JString style)
       = Some st) ∧
  (∀ fs reportPath fs' log,
     Deleter.deleteFilesByHashReport path_join ICON_DIR JSON_parse fs reportPath
       = Some (fs', log) →
     ∃ log',
       Deleter.deleteFilesByHashReport path_join ICON_DIR JSON_parse fs' reportPath
         = Some (fs', log') ∧
       (log' = [Deleter.TotalDeleted 0] ∨ log' = [Deleter.ReportNotFound reportPath])) ∧
  (∀ fs reportPath fs' log,
     Deleter.deleteFilesByVisualReport path_join ICON_DIR JSON_parse fs reportPath
       = Some (fs', log) →
     ∃ log',
       Deleter.deleteFilesByVisualReport path_join ICON_DIR JSON_parse fs' reportPath
         = Some (fs', log') ∧
       (log' = [Deleter.TotalDeleted 0] ∨ log' = [Deleter.ReportNotFound reportPath])).
Proof.
  split_and!.
  - intros iconName st style Habs. unfold Deleter.delete_style. simpl.
    by apply unlink_absent.
  - intros fs reportPath fs' log.
    unfold Deleter.deleteFilesByHashReport at 1.
    destruct (fs !! reportPath) as [entry|] eqn:Hentry.
    + destruct (Deleter.readFileSync entry) as [text|] eqn:Htext; simpl; [|done].
      destruct (JSON_parse text) as [report|] eqn:Hparse; simpl; [|done].
      rewrite deleteByHashReport_targets.
      destruct (hash_report_targets _ _ report) as [paths|] eqn:Hpaths; simpl; [|done].
      destruct (Js.for_of _ _ paths) as [st|] eqn:Hrun; simpl; [|done].
      intros [= <- <-]. unfold Deleter.deleteFilesByHashReport.
      rewrite (files_unlink_all _ _ _ _ Hrun). case_decide.
      * eexists. split; [done|by right].
      * cbn [Deleter.files Deleter.start]. rewrite Hentry, Htext. simpl.
        rewrite Hparse. simpl.
        rewrite deleteByHashReport_targets, Hpaths. simpl.
        rewrite (unlink_all_again _ _ _ Hrun). simpl.
        eexists. split; [done|by left].
    + intros [= <- <-]. unfold Deleter.deleteFilesByHashReport. rewrite Hentry.
      eexists. split; [done|by right].
  - intros fs reportPath fs' log.
    unfold Deleter.deleteFilesByVisualReport at 1.
    destruct (fs !! reportPath) as [entry|] eqn:Hentry.
    + destruct (Deleter.readFileSync entry) as [text|] eqn:Htext; simpl; [|done].
      destruct (JSON_parse text) as [report|] eqn:Hparse; simpl; [|done].
      rewrite deleteByVisualReport_targets.
      destruct (visual_report_targets _ _ report) as [paths|] eqn:Hpaths; simpl; [|done].
      destruct (Js.for_of _ _ paths) as [st|] eqn:Hrun; simpl; [|done].
      intros [= <- <-]. unfold Deleter.deleteFilesByVisualReport.
      rewrite (files_unlink_all _ _ _ _ Hrun). case_decide.
      * eexists. split; [done|by right].
      * cbn [Deleter.files Deleter.start]. rewrite Hentry, Htext. simpl.
        rewrite Hparse. simpl.
        rewrite deleteByVisualReport_targets, Hpaths. simpl.
        rewrite (unlink_all_again _ _ _ Hrun). simpl.
        eexists. split; [done|by left].
    + intros [= <- <-]. unfold Deleter.deleteFilesByVisualReport. rewrite Hentry.
      eexists. split; [done|by right].
Qed.

End DeleterFacts.

(** ** The marker *)

Lemma prefix_refl s : String.prefix s s = true.
Proof.
  induction s as [|c s IH]; simpl; [done|].
  by destruct (Ascii.ascii_dec c c).
Qed.

Lemma str_includes_eq s pattern :
  Js.str_includes s pattern
  = String.prefix pattern s ||
    match s with
    | EmptyString => false
    | String _ s' => Js.str_includes s' pattern
    end.
Proof. by destruct s. Qed.

Lemma str_includes_refl s : Js.str_includes s s = true.
Proof. by rewrite str_includes_eq, prefix_refl. Qed.

Lemma str_includes_app a b pattern :
  Js.str_includes b pattern = true → Js.str_includes (a +:+ b) pattern = true.
Proof.
  intros Hb. induction a as [|c a IH]; [done|].
  change (String c a +:+ b) with (String c (a +:+ b)).
  rewrite str_includes_eq, IH. apply orb_true_r.
Qed.

Lemma marked_name_has_warning variant :
  Js.str_includes
    (Marker.variant_name (Marker.markVariantForDeletion variant).1)
    Marker.WARNING = true.
Proof.
  unfold Marker.markVariantForDeletion.
  destruct (Js.str_includes (Marker.variant_name variant) Marker.WARNING) eqn:Hinc;
    destruct (Marker.sealed variant); simpl; try done.
  - do 2 apply str_includes_app. apply str_includes_refl.
  - do 2 apply str_includes_app. apply str_includes_refl.
Qed.

Lemma visit_variant_spec report iconName child done n out n' :
  Marker.visit_variant report iconName (done, n) child = Some (out, n') →
  ∃ child', out = done ++ [child'] ∧ variant_after report iconName child child'.
Proof.
  unfold Marker.visit_variant, variant_after.
  destruct (decide (Marker.variant_type child = "COMPONENT")) as [Hc|Hc].
  - destruct (Marker.shouldMark report iconName _) as [[r|]|]; simpl; [| |done].
    + destruct (Marker.markVariantForDeletion child) as [marked ok].
      intros [= <- <-]. by exists marked.
    + intros [= <- <-]. by exists child.
  - intros [= <- <-]. by exists child.
Qed.

Lemma visit_variants_spec report iconName kids done n out n' :
  Js.for_of (Marker.visit_variant report iconName) (done, n) kids = Some (out, n') →
  ∃ kids', out = done ++ kids' ∧ Forall2 (variant_after report iconName) kids kids'.
Proof.
  revert done n. induction kids as [|child kids IH]; intros done n.
  - simpl. intros [= <- <-]. exists []. by rewrite app_nil_r.
  - rewrite for_of_cons.
    destruct (Marker.visit_variant report iconName (done, n) child)
      as [[done1 n1]|] eqn:Hstep; simpl; [|done].
    apply visit_variant_spec in Hstep as (child' & -> & Hchild).
    intros (kids' & -> & HF)%IH. exists (child' :: kids').
    rewrite <-app_assoc. split; [done|]. by constructor.
Qed.

Lemma visit_node_spec report node done n out n' :
  Marker.visit_node report (done, n) node = Some (out, n') →
  ∃ node', out = done ++ [node'] ∧ node_after report node node'.
Proof.
  unfold Marker.visit_node, node_after.
  destruct (decide (Marker.node_type node = "COMPONENT_SET")) as [Hc|Hc].
  - destruct (Js.for_of _ _ (Marker.children node)) as [[kids count]|] eqn:Hkids;
      simpl; [|done].
    apply visit_variants_spec in Hkids as (kids' & -> & HF).
    intros [= <- <-]. eexists. split; [done|]. by simpl.
  - intros [= <- <-]. by exists node.
Qed.

Lemma visit_nodes_spec report page done n out n' :
  Js.for_of (Marker.visit_node report) (done, n) page = Some (out, n') →
  ∃ page', out = done ++ page' ∧ Forall2 (node_after report) page page'.
Proof.
  revert done n. induction page as [|node page IH]; intros done n.
  - simpl. intros [= <- <-]. exists []. by rewrite app_nil_r.
  - rewrite for_of_cons.
    destruct (Marker.visit_node report (done, n) node)
      as [[done1 n1]|] eqn:Hstep; simpl; [|done].
    apply visit_node_spec in Hstep as (node' & -> & Hnode).
    intros (page' & -> & HF)%IH. exists (node' :: page').
    rewrite <-app_assoc. split; [done|]. by constructor.
Qed.

Lemma lower_all_strings styles :
  Marker.lower_all (Js.JString <$> styles) = Some (Js.toLowerCase <$> styles).
Proof.
  unfold Marker.lower_all. induction styles as [|s styles IH]; [done|].
  rewrite fmap_cons. cbn [mapM]. rewrite IH. done.
Qed.

Lemma report_remove_written report iconName :
  written_report report → is_Some (Marker.report_remove report iconName).
Proof.
  intros [[r ->]|[r ->]]; unfold Marker.report_remove; simpl; rewrite get_fmap.
  - destruct (Js.get r iconName) as [d|]; simpl; [|done].
    unfold Marker.entry_remove. simpl. by rewrite lower_all_strings.
  - destruct (Js.get r iconName) as [d|]; simpl; [|done].
    unfold Marker.entry_remove, Visual.entry_json.
    destruct (Visual.keep d); simpl; by rewrite lower_all_strings.
Qed.

Lemma shouldMark_written report iconName styleName :
  written_report report → is_Some (Marker.shouldMark report iconName styleName).
Proof.
  intros Hw. unfold Marker.shouldMark. case_decide; [done|].
  by destruct (report_remove_written report iconName Hw) as [remove ->].
Qed.

Lemma visit_variants_written report iconName kids acc :
  written_report report →
  is_Some (Js.for_of (Marker.visit_variant report iconName) acc kids).
Proof.
  intros Hw. revert acc.
  induction kids as [|child kids IH]; intros [seen n]; [done|].
  rewrite for_of_cons.
  assert (is_Some (Marker.visit_variant report iconName (seen, n) child)) as [acc' ->].
  { unfold Marker.visit_variant. case_decide; [|done].
    destruct (shouldMark_written report iconName
                (Marker.extractStyleFromVariantName (Marker.variant_name child)) Hw)
      as [[r|] ->]; simpl; [|done].
    by destruct (Marker.markVariantForDeletion child). }
  apply IH.
Qed.

Lemma visit_nodes_written report page acc :
  written_report report → is_Some (Js.for_of (Marker.visit_node report) acc page).
Proof.
  intros Hw. revert acc.
  induction page as [|node page IH]; intros [seen n]; [done|].
  rewrite for_of_cons.
  assert (is_Some (Marker.visit_node report (seen, n) node)) as [acc' ->].
  { unfold Marker.visit_node. case_decide; [|done].
    by destruct (visit_variants_written report
                (Marker.normalizeName (Marker.node_name node))
                (Marker.children node) ([], n) Hw) as [[kids count] ->]. }
  apply IH.
Qed.

(** C7. The marker flags every variant whose extracted style is the
    two-tone label, whatever the report holds: the test of a variant marks
    it as two-tone for every report and every icon name; when the handler
    has loaded a report and ended, every component of every component set
    whose extracted style is "twotone" is the one [markVariantForDeletion]
    returns, with the warning sign in its name; and the handler does end
    on every report written by one of the two deduplicators. *)
Theorem two_tone_always_marked :
  (∀ report iconName,
     Marker.shouldMark report iconName "twotone"
     = Some (Some Marker.TwoToneStyle)) ∧
  (∀ JSON_parse msg page page' count i j node variant,
     Marker.onmessage JSON_parse msg page = Some (page', Some count) →
     page !! i = Some node →
     Marker.node_type node = "COMPONENT_SET" →
     Marker.children node !! j = Some variant →
     Marker.variant_type variant = "COMPONENT" →
     Marker.extractStyleFromVariantName (Marker.variant_name variant) = "twotone" →
     ∃ node' variant',
       page' !! i = Some node' ∧
       Marker.children node' !! j = Some variant' ∧
       variant' = (Marker.markVariantForDeletion variant).1 ∧
       Js.str_includes (Marker.variant_name variant') Marker.WARNING = true) ∧
  (∀ JSON_parse msg page report,
     Marker.msg_type msg = "load-json" →
     JSON_parse (Marker.msg_content msg) = Some report →
     written_report report →
     ∃ page' count, Marker.onmessage JSON_parse msg page = Some (page', Some count)).
Proof.
  split_and!; [done| |].
  2: { intros JSON_parse msg page report Htype Hparse Hw.
       unfold Marker.onmessage. rewrite decide_True, Hparse by done. simpl.
       destruct (visit_nodes_written report page ([], 0) Hw) as [[nodes n] ->].
       by exists nodes, n. }
  intros JSON_parse msg page page' count i j node variant Hrun Hi Hset Hj Hcomp Hstyle.
  unfold Marker.onmessage in Hrun. case_decide; [|done].
  destruct (JSON_parse _) as [report|]; simpl in Hrun; [|done].
  destruct (Js.for_of _ _ page) as [[nodes markedCount]|] eqn:Hpage;
    simpl in Hrun; [|done].
  injection Hrun as <- <-.
  apply visit_nodes_spec in Hpage as (page'' & -> & HF). simpl.
  destruct (Forall2_lookup_l _ _ _ _ _ HF Hi) as (node' & Hi' & Hnode).
  unfold node_after in Hnode. rewrite decide_True in Hnode by done.
  destruct Hnode as (_ & _ & HFkids).
  destruct (Forall2_lookup_l _ _ _ _ _ HFkids Hj) as (variant' & Hj' & Hvar).
  unfold variant_after in Hvar. rewrite decide_True, Hstyle in Hvar by done.
  change (Marker.shouldMark report _ "twotone") with (Some (Some Marker.TwoToneStyle))
    in Hvar.
  exists node', variant'. split_and!; [done..|].
  rewrite Hvar. apply marked_name_has_warning.
Qed.

(** ** The grouper and an icon named after the accessor [__proto__] *)

(** C6. The outlined directory holds the two files [__proto__.svg] and
    [outlined.svg], and the two listings below are listings of these same
    files.  Listed with [__proto__.svg] first, the grouper throws: the path
    of [__proto__.svg] is written on [Object.prototype] under [outlined],
    [groups["outlined"]] is then that string, and the assignment of a
    property to it is a [TypeError].  Listed with [outlined.svg] first, the
    grouper returns a Group mapping, with the one icon [outlined]. *)
Theorem groupIconsByName_proto_listing_order :
  same_files PrototypeExample.readdirSync PrototypeExample.readdirSync' ∧
  Runtime.groupIconsByName Example.path_join "icons"
    PrototypeExample.existsSync PrototypeExample.readdirSync = None ∧
  Runtime.groupIconsByName Example.path_join "icons"
    PrototypeExample.existsSync PrototypeExample.readdirSync'
  = Some [("outlined", [("outlined", "icons/outlined/outlined.svg")])].
Proof.
  split; [|split; vm_compute; reflexivity].
  intros dir. unfold PrototypeExample.readdirSync, PrototypeExample.readdirSync'.
  case_decide; constructor. apply (bool_decide_unpack _). vm_compute. exact I.
Qed.

(** * Part III: further properties of the programs *)

(** ** The grouper: what is in the Group mapping *)

Lemma str_length_app a b :
  String.length (a +:+ b) = String.length a + String.length b.
Proof.
  induction a as [|c a IH]; [done|].
  change (String c a +:+ b) with (String c (a +:+ b)). simpl. by rewrite IH.
Qed.

Lemma strip_suffix_app name ext :
  Js.strip_suffix (name +:+ ext) ext = Some name.
Proof.
  induction name as [|c name IH]; rewrite strip_suffix_eq.
  - change ("" +:+ ext) with ext. by rewrite String.eqb_refl.
  - change (String c name +:+ ext) with (String c (name +:+ ext)).
    destruct (String.eqb_spec (String c (name +:+ ext)) ext) as [Heq|_].
    + exfalso. apply (f_equal String.length) in Heq. simpl in Heq.
      rewrite str_length_app in Heq. lia.
    + by rewrite IH.
Qed.

(** X1. Stripping the extension and putting it back are inverse: a name
    followed by the extension ends with it and has that name as base name,
    and an entry that ends with the extension is its base name followed by
    the extension. *)
Theorem basename_round_trip :
  (∀ name ext,
     Js.endsWith (name +:+ ext) ext = true ∧
     Js.basename (name +:+ ext) ext = name) ∧
  (∀ file ext,
     Js.endsWith file ext = true → Js.basename file ext +:+ ext = file).
Proof.
  split.
  - intros name ext. unfold Js.endsWith, Js.basename.
    rewrite strip_suffix_app. split; [|done].
    apply bool_decide_eq_true. by eexists.
  - intros file ext Hends. symmetry. by apply endsWith_basename.
Qed.

Lemma group_path_content groups iconName style :
  group_path groups iconName style
  = (m ← content2 groups !! iconName; m !! style).
Proof.
  unfold group_path, content2. rewrite lookup_fmap, get_content.
  destruct (content groups !! iconName); simpl; [apply get_content|done].
Qed.

Lemma lookup_group_insert i s p (m : gmap string (gmap string string)) iconName style :
  (m' ← group_insert i s p m !! iconName; m' !! style)
  = if decide (i = iconName ∧ s = style) then Some p
    else (m' ← m !! iconName; m' !! style).
Proof.
  unfold group_insert. destruct (decide (i = iconName)) as [->|Hi].
  - rewrite lookup_insert_eq. simpl. destruct (decide (s = style)) as [->|Hs].
    + rewrite lookup_insert_eq. by rewrite decide_True.
    + rewrite lookup_insert_ne by done. rewrite decide_False by (intros [_ ?]; done).
      by destruct (m !! iconName).
  - rewrite lookup_insert_ne by done. by rewrite decide_False by (intros [? _]; done).
Qed.

Section GrouperLookup.
Variable path_join : list string → string.
Variable ICON_DIR : string.
Variable readdirSync : string → option (list string).

Lemma group_file_path dir s groups file iconName style :
  group_path (group_file path_join dir s groups file) iconName style
  = if decide (s = style ∧ file = iconName +:+ ".svg")
    then Some (path_join [dir; file])
    else group_path groups iconName style.
Proof.
  rewrite !group_path_content, content2_group_file.
  destruct (Js.endsWith file ".svg") eqn:Hends.
  - rewrite lookup_group_insert.
    destruct (decide (Js.basename file ".svg" = iconName ∧ s = style)) as [[Hb Hs]|Hn].
    + rewrite decide_True; [done|]. split; [done|].
      rewrite <-Hb. by apply endsWith_basename.
    + rewrite decide_False; [done|]. intros [Hs ->]. apply Hn. split; [|done].
      unfold Js.basename. by rewrite strip_suffix_app.
  - rewrite decide_False; [done|]. intros [_ ->].
    unfold Js.endsWith in Hends. rewrite strip_suffix_app in Hends.
    apply bool_decide_eq_false in Hends. apply Hends. by eexists.
Qed.

Lemma foldl_group_file_path dir s files groups iconName style :
  group_path (foldl (group_file path_join dir s) groups files) iconName style
  = if decide (s = style ∧ iconName +:+ ".svg" ∈ files)
    then Some (path_join [dir; iconName +:+ ".svg"])
    else group_path groups iconName style.
Proof.
  revert groups. induction files as [|file files IH]; intros groups; simpl.
  - rewrite decide_False; [done|]. intros [_ ?%elem_of_nil]. done.
  - rewrite IH, group_file_path.
    destruct (decide (s = style ∧ iconName +:+ ".svg" ∈ files)) as [[Hs Hin]|Hn].
    + rewrite decide_True; [done|]. split; [done|by right].
    + destruct (decide (s = style ∧ file = iconName +:+ ".svg")) as [[Hs ->]|Hn'].
      * rewrite decide_True; [done|]. split; [done|left].
      * rewrite decide_False; [done|]. intros [Hs [<-|Hin]%elem_of_cons].
        -- by apply Hn'.
        -- by apply Hn.
Qed.

Local Abbreviation listed_path := (listed_path path_join ICON_DIR readdirSync).

Lemma group_style_path groups s iconName style :
  group_path (group_style path_join ICON_DIR readdirSync groups s) iconName style
  = match (if decide (s = style) then listed_path iconName style else None) with
    | Some p => Some p
    | None => group_path groups iconName style
    end.
Proof.
  unfold group_style, listed_path.
  destruct (decide (s = style)) as [->|Hs].
  - destruct (readdirSync _) as [files|]; simpl; [|done].
    rewrite foldl_group_file_path.
    destruct (decide (iconName +:+ ".svg" ∈ files)).
    + by rewrite decide_True.
    + by rewrite decide_False by (intros [_ ?]; done).
  - destruct (readdirSync _) as [files|]; simpl; [|done].
    rewrite foldl_group_file_path. by rewrite decide_False by (intros [? _]; done).
Qed.

Lemma foldl_group_style_path styles groups iconName style :
  group_path (foldl (group_style path_join ICON_DIR readdirSync) groups styles)
    iconName style
  = match (if decide (style ∈ styles) then listed_path iconName style else None) with
    | Some p => Some p
    | None => group_path groups iconName style
    end.
Proof.
  revert groups. induction styles as [|s styles IH]; intros groups; simpl.
  - done.
  - rewrite IH, group_style_path.
    destruct (decide (style ∈ styles)) as [Hin|Hnin].
    + destruct (decide (style ∈ s :: styles)) as [_|Hn];
        [|exfalso; apply Hn; by right].
      destruct (listed_path iconName style); [done|]. by case_decide.
    + destruct (decide (s = style)) as [->|Hs].
      * destruct (decide (style ∈ style :: styles)) as [_|Hn]; [done|].
        exfalso. apply Hn. left.
      * destruct (decide (style ∈ s :: styles)) as [Hin|_]; [|done].
        by apply elem_of_cons in Hin as [?|?].
Qed.

(** On its own keys the grouper records exactly the entries in [.svg] of
    the listings of the style directories. *)
Lemma plain_grouper_paths iconName style :
  group_path (groupIconsByName path_join ICON_DIR readdirSync) iconName style
  = if decide (style ∈ STYLES) then
      files ← readdirSync (path_join [ICON_DIR; style]);
      if decide (iconName +:+ ".svg" ∈ files)
      then Some (path_join [path_join [ICON_DIR; style]; iconName +:+ ".svg"])
      else None
    else None.
Proof.
  unfold groupIconsByName. rewrite foldl_group_style_path.
  case_decide; [|done]. fold (listed_path iconName style).
  by destruct (listed_path iconName style).
Qed.

End GrouperLookup.

(** ** The grouper as the engine runs it, and the grouper on own keys *)

Section RuntimeGrouper.
Variable path_join : list string → string.
Variable ICON_DIR : string.
Variable existsSync : string → bool.

Local Abbreviation heap_of g := {| Runtime.groups := g; Runtime.inherited := [] |}.
Local Abbreviation no_member g := (∀ k, k ∈ Runtime.MEMBERS → Js.get g k = None).

Lemma visible_cons file files :
  visible (file :: files) = visible [file] ++ visible files.
Proof. unfold visible. rewrite !filter_cons, filter_nil. by case_decide. Qed.

Lemma runtime_group_file dir style g file :
  no_member g → file ≠ "__proto__.svg" →
  Runtime.group_file path_join dir style (heap_of g) file
  = Some (heap_of (foldl (group_file path_join dir style) g (visible [file]))).
Proof.
  intros Hclean Hfile. unfold Runtime.group_file, visible, group_file.
  rewrite filter_cons, filter_nil.
  destruct (Js.endsWith file ".svg") eqn:Hends.
  - unfold Runtime.lookup. simpl.
    destruct (Js.get g (Js.basename file ".svg")) as [variants|] eqn:Hget.
    + rewrite decide_True; [simpl; by rewrite Hends, Hget|].
      intros Hm. apply Hclean in Hm. congruence.
    + destruct (decide (Js.basename file ".svg" = "__proto__")) as [Hp|_].
      { exfalso. apply Hfile. apply endsWith_basename in Hends.
        by rewrite Hends, Hp. }
      destruct (decide (Js.basename file ".svg" ∈ Runtime.MEMBERS)) as [Hm|Hm].
      * by rewrite decide_False by (intros Hn; by apply Hn).
      * rewrite decide_True by done. simpl. by rewrite Hends, Hget.
  - case_decide; simpl; [by rewrite Hends|done].
Qed.

Lemma no_member_group_file dir style g file :
  no_member g →
  no_member (foldl (group_file path_join dir style) g (visible [file])).
Proof.
  intros Hclean k Hk. unfold visible. rewrite filter_cons, filter_nil.
  case_decide as Hm; simpl; [|by apply Hclean].
  unfold group_file. destruct (Js.endsWith file ".svg"); [|by apply Hclean].
  rewrite get_set. case_decide as Heq; [|by apply Hclean].
  exfalso. apply Hm. by rewrite Heq.
Qed.

Lemma runtime_group_files dir style files g :
  no_member g → "__proto__.svg" ∉ files →
  Js.for_of (Runtime.group_file path_join dir style) (heap_of g) files
  = Some (heap_of (foldl (group_file path_join dir style) g (visible files)))
  ∧ no_member (foldl (group_file path_join dir style) g (visible files)).
Proof.
  revert g. induction files as [|file files IH]; intros g Hclean Hfiles.
  - done.
  - apply not_elem_of_cons in Hfiles as [Hfile Hfiles].
    rewrite for_of_cons, runtime_group_file by (done || by intros ->). simpl.
    rewrite (visible_cons file files), foldl_app.
    apply IH; [|done]. by apply no_member_group_file.
Qed.

Section Listings.
Variable readdirSync : string → option (list string).

Local Abbreviation rt_style :=
  (Runtime.group_style path_join ICON_DIR existsSync readdirSync).
Local Abbreviation own_style :=
  (group_style path_join ICON_DIR (listing existsSync readdirSync)).
Local Abbreviation cannot_list :=
  (unlistable path_join ICON_DIR existsSync readdirSync).
Local Abbreviation no_proto :=
  (no_proto_file path_join ICON_DIR existsSync readdirSync).

Lemma runtime_group_style g style :
  no_member g → no_proto → style ∈ STYLES → ¬ cannot_list style →
  rt_style (heap_of g) style = Some (heap_of (own_style g style))
  ∧ no_member (own_style g style).
Proof.
  intros Hclean Hproto Hstyle Hlist.
  unfold Runtime.group_style, group_style, listing.
  destruct (existsSync (path_join [ICON_DIR; style])) eqn:Hex; [|done].
  destruct (readdirSync (path_join [ICON_DIR; style])) as [files|] eqn:Hrd; simpl.
  - apply runtime_group_files; [done|]. by eapply Hproto.
  - exfalso. by apply Hlist.
Qed.

Lemma runtime_group_styles styles g :
  no_member g → no_proto → styles ⊆ STYLES →
  (∀ style, style ∈ styles → ¬ cannot_list style) →
  Js.for_of rt_style (heap_of g) styles
  = Some (heap_of (foldl own_style g styles)).
Proof.
  revert g. induction styles as [|style styles IH]; intros g Hclean Hproto Hsub Hlist.
  - done.
  - destruct (runtime_group_style g style) as [Hstep Hclean'];
      [done|done|apply Hsub; left|apply Hlist; left|].
    rewrite for_of_cons, Hstep. simpl. apply IH; [done|done| |].
    + intros s Hs. apply Hsub. by right.
    + intros s Hs. apply Hlist. by right.
Qed.

Lemma runtime_group_styles_None styles heap style :
  style ∈ styles → cannot_list style →
  Js.for_of rt_style heap styles = None.
Proof.
  intros Hin [Hex Hrd]. revert heap.
  induction styles as [|s styles IH]; intros heap; [by apply elem_of_nil in Hin|].
  rewrite for_of_cons. apply elem_of_cons in Hin as [<-|Hin].
  - assert (rt_style heap style = None) as ->; [|done].
    unfold Runtime.group_style. by rewrite Hex, Hrd.
  - destruct (rt_style heap s); simpl; [by apply IH|done].
Qed.

(** Where no entry is named [__proto__.svg] and every style path that
    exists can be listed, the grouper returns what the grouper on own keys
    makes of the entries it can record. *)
Lemma runtime_grouper_returns :
  no_proto → (∀ style, style ∈ STYLES → ¬ cannot_list style) →
  Runtime.groupIconsByName path_join ICON_DIR existsSync readdirSync
  = Some (groupIconsByName path_join ICON_DIR (listing existsSync readdirSync)).
Proof.
  intros Hproto Hlist. unfold Runtime.groupIconsByName, groupIconsByName.
  by rewrite runtime_group_styles.
Qed.

Lemma runtime_grouper_throws style :
  style ∈ STYLES → cannot_list style →
  Runtime.groupIconsByName path_join ICON_DIR existsSync readdirSync = None.
Proof.
  intros Hin Hbad. unfold Runtime.groupIconsByName.
  by rewrite (runtime_group_styles_None _ _ style).
Qed.

Lemma cannot_list_dec style : Decision (cannot_list style).
Proof. unfold unlistable. apply _. Qed.

Lemma runtime_grouper_None :
  no_proto →
  Runtime.groupIconsByName path_join ICON_DIR existsSync readdirSync = None ↔
  ∃ style, style ∈ STYLES ∧ cannot_list style.
Proof.
  intros Hproto. split.
  - intros Hnone.
    destruct (@decide (Exists cannot_list STYLES)
                (@Exists_dec _ _ cannot_list_dec STYLES)) as [Hex|Hnex].
    + apply Exists_exists in Hex. exact Hex.
    + rewrite runtime_grouper_returns in Hnone; [done|done|].
      intros style Hin Hbad. apply Hnex, Exists_exists. by exists style.
  - intros (style & Hin & Hbad). by eapply runtime_grouper_throws.
Qed.

Lemma elem_of_visible file files :
  file ∈ visible files ↔ file ∈ files ∧ Js.basename file ".svg" ∉ Runtime.MEMBERS.
Proof. unfold visible. rewrite list_elem_of_filter. tauto. Qed.

Lemma basename_app name ext : Js.basename (name +:+ ext) ext = name.
Proof. unfold Js.basename. by rewrite strip_suffix_app. Qed.

(** X2. What the Group mapping holds, on a library none of whose style
    directories lists an entry [__proto__.svg].  The grouper throws exactly
    when a style path exists and cannot be listed.  When it returns, the
    mapping holds a path for an icon name and a style exactly when the
    style is one of [STYLES], the icon name is not the name of a function
    every object inherits ([constructor], [toString], ...), the directory
    of the style exists and lists the entry [iconName.svg]; the path is
    then the path of that entry in that directory.  A directory that does
    not exist, an entry that does not end in [.svg] and an entry named after
    an inherited function add nothing. *)
Theorem groupIconsByName_paths :
  no_proto_file path_join ICON_DIR existsSync readdirSync →
  (Runtime.groupIconsByName path_join ICON_DIR existsSync readdirSync = None ↔
   ∃ style, style ∈ STYLES ∧
            unlistable path_join ICON_DIR existsSync readdirSync style) ∧
  ∀ groups,
    Runtime.groupIconsByName path_join ICON_DIR existsSync readdirSync
    = Some groups →
    ∀ iconName style,
      group_path groups iconName style
      = if decide (style ∈ STYLES ∧ (iconName ∉ Runtime.MEMBERS) ∧
                   existsSync (path_join [ICON_DIR; style]) = true)
        then
          files ← readdirSync (path_join [ICON_DIR; style]);
          if decide (iconName +:+ ".svg" ∈ files)
          then Some (path_join [path_join [ICON_DIR; style]; iconName +:+ ".svg"])
          else None
        else None.
Proof.
  intros Hproto. split; [by apply runtime_grouper_None|].
  intros groups Hrun iconName style.
  rewrite runtime_grouper_returns in Hrun; [|done|].
  - injection Hrun as <-. rewrite plain_grouper_paths. unfold listing.
    destruct (decide (style ∈ STYLES)) as [Hs|Hs];
      [|by rewrite decide_False by (intros [? _]; done)].
    destruct (existsSync (path_join [ICON_DIR; style])) eqn:Hex;
      [|by rewrite decide_False by (intros (_ & _ & ?); done)].
    destruct (readdirSync (path_join [ICON_DIR; style])) as [files|]; simpl.
    + destruct (decide (iconName ∉ Runtime.MEMBERS)) as [Hm|Hm].
      * rewrite (decide_True (P := _ ∧ _ ∧ _)) by done. simpl.
        destruct (decide (iconName +:+ ".svg" ∈ files)) as [Hin|Hin].
        -- rewrite decide_True; [done|].
           apply elem_of_visible. by rewrite basename_app.
        -- rewrite decide_False; [done|]. by intros [? _]%elem_of_visible.
      * rewrite (decide_False (P := _ ∧ _ ∧ _)) by (intros (_ & ? & _); done).
        rewrite decide_False; [done|].
        intros [_ Hn]%elem_of_visible. by rewrite basename_app in Hn.
    + by case_decide.
  - intros s Hs Hbad.
    assert (Runtime.groupIconsByName path_join ICON_DIR existsSync readdirSync
            = None) as Hnone by (by eapply runtime_grouper_throws).
    congruence.
Qed.

End Listings.

Lemma visible_Permutation files files' :
  files ≡ₚ files' → visible files ≡ₚ visible files'.
Proof. intros Hp. unfold visible. by rewrite Hp. Qed.

(** X22. On a library none of whose style directories lists an entry
    [__proto__.svg], the listing order does not show in what the grouper
    does: with two listings of the same files it throws with both or with
    neither, and the two Group mappings it returns have the same content
    (the same icon names, each with the same styles bound to the same
    paths), so that they hold the same path, or none, for every icon name
    and style. *)
Theorem runtime_listing_order rd rd' :
  same_files rd rd' →
  no_proto_file path_join ICON_DIR existsSync rd →
  (Runtime.groupIconsByName path_join ICON_DIR existsSync rd = None ↔
   Runtime.groupIconsByName path_join ICON_DIR existsSync rd' = None) ∧
  ∀ groups groups',
    Runtime.groupIconsByName path_join ICON_DIR existsSync rd = Some groups →
    Runtime.groupIconsByName path_join ICON_DIR existsSync rd' = Some groups' →
    content2 groups = content2 groups' ∧
    ∀ iconName style,
      group_path groups iconName style = group_path groups' iconName style.
Proof.
  intros Hsame Hproto.
  assert (no_proto_file path_join ICON_DIR existsSync rd') as Hproto'.
  { intros style files' Hs Hex Hrd'.
    pose proof (Hsame (path_join [ICON_DIR; style])) as Hdir.
    rewrite Hrd' in Hdir. inversion Hdir as [files ? Hp Hrd|]. subst.
    rewrite <-Hp. by eapply Hproto. }
  assert (∀ style, unlistable path_join ICON_DIR existsSync rd style
                   ↔ unlistable path_join ICON_DIR existsSync rd' style) as Hbad.
  { intros style. unfold unlistable.
    destruct (Hsame (path_join [ICON_DIR; style])); naive_solver. }
  assert (same_files (listing existsSync rd) (listing existsSync rd')) as Hlist.
  { intros dir. unfold listing. destruct (existsSync dir); [|constructor].
    destruct (Hsame dir); constructor. by apply visible_Permutation. }
  split.
  - rewrite !runtime_grouper_None by done. by setoid_rewrite Hbad.
  - intros groups groups' Hrun Hrun'.
    rewrite runtime_grouper_returns in Hrun; [|done|].
    + rewrite runtime_grouper_returns in Hrun'; [|done|].
      * injection Hrun as <-. injection Hrun' as <-.
        apply (plain_listing_order path_join ICON_DIR _ _ Hlist).
      * intros s Hs Hb.
        assert (Runtime.groupIconsByName path_join ICON_DIR existsSync rd' = None)
          as Hnone by (by eapply runtime_grouper_throws).
        congruence.
    + intros s Hs Hb.
      assert (Runtime.groupIconsByName path_join ICON_DIR existsSync rd = None)
        as Hnone by (by eapply runtime_grouper_throws).
      congruence.
Qed.

End RuntimeGrouper.

(** ** The grouper: the order of the styles of an icon *)

Section GrouperOrder.
Variable path_join : list string → string.
Variable ICON_DIR : string.
Variable readdirSync : string → option (list string).

Lemma set_not_nil {V} (o : Js.obj V) k v : Js.set o k v ≠ [].
Proof. destruct o as [|[k' v'] o]; simpl; [done|]. by case_decide. Qed.

Lemma ordered_group_file P s dir groups file :
  s ∉ P →
  Forall (λ e : string * Js.obj string,
            e.2 ≠ [] ∧ ∃ k, k `sublist_of` P ∧
                            (Js.keys e.2 = k ∨ Js.keys e.2 = k ++ [s])) groups →
  Forall (λ e : string * Js.obj string,
            e.2 ≠ [] ∧ ∃ k, k `sublist_of` P ∧
                            (Js.keys e.2 = k ∨ Js.keys e.2 = k ++ [s]))
         (group_file path_join dir s groups file).
Proof.
  intros Hs Hall. unfold group_file. destruct (Js.endsWith file ".svg"); [|done].
  apply Forall_set; [done|]. simpl. split; [apply set_not_nil|].
  destruct (Js.get groups (Js.basename file ".svg")) as [inner|] eqn:Hget; simpl.
  - apply get_Some_elem in Hget.
    eapply Forall_forall in Hall as [_ (k & Hk & Hkeys)]; [|done]. simpl in Hkeys.
    exists k. split; [done|]. right. rewrite keys_set.
    destruct Hkeys as [->| ->].
    + rewrite decide_False; [done|]. intros Hin. apply Hs.
      by eapply sublist_subseteq.
    + rewrite decide_True; [done|]. apply elem_of_app. right. left.
  - exists []. split; [apply sublist_nil_l|]. by right.
Qed.

Lemma ordered_group_style P s groups :
  s ∉ P →
  Forall (λ e : string * Js.obj string,
            e.2 ≠ [] ∧ Js.keys e.2 `sublist_of` P) groups →
  Forall (λ e : string * Js.obj string,
            e.2 ≠ [] ∧ Js.keys e.2 `sublist_of` P ++ [s])
         (group_style path_join ICON_DIR readdirSync groups s).
Proof.
  intros Hs Hall. unfold group_style.
  destruct (readdirSync _) as [files|].
  - assert (Forall (λ e : string * Js.obj string,
              e.2 ≠ [] ∧ ∃ k, k `sublist_of` P ∧
                              (Js.keys e.2 = k ∨ Js.keys e.2 = k ++ [s]))
              (foldl (group_file path_join (path_join [ICON_DIR; s]) s) groups files))
      as Hinv.
    { assert (Forall (λ e : string * Js.obj string,
                e.2 ≠ [] ∧ ∃ k, k `sublist_of` P ∧
                                (Js.keys e.2 = k ∨ Js.keys e.2 = k ++ [s])) groups)
        as Hstart.
      { eapply Forall_impl; [done|]. intros e [? ?]. split; [done|].
        eexists. split; [done|by left]. }
      revert Hstart. generalize groups. clear Hall.
      induction files as [|f files IH]; intros g Hg; simpl; [done|].
      by apply IH, ordered_group_file. }
    eapply Forall_impl; [done|]. intros e [? (k & Hk & [Hkeys|Hkeys])].
    + split; [done|]. rewrite Hkeys. by apply sublist_inserts_r.
    + split; [done|]. rewrite Hkeys. by apply sublist_app.
  - eapply Forall_impl; [done|]. intros e [? ?]. split; [done|].
    by apply sublist_inserts_r.
Qed.

Lemma ordered_foldl_group_style styles P groups :
  NoDup (P ++ styles) →
  Forall (λ e : string * Js.obj string,
            e.2 ≠ [] ∧ Js.keys e.2 `sublist_of` P) groups →
  Forall (λ e : string * Js.obj string,
            e.2 ≠ [] ∧ Js.keys e.2 `sublist_of` P ++ styles)
         (foldl (group_style path_join ICON_DIR readdirSync) groups styles).
Proof.
  revert P groups. induction styles as [|s styles IH]; intros P groups Hnd Hall.
  - simpl. by rewrite app_nil_r.
  - simpl. rewrite (cons_middle s), app_assoc. apply IH.
    + by rewrite <-app_assoc.
    + apply ordered_group_style; [|done].
      apply NoDup_app in Hnd as (_ & Hdisj & _). intros Hin.
      apply (Hdisj _ Hin). left.
Qed.

(** X3. In the Group mapping every icon name occurs once, no icon is left
    without a style, and the styles of each icon come in the order of
    [STYLES] (outlined, filled, sharp, round), whatever the order of the
    directory listings. *)
Theorem groupIconsByName_shape :
  let groups := groupIconsByName path_join ICON_DIR readdirSync in
  NoDup (Js.keys groups) ∧
  ∀ iconName variants,
    (iconName, variants) ∈ groups →
    variants ≠ [] ∧ NoDup (Js.keys variants) ∧ Js.keys variants `sublist_of` STYLES.
Proof.
  intros groups. split; [apply wf_groupIconsByName|].
  intros iconName variants Hin.
  assert (Forall (λ e : string * Js.obj string,
            e.2 ≠ [] ∧ Js.keys e.2 `sublist_of` [] ++ STYLES) groups) as Hall.
  { apply ordered_foldl_group_style; [|apply Forall_nil_2].
    apply (bool_decide_unpack _). by vm_compute. }
  eapply Forall_forall in Hall as [Hne Hsub]; [|done]. simpl in *.
  split_and!; [done| |done].
  eapply sublist_NoDup; [|done]. apply (bool_decide_unpack _). by vm_compute.
Qed.

End GrouperOrder.

(** ** The hash deduplicator: clusters and digests *)

Lemma two_elements {A} (l : list A) a b : a ∈ l → b ∈ l → a ≠ b → 1 < length l.
Proof.
  destruct l as [|x [|y l]]; simpl.
  - by intros ?%elem_of_nil.
  - intros ->%list_elem_of_singleton ->%list_elem_of_singleton. done.
  - lia.
Qed.

Lemma two_of_long {A} (l : list A) :
  NoDup l → 1 < length l → ∃ a b, a ∈ l ∧ b ∈ l ∧ a ≠ b.
Proof.
  destruct l as [|x [|y l]]; simpl; [lia|lia|].
  intros [Hx _]%NoDup_cons _. exists x, y. split_and!; [left|right; left|].
  intros ->. apply Hx. left.
Qed.

Lemma elem_of_styles_with hashes h s :
  s ∈ styles_with hashes h ↔ (s, h) ∈ hashes.
Proof.
  unfold styles_with. rewrite list_elem_of_fmap. split.
  - intros ([s' h'] & -> & [Hh Hin]%list_elem_of_filter). simpl in *. by subst.
  - intros Hin. exists (s, h). split; [done|]. by apply list_elem_of_filter.
Qed.

Lemma styles_with_snoc hashes style hash h :
  styles_with (hashes ++ [(style, hash)]) h
  = styles_with hashes h ++ (if decide (hash = h) then [style] else []).
Proof.
  unfold styles_with. rewrite filter_app, fmap_app. f_equal.
  rewrite filter_cons, filter_nil. simpl. by case_decide.
Qed.

Lemma get_groupByHash hashes h :
  Js.get (Hash.groupByHash hashes) h
  = if decide (styles_with hashes h = []) then None
    else Some (styles_with hashes h).
Proof.
  induction hashes as [|[style hash] hashes IH] using rev_ind; [done|].
  rewrite groupByHash_snoc, get_set, styles_with_snoc.
  destruct (decide (hash = h)) as [->|Hne].
  - rewrite decide_False by (by intros [_ ?]%app_eq_nil).
    rewrite IH. by case_decide as Hnil; [rewrite Hnil|].
  - by rewrite app_nil_r.
Qed.

Lemma NoDup_keys_groupByHash hashes : NoDup (Js.keys (Hash.groupByHash hashes)).
Proof.
  induction hashes as [|[style hash] hashes IH] using rev_ind.
  - apply NoDup_nil_2.
  - rewrite groupByHash_snoc. by apply NoDup_keys_set.
Qed.

Lemma elem_of_duplicateClusters hashes cluster :
  cluster ∈ Hash.duplicateClusters hashes ↔
  ∃ h, cluster = styles_with hashes h ∧ 1 < length cluster.
Proof.
  unfold Hash.duplicateClusters, Js.values.
  rewrite list_elem_of_filter, list_elem_of_fmap. split.
  - intros [Hlen ([h c] & -> & Hin)]. simpl in *. exists h. split; [|done].
    apply elem_get in Hin; [|apply NoDup_keys_groupByHash].
    rewrite get_groupByHash in Hin. by case_decide; simplify_eq.
  - intros (h & -> & Hlen). split; [done|].
    exists (h, styles_with hashes h). split; [done|].
    apply get_Some_elem. rewrite get_groupByHash.
    rewrite decide_False; [done|]. intros Hnil. rewrite Hnil in Hlen. simpl in Hlen. lia.
Qed.

Section HashDigests.
Variable getFileHash : string → option string.

Lemma hashVariants_get variants hashes s :
  NoDup (Js.keys variants) →
  Hash.hashVariants getFileHash variants = Some hashes →
  Js.get hashes s = variant_hash getFileHash variants s.
Proof.
  unfold Hash.hashVariants, variant_hash.
  assert (∀ acc, NoDup (Js.keys variants) →
    Js.for_of (λ hashes '(style, filePath),
                 hash ← getFileHash filePath; Some (Js.set hashes style hash))
              acc variants = Some hashes →
    Js.get hashes s = match Js.get variants s with
                      | Some filePath => getFileHash filePath
                      | None => Js.get acc s
                      end) as H.
  { induction variants as [|[style filePath] variants IH]; intros acc Hnd.
    - simpl. by intros [= <-].
    - rewrite for_of_cons. destruct (getFileHash filePath) as [hash|] eqn:Hhash;
        simpl; [|done].
      simpl in Hnd. apply NoDup_cons in Hnd as [Hstyle Hnd]. intros Hrun.
      rewrite (IH _ Hnd Hrun), get_set. cbn [Js.get].
      destruct (decide (style = s)) as [->|Hs]; [|done].
      apply get_None_keys in Hstyle. by rewrite Hstyle. }
  intros Hnd Hrun. rewrite (H [] Hnd Hrun).
  by destruct (Js.get variants s).
Qed.

(** X4. The duplicate clusters of an icon are its classes of equal
    digests: two different styles of an icon are in one duplicate cluster
    exactly when their files have the same digest. *)
Theorem clusters_are_digest_classes variants hashes s s' :
  NoDup (Js.keys variants) →
  Hash.hashVariants getFileHash variants = Some hashes →
  s ≠ s' →
  (∃ cluster, cluster ∈ Hash.duplicateClusters hashes ∧ s ∈ cluster ∧ s' ∈ cluster)
  ↔ ∃ h, variant_hash getFileHash variants s = Some h ∧
         variant_hash getFileHash variants s' = Some h.
Proof.
  intros Hnd Hh Hne.
  pose proof (hashVariants_keys _ _ _ Hh) as [Hndh _].
  rewrite <-!(hashVariants_get variants hashes) by done. split.
  - intros (c & (h & -> & _)%elem_of_duplicateClusters & Hs & Hs').
    exists h. split; apply elem_get; try done; by apply elem_of_styles_with.
  - intros (h & Hs%get_Some_elem & Hs'%get_Some_elem).
    exists (styles_with hashes h).
    rewrite elem_of_duplicateClusters, !elem_of_styles_with.
    split_and!; [|done|done]. exists h. split; [done|].
    eapply (two_elements _ s s'); [| |done]; by apply elem_of_styles_with.
Qed.

End HashDigests.

(** ** The hash deduplicator: which icons have an entry, counters, failure *)

Lemma for_of_None_iff {A S} (body : S → A → option S) (bad : A → Prop) :
  (∀ st x, body st x = None ↔ bad x) →
  ∀ st items, Js.for_of body st items = None ↔ ∃ x, x ∈ items ∧ bad x.
Proof.
  intros Hbody st items. revert st.
  induction items as [|x items IH]; intros st.
  - simpl. split; [done|]. by intros (? & ?%elem_of_nil & _).
  - rewrite for_of_cons. destruct (body st x) as [st'|] eqn:Hx; simpl.
    + rewrite IH. split.
      * intros (y & Hy & Hbad). exists y. split; [by right|done].
      * intros (y & [->|Hy]%elem_of_cons & Hbad); [|by eauto].
        apply Hbody with (st := st) in Hbad. congruence.
    + split; [|done]. intros _. exists x. split; [left|]. by eapply Hbody.
Qed.

Section HashRunFacts.
Variable path_join : list string → string.
Variable ICON_DIR : string.
Variable readdirSync : string → option (list string).
Variable getFileHash : string → option string.

Lemma hashVariants_None variants :
  Hash.hashVariants getFileHash variants = None ↔
  ∃ style filePath, (style, filePath) ∈ variants ∧ getFileHash filePath = None.
Proof.
  unfold Hash.hashVariants.
  rewrite (for_of_None_iff _ (λ e, getFileHash e.2 = None)).
  - split.
    + intros ([style filePath] & ? & ?). by exists style, filePath.
    + intros (style & filePath & ? & ?). by exists (style, filePath).
  - intros st [style filePath]. simpl. by destruct (getFileHash filePath).
Qed.

Lemma hash_process_icon_None st item :
  Hash.process_icon getFileHash st item = None ↔
  Hash.hashVariants getFileHash item.2 = None.
Proof.
  destruct item as [iconName variants]. unfold Hash.process_icon. simpl.
  destruct (Hash.hashVariants getFileHash variants) as [hashes|]; simpl; [|done].
  case_bool_decide; [|done]. by rewrite foldl_resolve_cluster.
Qed.

(** X5. The loop of the hash deduplicator over a Group mapping throws
    exactly when the file of some variant of the mapping cannot be read:
    every variant is read, also those of an icon that has one style only.
    (The loop is what stands between the grouper and the writing of the
    report.) *)
Theorem hash_loop_fails_iff_unreadable groups :
  Hash.processGroups getFileHash groups = None ↔
  ∃ iconName variants style filePath,
    (iconName, variants) ∈ groups ∧
    (style, filePath) ∈ variants ∧
    getFileHash filePath = None.
Proof.
  unfold Hash.processGroups.
  rewrite (for_of_None_iff _ (λ item, Hash.hashVariants getFileHash item.2 = None)).
  - split.
    + intros ([iconName variants] & Hin & (style & filePath & ? & ?)%hashVariants_None).
      by exists iconName, variants, style, filePath.
    + intros (iconName & variants & style & filePath & Hin & ? & ?).
      exists (iconName, variants). split; [done|].
      apply hashVariants_None. by exists style, filePath.
  - intros st item. apply hash_process_icon_None.
Qed.

Lemma hash_entries_keys groups :
  Js.keys (omap (hash_icon_entry getFileHash) groups) `sublist_of` Js.keys groups.
Proof.
  unfold Js.keys. induction groups as [|[icon variants] groups IH]; simpl; [done|].
  destruct (hash_icon_entry getFileHash (icon, variants)) as [[icon' d]|] eqn:He; simpl.
  - assert (icon' = icon) as ->; [|by apply sublist_skip].
    unfold hash_icon_entry in He. simpl in He.
    destruct (Hash.hashVariants _ _); simpl in He; [|done].
    case_bool_decide; by simplify_eq.
  - by apply sublist_cons.
Qed.

Lemma hash_affected_step st0 st1 item :
  Hash.process_icon getFileHash st0 item = Some st1 →
  Hash.totalIconsAffected st1
  = Hash.totalIconsAffected st0
    + length (option_list (hash_icon_entry getFileHash item)).
Proof.
  destruct item as [iconName variants].
  unfold Hash.process_icon, hash_icon_entry. simpl.
  destruct (Hash.hashVariants getFileHash variants) as [hashes|]; simpl; [|done].
  case_bool_decide.
  - rewrite foldl_resolve_cluster. intros [= <-]. simpl. lia.
  - intros [= <-]. simpl. lia.
Qed.

Lemma hash_affected_run groups st0 st :
  Js.for_of (Hash.process_icon getFileHash) st0 groups = Some st →
  Hash.totalIconsAffected st
  = Hash.totalIconsAffected st0
    + length (omap (hash_icon_entry getFileHash) groups).
Proof.
  revert st0. induction groups as [|item groups IH]; intros st0.
  - simpl. intros [= <-]. lia.
  - rewrite for_of_cons.
    destruct (Hash.process_icon getFileHash st0 item) as [st1|] eqn:Hstep;
      simpl; [|done].
    intros Hrun%IH. rewrite Hrun, (hash_affected_step _ _ _ Hstep).
    destruct (hash_icon_entry getFileHash item); simpl.
    + by rewrite <-Nat.add_assoc.
    + by rewrite Nat.add_0_r.
Qed.

(** X6. An icon has an entry in the hash report exactly when two different
    styles of it have files with the same digest; so an icon in one style
    only, or whose files all differ, has none. *)
Theorem hash_entry_iff_shared_digest run iconName :
  Hash.processIconGroups path_join ICON_DIR readdirSync getFileHash = Some run →
  iconName ∈ Js.keys (Hash.report run) ↔
  ∃ variants s s' h,
    (iconName, variants) ∈ groupIconsByName path_join ICON_DIR readdirSync ∧
    s ≠ s' ∧
    variant_hash getFileHash variants s = Some h ∧
    variant_hash getFileHash variants s' = Some h.
Proof.
  intros Hrun. split.
  - intros ([icon' d] & -> & Hin)%list_elem_of_fmap. simpl.
    destruct (hash_report_entry _ _ _ _ _ _ _ Hrun Hin)
      as (variants & hashes & Hg & [Hndv _] & Hh & Hnd & Hne & _).
    destruct (Hash.duplicateClusters hashes) as [|c cs] eqn:Hcs; [done|].
    assert (c ∈ Hash.duplicateClusters hashes) as Hc by (rewrite Hcs; left).
    destruct (duplicate_cluster_facts _ _ Hnd Hc) as (Hlen & Hndc & _ & _).
    destruct (two_of_long c Hndc Hlen) as (a & b & Ha & Hb & Hab).
    apply elem_of_duplicateClusters in Hc as (h & -> & _).
    exists variants, a, b, h. split_and!; [done|done| |].
    + rewrite <-(hashVariants_get _ variants hashes) by done.
      apply elem_get; [done|]. by apply elem_of_styles_with.
    + rewrite <-(hashVariants_get _ variants hashes) by done.
      apply elem_get; [done|]. by apply elem_of_styles_with.
  - intros (variants & s & s' & h & Hg & Hne & Hs & Hs').
    pose proof (grouped_variants_wf _ _ _ _ _ Hg) as [Hndv _].
    pose proof Hrun as Hrun'.
    apply processGroups_spec in Hrun' as (Hrep & _); [|apply wf_groupIconsByName].
    destruct (for_of_success _ _ _ _ _ Hrun Hg) as (st & st' & Hstep).
    destruct (Hash.hashVariants getFileHash variants) as [hashes|] eqn:Hh.
    2: { assert (Hash.process_icon getFileHash st (iconName, variants) = None) as Hn.
         { by apply hash_process_icon_None. }
         congruence. }
    rewrite <-(hashVariants_get _ variants hashes) in Hs, Hs' by done.
    apply get_Some_elem in Hs, Hs'.
    assert (styles_with hashes h ∈ Hash.duplicateClusters hashes) as Hc.
    { apply elem_of_duplicateClusters. exists h. split; [done|].
      eapply (two_elements _ s s'); [| |done]; by apply elem_of_styles_with. }
    rewrite Hrep. apply list_elem_of_fmap.
    exists (iconName, hash_entry (Hash.duplicateClusters hashes)). split; [done|].
    apply list_elem_of_omap. exists (iconName, variants). split; [done|].
    unfold hash_icon_entry. simpl. rewrite Hh. simpl.
    rewrite bool_decide_eq_true_2; [done|].
    destruct (Hash.duplicateClusters hashes); [by apply elem_of_nil in Hc|simpl; lia].
Qed.

(** X7. The counters of a hash run: the icons counted are the icon names
    of the Group mapping, the icons counted as affected are the entries of
    the report, and the report has at most one entry for an icon name, in
    the order of the Group mapping. *)
Theorem hash_run_counters run :
  Hash.processIconGroups path_join ICON_DIR readdirSync getFileHash = Some run →
  Hash.totalIcons run
    = length (groupIconsByName path_join ICON_DIR readdirSync) ∧
  Hash.totalIconsAffected run = length (Hash.report run) ∧
  NoDup (Js.keys (Hash.report run)) ∧
  Js.keys (Hash.report run)
    `sublist_of` Js.keys (groupIconsByName path_join ICON_DIR readdirSync).
Proof.
  intros Hrun. pose proof Hrun as Hrun'.
  apply processGroups_spec in Hrun' as (Hrep & Hicons & _);
    [|apply wf_groupIconsByName].
  apply hash_affected_run in Hrun. rewrite Hrep.
  split_and!; [done|done| |apply hash_entries_keys].
  eapply sublist_NoDup; [|apply hash_entries_keys]. apply wf_groupIconsByName.
Qed.

End HashRunFacts.

(** ** The order of the kept and removed styles *)

Lemma filter_ne_head (l : list string) m :
  m ∉ l → filter (λ s, Some s ≠ Some m) (m :: l) = l.
Proof.
  intros Hm. rewrite filter_cons, decide_False by (intros H; by apply H).
  induction l as [|x l IH]; [done|].
  apply not_elem_of_cons in Hm as [Hx Hm].
  rewrite filter_cons, decide_True by congruence. f_equal. by apply IH.
Qed.

(** X8. The order of the lists of an entry.  When "outlined" is in the
    cluster, the removals are the other styles in the order they have in
    the cluster; when it is not, the kept style followed by the removals is
    the cluster in ascending order of style names. *)
Theorem keep_then_remove_order cluster :
  NoDup cluster → cluster ≠ [] →
  ("outlined" ∈ cluster →
     cluster_keep cluster = Some "outlined" ∧
     cluster_remove cluster = filter (λ s, s ≠ "outlined") cluster) ∧
  ("outlined" ∉ cluster →
     ∃ m, cluster_keep cluster = Some m ∧
          m :: cluster_remove cluster = Js.sort cluster ∧
          StronglySorted Js.str_le (m :: cluster_remove cluster)).
Proof.
  intros Hnd Hne. split.
  - intros Hin. split; [by apply cluster_keep_outlined|].
    unfold cluster_remove, cluster_after_keep, cluster_keep.
    apply includes_true in Hin. rewrite Hin.
    apply list_filter_iff. intros s. split; [congruence|]. intros ? [=]. done.
  - intros Hnin. unfold cluster_remove, cluster_after_keep, cluster_keep.
    apply includes_false in Hnin. rewrite Hnin.
    pose proof (StronglySorted_merge_sort Js.str_le cluster) as Hsorted.
    fold (Js.sort cluster) in Hsorted.
    pose proof (sort_perm cluster) as Hperm.
    destruct (Js.sort cluster) as [|m rest] eqn:Hs.
    + destruct Hne. by apply Permutation_nil_r.
    + exists m. simpl. rewrite <-Hperm in Hnd. apply NoDup_cons in Hnd as [Hm _].
      rewrite (filter_ne_head rest m Hm). done.
Qed.

(** ** The visual deduplicator: the table of visual duplicates *)

Lemma listed_ensure_set vd k a b :
  listed_with (Visual.ensure_set vd k) a b ↔ listed_with vd a b.
Proof.
  unfold Visual.ensure_set, listed_with.
  destruct (Js.get vd k) as [m|] eqn:Hk; [done|].
  setoid_rewrite get_set. split.
  - intros (m & Hm & Hb). case_decide; simplify_eq.
    + by apply elem_of_nil in Hb.
    + by exists m.
  - intros (m & Hm & Hb). exists m. split; [|done].
    case_decide; [congruence|done].
Qed.

Lemma listed_add_member vd k x a b :
  is_Some (Js.get vd k) →
  listed_with (Visual.add_member vd k x) a b ↔
  listed_with vd a b ∨ (a = k ∧ b = x).
Proof.
  intros [m Hk]. unfold Visual.add_member, listed_with. rewrite Hk. simpl.
  setoid_rewrite get_set. split.
  - intros (m' & Hm & Hb). case_decide; simplify_eq.
    + apply elem_of_set_add in Hb as [Hb| ->]; [|by right].
      left. by exists m.
    + left. by exists m'.
  - intros [(m' & Hm & Hb)|[-> ->]].
    + destruct (decide (k = a)) as [->|Hne].
      * exists (Js.set_add m x). split; [done|].
        apply elem_of_set_add. left. congruence.
      * by exists m'.
    + exists (Js.set_add m x). rewrite decide_True by done. split; [done|].
      apply elem_of_set_add. by right.
Qed.

Lemma listed_mark_equal vd x y a b :
  listed_with (Visual.mark_equal vd x y) a b ↔
  listed_with vd a b ∨ (a = x ∧ b = y) ∨ (a = y ∧ b = x).
Proof.
  unfold Visual.mark_equal.
  rewrite !listed_add_member, !listed_ensure_set; [tauto| |].
  - apply get_ensure_set_mono, get_ensure_set_same.
  - apply get_add_member_mono, get_ensure_set_same.
Qed.

Lemma listed_mark_pairs pairs vd a b :
  listed_with (mark_pairs vd pairs) a b ↔
  listed_with vd a b ∨ (a, b) ∈ pairs ∨ (b, a) ∈ pairs.
Proof.
  unfold mark_pairs. revert vd.
  induction pairs as [|[x y] pairs IH]; intros vd; simpl.
  - split; [by left|]. intros [?|[H|H]]; [done|..]; by apply elem_of_nil in H.
  - rewrite IH, listed_mark_equal, !elem_of_cons. split.
    + intros [[?|[[-> ->]|[-> ->]]]|[?|?]]; auto.
    + intros [?|[[[= -> ->]|?]|[[= -> ->]|?]]]; auto.
Qed.

(** X9. The table of visual duplicates is the relation "judged equal",
    made symmetric: after the comparison loops, [other] is in the set of
    [style] exactly when the oracle judged the pair equal, in one order or
    the other; so the table is symmetric, and no style is in its own set. *)
Theorem visual_table_symmetric visuallyCompare pngPaths styleEntries vd :
  NoDup (Js.keys styleEntries) →
  Visual.compare_pairs visuallyCompare pngPaths styleEntries [] = Some vd →
  (∀ style other,
     listed_with vd style other ↔
     (style, other) ∈ equal_pairs (Visual.judgment visuallyCompare pngPaths)
                        (Js.keys styleEntries) ∨
     (other, style) ∈ equal_pairs (Visual.judgment visuallyCompare pngPaths)
                        (Js.keys styleEntries)) ∧
  (∀ style other, listed_with vd style other → listed_with vd other style) ∧
  (∀ style, ¬ listed_with vd style style).
Proof.
  intros Hnd ->%compare_pairs_spec.
  assert (∀ style other,
     listed_with (mark_pairs [] (equal_pairs (Visual.judgment visuallyCompare pngPaths)
                                   (Js.keys styleEntries))) style other ↔
     (style, other) ∈ equal_pairs (Visual.judgment visuallyCompare pngPaths)
                        (Js.keys styleEntries) ∨
     (other, style) ∈ equal_pairs (Visual.judgment visuallyCompare pngPaths)
                        (Js.keys styleEntries)) as Hiff.
  { intros style other. rewrite listed_mark_pairs. split; [|by right].
    intros [(m & Hm & _)|?]; done. }
  split_and!; [done| |].
  - intros style other. rewrite !Hiff. tauto.
  - intros style. rewrite Hiff.
    intros [Hin|Hin]; apply list_elem_of_filter in Hin as [_ Hin];
      by apply ordered_pairs_elem in Hin as (_ & _ & ?).
Qed.

(** ** The visual deduplicator: scratch files, entries, counters, failure *)

Lemma ordered_pairs_in styles a b :
  (a, b) ∈ ordered_pairs styles → a ∈ styles ∧ b ∈ styles.
Proof.
  induction styles as [|x styles IH]; simpl.
  - by intros ?%elem_of_nil.
  - intros [Hin|Hin]%elem_of_app.
    + apply list_elem_of_fmap in Hin as (y & [= -> ->] & Hy).
      split; [left|by right].
    + destruct (IH Hin). split; by right.
Qed.

Lemma filter_ext_in {A} (P Q : A → Prop) `{∀ x, Decision (P x)}
    `{∀ x, Decision (Q x)} (l : list A) :
  (∀ x, x ∈ l → P x ↔ Q x) → filter P l = filter Q l.
Proof.
  induction l as [|x l IH]; intros HPQ; [done|].
  rewrite !filter_cons, IH by (intros y Hy; apply HPQ; by right).
  destruct (decide (P x)) as [HP|HP], (decide (Q x)) as [HQ|HQ]; try done.
  - destruct HQ. apply HPQ; [left|done].
  - destruct HP. apply HPQ; [left|done].
Qed.

Section VisualRunFacts.
Variable path_join : list string → string.
Variable ICON_DIR TEMP_DIR : string.
Variable readdirSync : string → option (list string).
Variable renderSvgToPng : string → string → option unit.
Variable visuallyCompare : string → string → option bool.

Local Abbreviation png := (pngPath path_join TEMP_DIR).
Local Abbreviation renderAll := (Visual.renderAll path_join TEMP_DIR renderSvgToPng).
Local Abbreviation icon_entry :=
  (visual_icon_entry path_join TEMP_DIR renderSvgToPng visuallyCompare).

Lemma renderAll_get iconName styleEntries pngPaths style :
  renderAll iconName styleEntries = Some pngPaths →
  Js.get pngPaths style
  = if decide (style ∈ Js.keys styleEntries) then Some (png iconName style) else None.
Proof.
  unfold Visual.renderAll.
  assert (∀ acc,
    Js.for_of (λ pngPaths '(style, svgPath),
                 let pngPath :=
                   path_join [TEMP_DIR; iconName +:+ "_" +:+ style +:+ ".png"] in
                 _ ← renderSvgToPng svgPath pngPath;
                 Some (Js.set pngPaths style pngPath))
              acc styleEntries = Some pngPaths →
    Js.get pngPaths style
    = if decide (style ∈ Js.keys styleEntries) then Some (png iconName style)
      else Js.get acc style) as H.
  { induction styleEntries as [|[s svg] styleEntries IH]; intros acc.
    - simpl. by intros [= <-].
    - rewrite for_of_cons. simpl.
      destruct (renderSvgToPng svg _); simpl; [|done].
      intros Hrun%IH. rewrite Hrun, get_set.
      destruct (decide (style ∈ Js.keys styleEntries)) as [Hin|Hnin].
      + rewrite decide_True; [done|by right].
      + destruct (decide (s = style)) as [->|Hne].
        * rewrite decide_True; [done|left].
        * rewrite decide_False; [done|]. by intros [?|?]%elem_of_cons. }
  apply H.
Qed.

Lemma renderAll_None iconName styleEntries :
  renderAll iconName styleEntries = None ↔
  ∃ style svgPath, (style, svgPath) ∈ styleEntries ∧
                   renderSvgToPng svgPath (png iconName style) = None.
Proof.
  unfold Visual.renderAll.
  rewrite (for_of_None_iff _
             (λ e, renderSvgToPng e.2 (png iconName e.1) = None)).
  - split.
    + intros ([style svg] & ? & ?). by exists style, svg.
    + intros (style & svg & ? & ?). by exists (style, svg).
  - intros st [style svg]. simpl. unfold pngPath.
    by destruct (renderSvgToPng svg _).
Qed.

Lemma judgment_scratch iconName styleEntries pngPaths a b :
  renderAll iconName styleEntries = Some pngPaths →
  a ∈ Js.keys styleEntries → b ∈ Js.keys styleEntries →
  Visual.judgment visuallyCompare pngPaths a b
  = visuallyCompare (png iconName a) (png iconName b).
Proof.
  intros Hr Ha Hb. unfold Visual.judgment.
  by rewrite !(renderAll_get _ _ _ _ Hr), !decide_True.
Qed.

Lemma equal_pairs_scratch iconName styleEntries pngPaths :
  renderAll iconName styleEntries = Some pngPaths →
  equal_pairs (Visual.judgment visuallyCompare pngPaths) (Js.keys styleEntries)
  = scratch_equal path_join TEMP_DIR visuallyCompare iconName (Js.keys styleEntries).
Proof.
  intros Hr. unfold equal_pairs, scratch_equal.
  apply filter_ext_in. intros [a b] [Ha Hb]%ordered_pairs_in. simpl.
  by rewrite (judgment_scratch _ _ _ _ _ Hr Ha Hb).
Qed.

Lemma compare_with_None pngPaths styleA vd later :
  Visual.compare_with visuallyCompare pngPaths styleA vd later = None ↔
  ∃ styleB, styleB ∈ Js.keys later ∧
            Visual.judgment visuallyCompare pngPaths styleA styleB = None.
Proof.
  unfold Visual.compare_with.
  rewrite (for_of_None_iff _
             (λ e, Visual.judgment visuallyCompare pngPaths styleA e.1 = None)).
  - unfold Js.keys. setoid_rewrite list_elem_of_fmap. split.
    + intros ([b svg] & ? & ?). exists b. split; [|done]. by exists (b, svg).
    + intros (b & ([b' svg] & -> & ?) & ?). by exists (b', svg).
  - intros st [b svg]. simpl.
    by destruct (Visual.judgment visuallyCompare pngPaths styleA b).
Qed.

Lemma compare_pairs_None pngPaths styleEntries vd :
  Visual.compare_pairs visuallyCompare pngPaths styleEntries vd = None ↔
  ∃ a b, (a, b) ∈ ordered_pairs (Js.keys styleEntries) ∧
         Visual.judgment visuallyCompare pngPaths a b = None.
Proof.
  revert vd. induction styleEntries as [|[styleA svg] later IH]; intros vd.
  - simpl. split; [done|]. by intros (? & ? & ?%elem_of_nil & _).
  - cbn [Visual.compare_pairs Js.keys fmap list_fmap fst ordered_pairs].
    fold (Js.keys later). setoid_rewrite elem_of_app.
    destruct (Visual.compare_with _ _ _ _ _) as [vd1|] eqn:Hwith; simpl.
    + rewrite IH. split.
      * intros (a & b & ? & ?). exists a, b. auto.
      * intros (a & b & [Hin|Hin] & Hj); [|by eauto].
        apply list_elem_of_fmap in Hin as (b' & [= -> ->] & Hb).
        assert (Visual.compare_with visuallyCompare pngPaths styleA vd later = None)
          as Hn by (apply compare_with_None; eauto).
        congruence.
    + split; [|done]. intros _.
      apply compare_with_None in Hwith as (b & Hb & Hj).
      exists styleA, b. split; [|done]. left. apply list_elem_of_fmap. by exists b.
Qed.

Lemma visual_process_icon_None st iconName variants :
  Visual.process_icon path_join TEMP_DIR renderSvgToPng visuallyCompare st
    (iconName, variants) = None ↔
  2 ≤ length variants ∧
  (renderAll iconName variants = None ∨
   ∃ pngPaths, renderAll iconName variants = Some pngPaths ∧
               Visual.compare_pairs visuallyCompare pngPaths variants [] = None).
Proof.
  unfold Visual.process_icon. case_bool_decide as Hlen.
  - split; [done|]. intros [? _]. lia.
  - destruct (renderAll iconName variants) as [pngPaths|]; simpl.
    + destruct (Visual.compare_pairs _ _ _ _) as [vd|] eqn:Hvd; simpl.
      * split.
        -- case_bool_decide; [|done].
           by destruct (foldl Visual.count_style _ _).
        -- intros [_ [?|(p & [= <-] & ?)]]; congruence.
      * split; [|done]. intros _. split; [lia|]. right. by exists pngPaths.
    + split; [|done]. intros _. split; [lia|by left].
Qed.

(** X10. The loop of the visual deduplicator over a Group mapping throws
    exactly when, for some icon of the mapping in two styles or more, the
    renderer fails on one of its files or, all its files being rendered, the
    oracle fails on one of its pairs of scratch files.  An icon in one style
    is neither rendered nor compared.  (The loop is what stands between the
    grouper and the writing of the report.) *)
Theorem visual_loop_fails_iff groups :
  Visual.processGroups path_join TEMP_DIR renderSvgToPng visuallyCompare groups
  = None ↔
  ∃ iconName variants,
    (iconName, variants) ∈ groups ∧
    2 ≤ length variants ∧
    ((∃ style svgPath, (style, svgPath) ∈ variants ∧
                       renderSvgToPng svgPath (png iconName style) = None) ∨
     ((∀ style svgPath, (style, svgPath) ∈ variants →
                        is_Some (renderSvgToPng svgPath (png iconName style))) ∧
      ∃ a b, (a, b) ∈ ordered_pairs (Js.keys variants) ∧
             visuallyCompare (png iconName a) (png iconName b) = None)).
Proof.
  unfold Visual.processGroups.
  rewrite (for_of_None_iff _
    (λ item, 2 ≤ length item.2 ∧
       (renderAll item.1 item.2 = None ∨
        ∃ pngPaths, renderAll item.1 item.2 = Some pngPaths ∧
          Visual.compare_pairs visuallyCompare pngPaths item.2 [] = None)));
    [|intros st [iconName variants]; apply visual_process_icon_None].
  split.
  - intros ([iconName variants] & Hin & Hlen & Hbad). simpl in *.
    exists iconName, variants. split_and!; [done..|].
    destruct Hbad as [Hr|(pngPaths & Hr & Hc)].
    + left. by apply renderAll_None.
    + right. split.
      * intros style svg Hs.
        destruct (renderSvgToPng svg (png iconName style)) eqn:Hrs; [done|].
        assert (renderAll iconName variants = None) as Hn
          by (apply renderAll_None; eauto).
        congruence.
      * apply compare_pairs_None in Hc as (a & b & Hab & Hj).
        exists a, b. split; [done|].
        destruct (ordered_pairs_in _ _ _ Hab).
        by rewrite <-(judgment_scratch _ _ _ _ _ Hr).
  - intros (iconName & variants & Hin & Hlen & Hbad).
    exists (iconName, variants). split; [done|]. split; [done|]. simpl.
    destruct Hbad as [Hr|[Hall (a & b & Hab & Hj)]].
    + left. by apply renderAll_None.
    + destruct (renderAll iconName variants) as [pngPaths|] eqn:Hr.
      * right. exists pngPaths. split; [done|].
        apply compare_pairs_None. exists a, b. split; [done|].
        destruct (ordered_pairs_in _ _ _ Hab).
        by rewrite (judgment_scratch _ _ _ _ _ Hr).
      * by left.
Qed.

(** X11. An icon has an entry in the visual report exactly when the oracle
    judges equal the scratch files of two of its styles; and the styles of
    an entry, kept or removed, are exactly the styles of such pairs. *)
Theorem visual_entry_iff_equal_pair run :
  Visual.processVisualDeduplication path_join ICON_DIR TEMP_DIR readdirSync
    renderSvgToPng visuallyCompare = Some run →
  (∀ iconName,
     iconName ∈ Js.keys (Visual.report run) ↔
     ∃ variants,
       (iconName, variants) ∈ groupIconsByName path_join ICON_DIR readdirSync ∧
       scratch_equal path_join TEMP_DIR visuallyCompare iconName (Js.keys variants)
         ≠ []) ∧
  (∀ iconName d,
     (iconName, d) ∈ Visual.report run →
     ∃ variants,
       (iconName, variants) ∈ groupIconsByName path_join ICON_DIR readdirSync ∧
       ∀ style,
         Visual.keep d = Some style ∨ style ∈ Visual.remove d ↔
         ∃ other,
           (style, other) ∈ scratch_equal path_join TEMP_DIR visuallyCompare
                              iconName (Js.keys variants) ∨
           (other, style) ∈ scratch_equal path_join TEMP_DIR visuallyCompare
                              iconName (Js.keys variants)).
Proof.
  intros Hrun.
  assert (∀ iconName d,
     (iconName, d) ∈ Visual.report run →
     ∃ variants vd,
       (iconName, variants) ∈ groupIconsByName path_join ICON_DIR readdirSync ∧
       0 < length vd ∧ d = visual_entry (Visual.allInvolved vd) ∧
       ∀ style, style ∈ Visual.allInvolved vd ↔
         ∃ other,
           (style, other) ∈ scratch_equal path_join TEMP_DIR visuallyCompare
                              iconName (Js.keys variants) ∨
           (other, style) ∈ scratch_equal path_join TEMP_DIR visuallyCompare
                              iconName (Js.keys variants)) as Hentry.
  { intros iconName d Hin.
    destruct (visual_report_entry _ _ _ _ _ _ _ _ _ Hrun Hin)
      as (variants & pngPaths & vd & Hg & _ & Hr & Hvd & Hlen & ->).
    exists variants, vd. split_and!; [done..|].
    intros style. rewrite (allInvolved_involved _ _ _ _ _ Hvd).
    unfold involved. by rewrite (equal_pairs_scratch _ _ _ Hr). }
  split.
  - intros iconName. split.
    + intros ([icon' d] & -> & Hin)%list_elem_of_fmap. simpl.
      destruct (Hentry _ _ Hin) as (variants & vd & Hg & Hlen & _ & Hiff).
      exists variants. split; [done|].
      destruct vd as [|[k m] vd'] eqn:Hvd; [simpl in Hlen; lia|]. rewrite <-Hvd in *.
      assert (k ∈ Visual.allInvolved vd) as Hk.
      { apply allInvolved_elem. left. rewrite Hvd. left. }
      apply Hiff in Hk as (other & [Hp|Hp]); intros Hnil; rewrite Hnil in Hp;
        by apply elem_of_nil in Hp.
    + intros (variants & Hg & Hne).
      destruct (scratch_equal _ _ _ _ _) as [|[a b] pairs] eqn:Hpairs; [done|].
      assert ((a, b) ∈ ordered_pairs (Js.keys variants)) as Hab.
      { assert ((a, b) ∈ scratch_equal path_join TEMP_DIR visuallyCompare iconName
                           (Js.keys variants)) as Hin by (rewrite Hpairs; left).
        by apply list_elem_of_filter in Hin as [_ ?]. }
      assert (2 ≤ length variants) as Hlen.
      { pose proof (grouped_variants_wf _ _ _ _ _ Hg) as [Hnd _].
        destruct (ordered_pairs_elem _ _ _ Hnd Hab) as (Ha & Hb & Hne').
        pose proof (two_elements _ _ _ Ha Hb Hne') as Hl.
        unfold Js.keys in Hl. rewrite length_fmap in Hl. lia. }
      destruct (for_of_success _ _ _ _ _ Hrun Hg) as (st & st' & Hstep).
      apply visual_process_icon_success in Hstep as (pngPaths & vd & Hr & Hvd);
        [|done].
      pose proof Hrun as Hrun'.
      apply visual_processGroups_spec in Hrun' as (Hrep & _);
        [|apply wf_groupIconsByName].
      rewrite Hrep. apply list_elem_of_fmap.
      exists (iconName, visual_entry (Visual.allInvolved vd)). split; [done|].
      apply list_elem_of_omap. exists (iconName, variants). split; [done|].
      unfold visual_icon_entry. rewrite bool_decide_eq_false_2 by (simpl; lia).
      cbn [fst snd]. rewrite Hr. cbn [mbind option_bind]. rewrite Hvd.
      cbn [mbind option_bind]. rewrite bool_decide_eq_true_2; [done|].
      assert (a ∈ Visual.allInvolved vd) as Ha.
      { apply (allInvolved_involved _ _ _ _ _ Hvd). exists b. left.
        rewrite (equal_pairs_scratch _ _ _ Hr), Hpairs. left. }
      apply allInvolved_elem in Ha.
      destruct vd; [|simpl; lia].
      destruct Ha as [?%elem_of_nil|(? & ?%elem_of_nil & _)]; done.
  - intros iconName d Hin.
    destruct (Hentry _ _ Hin) as (variants & vd & Hg & Hlen & -> & Hiff).
    exists variants. split; [done|]. intros style. rewrite <-Hiff. simpl.
    rewrite elem_of_cluster_remove. split.
    + intros [Hk|[? _]]; [by apply cluster_keep_in|done].
    + intros Hs. destruct (decide (cluster_keep (Visual.allInvolved vd) = Some style));
        [by left|]. right. split; [done|congruence].
Qed.

End VisualRunFacts.

Section VisualCounters.
Variable path_join : list string → string.
Variable ICON_DIR TEMP_DIR : string.
Variable readdirSync : string → option (list string).
Variable renderSvgToPng : string → string → option unit.
Variable visuallyCompare : string → string → option bool.

Local Abbreviation process_icon :=
  (Visual.process_icon path_join TEMP_DIR renderSvgToPng visuallyCompare).
Local Abbreviation icon_entry :=
  (visual_icon_entry path_join TEMP_DIR renderSvgToPng visuallyCompare).

Lemma visual_affected_step st0 st1 item :
  process_icon st0 item = Some st1 →
  Visual.iconsWithDuplicates st1
  = Visual.iconsWithDuplicates st0 + length (option_list (icon_entry item)).
Proof.
  destruct item as [iconName variants].
  unfold Visual.process_icon, visual_icon_entry. cbn [fst snd].
  case_bool_decide.
  { intros [= <-]. simpl. lia. }
  destruct (Visual.renderAll _ _ _ _ _) as [pngPaths|]; simpl; [|done].
  destruct (Visual.compare_pairs _ _ _ _) as [vd|]; simpl; [|done].
  case_bool_decide.
  - destruct (foldl Visual.count_style _ _) as [total tallies].
    intros [= <-]. simpl. lia.
  - intros [= <-]. simpl. lia.
Qed.

Lemma visual_affected_run groups st0 st :
  Js.for_of process_icon st0 groups = Some st →
  Visual.iconsWithDuplicates st
  = Visual.iconsWithDuplicates st0 + length (omap icon_entry groups).
Proof.
  revert st0. induction groups as [|item groups IH]; intros st0.
  - simpl. intros [= <-]. lia.
  - rewrite for_of_cons.
    destruct (process_icon st0 item) as [st1|] eqn:Hstep; simpl; [|done].
    intros Hrun%IH. rewrite Hrun, (visual_affected_step _ _ _ Hstep).
    destruct (icon_entry item); simpl.
    + by rewrite <-Nat.add_assoc.
    + by rewrite Nat.add_0_r.
Qed.

(** X12. The counters of a visual run: the icons counted are the icon
    names of the Group mapping, the icons counted as having duplicates are
    the entries of the report, and the report has at most one entry for an
    icon name, in the order of the Group mapping. *)
Theorem visual_run_counters run :
  Visual.processVisualDeduplication path_join ICON_DIR TEMP_DIR readdirSync
    renderSvgToPng visuallyCompare = Some run →
  Visual.totalIcons run
    = length (groupIconsByName path_join ICON_DIR readdirSync) ∧
  Visual.iconsWithDuplicates run = length (Visual.report run) ∧
  NoDup (Js.keys (Visual.report run)) ∧
  Js.keys (Visual.report run)
    `sublist_of` Js.keys (groupIconsByName path_join ICON_DIR readdirSync).
Proof.
  intros Hrun. pose proof Hrun as Hrun'.
  apply visual_processGroups_spec in Hrun' as (Hrep & Hicons & _);
    [|apply wf_groupIconsByName].
  apply visual_affected_run in Hrun. rewrite Hrep.
  split_and!; [done|done| |apply visual_entries_keys].
  eapply sublist_NoDup; [|apply visual_entries_keys]. apply wf_groupIconsByName.
Qed.

End VisualCounters.

(** ** The deleters: what a run deletes, counts and prints *)

Lemma unlink_all_account paths st st' :
  Js.for_of Deleter.unlink_if_exists st paths = Some st' →
  ∃ deleted,
    Deleter.printed st' = Deleter.printed st ++ (Deleter.FileDeleted <$> deleted) ∧
    Deleter.totalDeleted st' = Deleter.totalDeleted st + length deleted ∧
    NoDup deleted ∧
    (∀ p, p ∈ deleted ↔ p ∈ paths ∧ is_Some (Deleter.files st !! p)) ∧
    size (Deleter.files st') + length deleted = size (Deleter.files st).
Proof.
  revert st. induction paths as [|q paths IH]; intros st.
  - simpl. intros [= <-]. exists []. simpl. rewrite app_nil_r, !Nat.add_0_r.
    split_and!; [done|done|apply NoDup_nil_2| |done].
    intros p. split; [by intros ?%elem_of_nil|by intros [?%elem_of_nil _]].
  - rewrite for_of_cons.
    destruct (Deleter.unlink_if_exists st q) as [st1|] eqn:Hu; simpl; [|done].
    intros (deleted & Hlog & Hcount & Hnd & Hin & Hsize)%IH.
    pose proof (files_unlink _ _ _ Hu) as Hf.
    unfold Deleter.unlink_if_exists in Hu.
    destruct (Deleter.files st !! q) as [[text|]|] eqn:Hq; [|done|].
    + injection Hu as <-. simpl in *.
      exists (q :: deleted). rewrite Hlog, Hcount, <-app_assoc. simpl.
      split_and!; [done|lia| | |].
      * apply NoDup_cons. split; [|done]. rewrite Hin, lookup_delete_eq.
        by intros [_ [? ?]].
      * intros p. rewrite !elem_of_cons, Hin. destruct (decide (p = q)) as [->|Hne].
        -- rewrite Hq. split; [intros _; by split; [left|]|by left].
        -- rewrite lookup_delete_ne by done. split.
           ++ intros [?|[? ?]]; [done|]. by split; [right|].
           ++ intros [[?|?] ?]; [done|]. by right.
      * rewrite map_size_delete_Some in Hsize by (by rewrite Hq).
        assert (size (Deleter.files st) ≠ 0) by (by eapply map_size_ne_0_lookup_2).
        lia.
    + injection Hu as <-.
      exists deleted. split_and!; [done..| |done].
      intros p. rewrite Hin, elem_of_cons. split.
      * intros [? ?]. by split; [right|].
      * intros [[->|?] Hs]; [|done]. rewrite Hq in Hs. by destruct Hs.
Qed.

Section DeleterAccount.
Variable path_join : list string → string.
Variable ICON_DIR : string.
Variable JSON_parse : string → option Js.json.

Lemma deleter_account fs paths st :
  Js.for_of Deleter.unlink_if_exists (Deleter.start fs) paths = Some st →
  ∃ deleted,
    Deleter.finish st
    = (Deleter.files st,
       (Deleter.FileDeleted <$> deleted) ++ [Deleter.TotalDeleted (length deleted)]) ∧
    NoDup deleted ∧
    (∀ p, p ∈ deleted ↔ is_Some (fs !! p) ∧ Deleter.files st !! p = None) ∧
    (∀ p, Deleter.files st !! p = None ∨ Deleter.files st !! p = fs !! p) ∧
    size (Deleter.files st) + length deleted = size fs.
Proof.
  intros Hrun. destruct (unlink_all_account _ _ _ Hrun)
    as (deleted & Hlog & Hcount & Hnd & Hin & Hsize).
  simpl in *.
  exists deleted. split_and!; [|done| | |done].
  - unfold Deleter.finish. by rewrite Hlog, Hcount.
  - intros p. rewrite Hin, (files_unlink_all _ _ _ _ Hrun). simpl.
    case_decide; split; try tauto.
    intros [Hs Hn]. rewrite Hn in Hs. by destruct Hs.
  - intros p. rewrite (files_unlink_all _ _ _ _ Hrun). simpl. case_decide; auto.
Qed.

(** X13. What a run of a deleter does to the files, once it has read its
    report and ended: it prints one line for each file it deleted, each
    file once, and then their number; the files it deleted are those that
    were there before and are not after; every other file is as it was (no
    file is added or changed); and the number of files went down by the
    number printed. *)
Theorem deleter_accounting :
  (∀ fs reportPath fs' log,
     is_Some (fs !! reportPath) →
     Deleter.deleteFilesByHashReport path_join ICON_DIR JSON_parse fs reportPath
       = Some (fs', log) →
     ∃ deleted,
       log = (Deleter.FileDeleted <$> deleted)
             ++ [Deleter.TotalDeleted (length deleted)] ∧
       NoDup deleted ∧
       (∀ p, p ∈ deleted ↔ is_Some (fs !! p) ∧ fs' !! p = None) ∧
       (∀ p, fs' !! p = None ∨ fs' !! p = fs !! p) ∧
       size fs' + length deleted = size fs) ∧
  (∀ fs reportPath fs' log,
     is_Some (fs !! reportPath) →
     Deleter.deleteFilesByVisualReport path_join ICON_DIR JSON_parse fs reportPath
       = Some (fs', log) →
     ∃ deleted,
       log = (Deleter.FileDeleted <$> deleted)
             ++ [Deleter.TotalDeleted (length deleted)] ∧
       NoDup deleted ∧
       (∀ p, p ∈ deleted ↔ is_Some (fs !! p) ∧ fs' !! p = None) ∧
       (∀ p, fs' !! p = None ∨ fs' !! p = fs !! p) ∧
       size fs' + length deleted = size fs).
Proof.
  split; intros fs reportPath fs' log [entry Hentry].
  - unfold Deleter.deleteFilesByHashReport. rewrite Hentry.
    destruct (Deleter.readFileSync entry) as [text|]; simpl; [|done].
    destruct (JSON_parse text) as [report|]; simpl; [|done].
    rewrite deleteByHashReport_targets.
    destruct (hash_report_targets _ _ report) as [paths|]; simpl; [|done].
    destruct (Js.for_of _ _ paths) as [st|] eqn:Hrun; simpl; [|done].
    destruct (deleter_account fs paths st Hrun) as (deleted & Hfin & Hrest).
    rewrite Hfin. intros [= <- <-]. by exists deleted.
  - unfold Deleter.deleteFilesByVisualReport. rewrite Hentry.
    destruct (Deleter.readFileSync entry) as [text|]; simpl; [|done].
    destruct (JSON_parse text) as [report|]; simpl; [|done].
    rewrite deleteByVisualReport_targets.
    destruct (visual_report_targets _ _ report) as [paths|]; simpl; [|done].
    destruct (Js.for_of _ _ paths) as [st|] eqn:Hrun; simpl; [|done].
    destruct (deleter_account fs paths st Hrun) as (deleted & Hfin & Hrest).
    rewrite Hfin. intros [= <- <-]. by exists deleted.
Qed.

End DeleterAccount.

(** ** The deleters: the two shapes of an entry, and written reports *)

Lemma mapM_cons_eq {A B} (f : A → option B) x l :
  mapM f (x :: l) = y ← f x; k ← mapM f l; Some (y :: k).
Proof. done. Qed.

Lemma mapM_app_eq {A B} (f : A → option B) l1 l2 :
  mapM f (l1 ++ l2) = k1 ← mapM f l1; k2 ← mapM f l2; Some (k1 ++ k2).
Proof.
  induction l1 as [|x l1 IH]; simpl.
  - by destruct (mapM f l2).
  - destruct (f x); simpl; [|done]. rewrite IH.
    destruct (mapM f l1); simpl; [|done]. by destruct (mapM f l2).
Qed.

Lemma mapM_fmap_Some {A B C} (g : A → B) (f : B → option C) (h : A → C) l :
  (∀ x, f (g x) = Some (h x)) → mapM f (g <$> l) = Some (h <$> l).
Proof.
  intros Hf. induction l as [|x l IH]; [done|].
  rewrite !fmap_cons, mapM_cons_eq, Hf, IH. done.
Qed.

Section DeleterShapes.
Variable path_join : list string → string.
Variable ICON_DIR : string.
Variable JSON_parse : string → option Js.json.

Local Abbreviation target := (Deleter.target path_join ICON_DIR).
Local Abbreviation targets_of_group := (group_targets path_join ICON_DIR).
Local Abbreviation targets_of_entry := (hash_entry_targets path_join ICON_DIR).

Lemma groups_targets_merged iconName groups removes :
  mapM Deleter.removals groups = Some removes →
  mjoin <$> mapM (targets_of_group iconName) groups
  = mapM (target iconName) (mjoin removes).
Proof.
  revert removes. induction groups as [|g groups IH]; intros removes.
  - simpl. by intros [= <-].
  - rewrite !mapM_cons_eq.
    destruct (Deleter.removals g) as [r|] eqn:Hg; simpl; [|done].
    destruct (mapM Deleter.removals groups) as [rs|]; simpl; [|done].
    intros [= <-]. simpl. rewrite mapM_app_eq, <-(IH rs eq_refl).
    assert (targets_of_group iconName g = mapM (target iconName) r) as ->.
    { unfold group_targets. by rewrite Hg. }
    destruct (mapM (target iconName) r); simpl; [|done].
    by destruct (mapM (targets_of_group iconName) groups).
Qed.

Lemma entry_targets_merged iconName entry entry' :
  merged_entry entry = Some entry' →
  targets_of_entry (iconName, entry) = targets_of_group iconName entry'.
Proof.
  unfold hash_entry_targets. simpl.
  assert (∀ e, mjoin <$> mapM (targets_of_group iconName) [e]
               = targets_of_group iconName e) as Hone.
  { intros e. rewrite mapM_cons_eq.
    destruct (targets_of_group iconName e); simpl; [|done].
    by rewrite app_nil_r. }
  destruct entry as [| | | |groups|fields]; simpl;
    try (intros [= <-]; first [done | apply Hone]).
  destruct (mapM Deleter.removals groups) as [removes|] eqn:Hrem; simpl; [|done].
  intros [= <-]. by rewrite (groups_targets_merged _ _ _ Hrem).
Qed.

Lemma items_targets_merged items items' :
  Forall2 (λ e e' : string * Js.json,
             e'.1 = e.1 ∧ merged_entry e.2 = Some e'.2) items items' →
  mapM targets_of_entry items
  = mapM (λ item, targets_of_group item.1 item.2) items'.
Proof.
  intros HF.
  induction HF as [|[k e] [k' e'] items items' [Hk He] _ IH]; [done|].
  simpl in Hk, He. subst k'. rewrite !mapM_cons_eq, IH.
  by rewrite (entry_targets_merged _ _ _ He).
Qed.

(** X14. The hash deleter takes both shapes of an entry and they come to
    the same: on a report none of whose entries is an array it does what
    the visual deleter does; and on a report with arrays of groups it does
    what the visual deleter does on the report where each array is
    replaced by one object holding the removals of its groups one after
    another. *)
Theorem deleters_agree :
  (∀ fs report,
     no_array_entry report →
     Deleter.deleteByHashReport path_join ICON_DIR fs report
     = Deleter.deleteByVisualReport path_join ICON_DIR fs report) ∧
  (∀ fs fields fields',
     Forall2 (λ e e' : string * Js.json,
                e'.1 = e.1 ∧ merged_entry e.2 = Some e'.2) fields fields' →
     Deleter.deleteByHashReport path_join ICON_DIR fs (Js.JObject fields)
     = Deleter.deleteByVisualReport path_join ICON_DIR fs (Js.JObject fields')).
Proof.
  split.
  - intros fs report Hno.
    rewrite deleteByHashReport_targets, deleteByVisualReport_targets.
    unfold hash_report_targets, visual_report_targets.
    destruct (Deleter.entries report) as [items|] eqn:Hitems; simpl; [|done].
    rewrite (items_targets_merged items items); [done|].
    specialize (Hno items Hitems). clear Hitems.
    induction Hno as [|[k e] items He _ IH].
    + constructor.
    + constructor; [|done]. split; [done|]. simpl in *.
      destruct e as [| | | |groups|fields]; try done. by destruct (He groups).
  - intros fs fields fields' HF.
    rewrite deleteByHashReport_targets, deleteByVisualReport_targets.
    unfold hash_report_targets, visual_report_targets. simpl.
    by rewrite (items_targets_merged fields fields').
Qed.

Lemma target_strings iconName styles :
  mapM (target iconName) (Js.JString <$> styles)
  = Some ((λ style, path_join [ICON_DIR; style; iconName +:+ ".svg"]) <$> styles).
Proof. by apply mapM_fmap_Some. Qed.

Lemma hash_written_targets r :
  hash_report_targets path_join ICON_DIR (Hash.report_json r)
  = Some (mjoin ((λ e, (λ style, path_join [ICON_DIR; style; e.1 +:+ ".svg"])
                         <$> Hash.remove e.2) <$> r)).
Proof.
  unfold hash_report_targets, Hash.report_json. simpl.
  rewrite (mapM_fmap_Some _ _
             (λ e, (λ style, path_join [ICON_DIR; style; e.1 +:+ ".svg"])
                     <$> Hash.remove e.2)); [done|].
  intros [iconName d]. unfold hash_entry_targets, group_targets. simpl.
  rewrite target_strings. simpl. by rewrite app_nil_r.
Qed.

Lemma visual_written_targets r :
  visual_report_targets path_join ICON_DIR (Visual.report_json r)
  = Some (mjoin ((λ e, (λ style, path_join [ICON_DIR; style; e.1 +:+ ".svg"])
                         <$> Visual.remove e.2) <$> r)).
Proof.
  unfold visual_report_targets, Visual.report_json. simpl.
  rewrite (mapM_fmap_Some _ _
             (λ e, (λ style, path_join [ICON_DIR; style; e.1 +:+ ".svg"])
                     <$> Visual.remove e.2)); [done|].
  intros [iconName d]. unfold group_targets, Visual.entry_json. simpl.
  destruct (Visual.keep d); simpl; by rewrite target_strings.
Qed.

Lemma elem_of_written_targets {D} (remove : D → list string) (r : Js.obj D) p :
  p ∈ mjoin ((λ e, (λ style, path_join [ICON_DIR; style; e.1 +:+ ".svg"])
                     <$> remove e.2) <$> r)
  ↔ ∃ iconName d style,
      (iconName, d) ∈ r ∧ style ∈ remove d ∧
      p = path_join [ICON_DIR; style; iconName +:+ ".svg"].
Proof.
  rewrite list_elem_of_join. split.
  - intros (l & Hp & ([iconName d] & -> & He)%list_elem_of_fmap).
    apply list_elem_of_fmap in Hp as (style & -> & Hs).
    by exists iconName, d, style.
  - intros (iconName & d & style & He & Hs & ->).
    eexists. split; [|apply list_elem_of_fmap; by exists (iconName, d)].
    apply list_elem_of_fmap. by exists style.
Qed.

Lemma hash_written_deletion fs reportPath text r :
  fs !! reportPath = Some (Deleter.File text) →
  JSON_parse text = Some (Hash.report_json r) →
  (∀ iconName d style,
     (iconName, d) ∈ r → style ∈ Hash.remove d →
     fs !! path_join [ICON_DIR; style; iconName +:+ ".svg"]
     ≠ Some Deleter.Directory) →
  ∃ fs' log,
    Deleter.deleteFilesByHashReport path_join ICON_DIR JSON_parse fs reportPath
      = Some (fs', log) ∧
    (∀ p, fs' !! p = None ↔
          fs !! p = None ∨
          ∃ iconName d style,
            (iconName, d) ∈ r ∧ style ∈ Hash.remove d ∧
            p = path_join [ICON_DIR; style; iconName +:+ ".svg"]) ∧
    (∀ p v, fs' !! p = Some v → fs !! p = Some v).
Proof.
  intros Htext Hparse Hfiles.
  unfold Deleter.deleteFilesByHashReport. rewrite Htext. simpl.
  rewrite Hparse. simpl.
  rewrite deleteByHashReport_targets, hash_written_targets. simpl.
  destruct (unlink_all_files
              (mjoin ((λ e, (λ style, path_join [ICON_DIR; style; e.1 +:+ ".svg"])
                              <$> Hash.remove e.2) <$> r))
              (Deleter.start fs)) as [st Hrun].
  { intros p (iconName & d & style & Hin & Hs & ->)%elem_of_written_targets.
    simpl. by eapply Hfiles. }
  rewrite Hrun. simpl. eexists _, _. split; [done|]. split.
  - intros p. rewrite (files_unlink_all _ _ _ _ Hrun),
      <-(elem_of_written_targets Hash.remove).
    simpl. case_decide; [tauto|]. tauto.
  - intros p v. rewrite (files_unlink_all _ _ _ _ Hrun). simpl. by case_decide.
Qed.

Lemma visual_written_deletion fs reportPath text r :
  fs !! reportPath = Some (Deleter.File text) →
  JSON_parse text = Some (Visual.report_json r) →
  (∀ iconName d style,
     (iconName, d) ∈ r → style ∈ Visual.remove d →
     fs !! path_join [ICON_DIR; style; iconName +:+ ".svg"]
     ≠ Some Deleter.Directory) →
  ∃ fs' log,
    Deleter.deleteFilesByVisualReport path_join ICON_DIR JSON_parse fs reportPath
      = Some (fs', log) ∧
    (∀ p, fs' !! p = None ↔
          fs !! p = None ∨
          ∃ iconName d style,
            (iconName, d) ∈ r ∧ style ∈ Visual.remove d ∧
            p = path_join [ICON_DIR; style; iconName +:+ ".svg"]) ∧
    (∀ p v, fs' !! p = Some v → fs !! p = Some v).
Proof.
  intros Htext Hparse Hfiles.
  unfold Deleter.deleteFilesByVisualReport. rewrite Htext. simpl.
  rewrite Hparse. simpl.
  rewrite deleteByVisualReport_targets, visual_written_targets. simpl.
  destruct (unlink_all_files
              (mjoin ((λ e, (λ style, path_join [ICON_DIR; style; e.1 +:+ ".svg"])
                              <$> Visual.remove e.2) <$> r))
              (Deleter.start fs)) as [st Hrun].
  { intros p (iconName & d & style & Hin & Hs & ->)%elem_of_written_targets.
    simpl. by eapply Hfiles. }
  rewrite Hrun. simpl. eexists _, _. split; [done|]. split.
  - intros p. rewrite (files_unlink_all _ _ _ _ Hrun),
      <-(elem_of_written_targets Visual.remove).
    simpl. case_decide; [tauto|]. tauto.
  - intros p v. rewrite (files_unlink_all _ _ _ _ Hrun). simpl. by case_decide.
Qed.


End DeleterShapes.

(** ** The marker: names *)

Lemma str_app_cons c a b : String c a +:+ b = String c (a +:+ b).
Proof. done. Qed.

Lemma str_app_nil_r s : s +:+ "" = s.
Proof. induction s as [|c s IH]; [done|]. by rewrite str_app_cons, IH. Qed.

Lemma str_app_assoc a b c : (a +:+ b) +:+ c = a +:+ (b +:+ c).
Proof. induction a as [|x a IH]; [done|]. by rewrite !str_app_cons, IH. Qed.

Lemma str_map_app f a b : Js.str_map f (a +:+ b) = Js.str_map f a +:+ Js.str_map f b.
Proof.
  induction a as [|x a IH]; [done|]. rewrite str_app_cons. simpl.
  by rewrite IH, str_app_cons.
Qed.

Lemma str_filter_app p a b :
  Js.str_filter p (a +:+ b) = Js.str_filter p a +:+ Js.str_filter p b.
Proof.
  induction a as [|x a IH]; [done|]. rewrite str_app_cons. simpl.
  rewrite IH. by destruct (p x).
Qed.

Lemma str_all_filter p s : str_all p (Js.str_filter p s) = true.
Proof.
  induction s as [|c s IH]; [done|]. simpl.
  destruct (p c) eqn:Hc; [|done]. simpl. by rewrite Hc.
Qed.

Lemma str_all_impl (p q : Ascii.ascii → bool) s :
  (∀ c, p c = true → q c = true) → str_all p s = true → str_all q s = true.
Proof.
  intros Hpq. induction s as [|c s IH]; [done|]. simpl.
  intros [Hc Hs]%andb_prop. by rewrite (Hpq c Hc), IH.
Qed.

Lemma str_filter_all p s : str_all p s = true → Js.str_filter p s = s.
Proof.
  induction s as [|c s IH]; [done|]. simpl.
  intros [Hc Hs]%andb_prop. by rewrite Hc, IH.
Qed.

Lemma str_filter_none p s :
  str_all (λ c, negb (p c)) s = true → Js.str_filter p s = "".
Proof.
  induction s as [|c s IH]; [done|]. simpl.
  intros [Hc Hs]%andb_prop. apply negb_true_iff in Hc. by rewrite Hc, IH.
Qed.

Lemma str_map_all (f : Ascii.ascii → Ascii.ascii) p s :
  (∀ c, p c = true → f c = c) → str_all p s = true → Js.str_map f s = s.
Proof.
  intros Hf. induction s as [|c s IH]; [done|]. simpl.
  intros [Hc Hs]%andb_prop. by rewrite (Hf c Hc), IH.
Qed.

Lemma str_all_rev_app p a b :
  str_all p a = true → str_all p b = true → str_all p (String.rev_app a b) = true.
Proof.
  revert b. induction a as [|c a IH]; intros b; [done|]. simpl.
  intros [Hc Ha]%andb_prop Hb. apply IH; [done|]. simpl. by rewrite Hc, Hb.
Qed.

Lemma rev_app_rev_app a b c :
  String.rev_app (String.rev_app a b) c = String.rev_app b (a +:+ c).
Proof.
  revert b c. induction a as [|x a IH]; intros b c; [done|]. simpl.
  by rewrite IH, str_app_cons.
Qed.

Lemma str_drop_while_all p s :
  str_all (λ c, negb (p c)) s = true → Js.str_drop_while p s = s.
Proof.
  destruct s as [|c s]; [done|]. simpl.
  intros [Hc _]%andb_prop. apply negb_true_iff in Hc. by rewrite Hc.
Qed.

Lemma trim_no_space s :
  str_all (λ c, negb (Js.is_space c)) s = true → Js.trim s = s.
Proof.
  intros Hs. unfold Js.trim. rewrite (str_drop_while_all _ s Hs).
  rewrite str_drop_while_all by by apply str_all_rev_app.
  unfold String.rev. rewrite rev_app_rev_app. simpl. apply str_app_nil_r.
Qed.

Lemma word_char_not_space c :
  Js.is_word_char c = true → negb (Js.is_space c) = true.
Proof. by destruct c as [[] [] [] [] [] [] [] []]. Qed.

Lemma word_char_lower c : Js.is_word_char c = true → Js.lower_char c = c.
Proof. by destruct c as [[] [] [] [] [] [] [] []]. Qed.

Lemma prefix_app_eq p s : String.prefix p s = true → ∃ t, s = p +:+ t.
Proof.
  revert s. induction p as [|a p IH]; intros s; [by exists s|].
  destruct s as [|b s]; [done|]. simpl.
  destruct (Ascii.ascii_dec a b) as [->|]; [|done].
  intros [t ->]%IH. exists t. by rewrite str_app_cons.
Qed.

Lemma prefix_app p t : String.prefix p (p +:+ t) = true.
Proof.
  induction p as [|a p IH]; [by destruct t|]. rewrite str_app_cons. simpl.
  by destruct (Ascii.ascii_dec a a).
Qed.

Lemma str_filter_cons_nil p c s :
  Js.str_filter p (String c s) = "" → p c = false ∧ Js.str_filter p s = "".
Proof. simpl. by destruct (p c). Qed.

Lemma prefix_cons a p c s :
  String.prefix (String a p) (String c s) = true → a = c ∧ String.prefix p s = true.
Proof. simpl. by destruct (Ascii.ascii_dec a c). Qed.

Lemma prefix_nil s : String.prefix "" s = true.
Proof. by destruct s. Qed.

Lemma remove_all_from_cons pattern skip c s :
  Js.remove_all_from pattern skip (String c s)
  = match skip with
    | S k => Js.remove_all_from pattern k s
    | 0 =>
        if negb (String.eqb pattern "") && String.prefix pattern (String c s)
        then Js.remove_all_from pattern (String.length pattern - 1) s
        else String c (Js.remove_all_from pattern 0 s)
    end.
Proof. done. Qed.

(** Removing the matches of a pattern that has no character of a class
    does not change what the class keeps. *)
Lemma filter_remove_all_from p pattern :
  Js.str_filter p pattern = "" →
  ∀ s q, String.prefix q s = true → Js.str_filter p q = "" →
         Js.str_filter p (Js.remove_all_from pattern (String.length q) s)
         = Js.str_filter p s.
Proof.
  intros Hpat. induction s as [|c s IH]; intros q Hq Hfq; [done|].
  rewrite remove_all_from_cons. destruct q as [|b q].
  - cbn [String.length].
    destruct (negb (String.eqb pattern "") && String.prefix pattern (String c s))
      eqn:Hm.
    + apply andb_prop in Hm as [Hne Hm].
      destruct pattern as [|a pattern]; [done|].
      apply prefix_cons in Hm as [-> Hm].
      apply str_filter_cons_nil in Hpat as [Hc Hpat'].
      cbn [String.length]. rewrite Nat.sub_1_r. cbn [Nat.pred].
      rewrite (IH pattern Hm Hpat'). simpl. by rewrite Hc.
    + specialize (IH "" (prefix_nil s) eq_refl). cbn [String.length] in IH.
      simpl. by rewrite IH.
  - apply prefix_cons in Hq as [-> Hq].
    apply str_filter_cons_nil in Hfq as [Hc Hfq].
    cbn [String.length]. rewrite (IH q Hq Hfq). simpl. by rewrite Hc.
Qed.

Lemma filter_remove_all p pattern s :
  Js.str_filter p pattern = "" →
  Js.str_filter p (Js.remove_all pattern s) = Js.str_filter p s.
Proof.
  intros Hpat. apply (filter_remove_all_from p pattern Hpat s "" (prefix_nil s) eq_refl).
Qed.

Lemma normalizeName_filter name :
  Marker.normalizeName name = Js.str_filter Js.is_word_char (Js.toLowerCase name).
Proof.
  unfold Marker.normalizeName. rewrite filter_remove_all by done.
  apply trim_no_space.
  apply (str_all_impl Js.is_word_char); [apply word_char_not_space|].
  apply str_all_filter.
Qed.

(** X16. The name under which the marker looks a component set up in the
    report, for names made of ASCII characters and warning signs: it is the
    name in lower case with every character other than a lower-case letter,
    a digit or an underscore taken out (removing the warning sign and
    trimming change nothing).  So it has only such characters, normalising
    twice is normalising once, the name of a concatenation is the
    concatenation of the names, and a warning sign appended to a name does
    not change it. *)
Theorem normalizeName_keeps_word_chars name other :
  plain_name name → plain_name other →
  Marker.normalizeName name
  = Js.str_filter Js.is_word_char (Js.toLowerCase name) ∧
  str_all Js.is_word_char (Marker.normalizeName name) = true ∧
  Marker.normalizeName (Marker.normalizeName name) = Marker.normalizeName name ∧
  Marker.normalizeName (name +:+ other)
  = Marker.normalizeName name +:+ Marker.normalizeName other ∧
  Marker.normalizeName (name +:+ " " +:+ Marker.WARNING)
  = Marker.normalizeName name.
Proof.
  intros _ _.
  split; [apply normalizeName_filter|].
  split; [rewrite normalizeName_filter; apply str_all_filter|].
  split; [|split].
  - rewrite !normalizeName_filter. unfold Js.toLowerCase.
    rewrite (str_map_all _ Js.is_word_char); [|apply word_char_lower|apply str_all_filter].
    apply str_filter_all, str_all_filter.
  - rewrite !normalizeName_filter. unfold Js.toLowerCase.
    by rewrite str_map_app, str_filter_app.
  - rewrite !normalizeName_filter. unfold Js.toLowerCase.
    rewrite str_map_app, str_filter_app.
    replace (Js.str_filter Js.is_word_char
               (Js.str_map Js.lower_char (" " +:+ Marker.WARNING))) with ""
      by (by vm_compute).
    apply str_app_nil_r.
Qed.

(** ** The marker: what it reads from a report and what it changes *)

(** X17. From a report one of the deduplicators wrote the marker reads,
    for a style other than two-tone, exactly the remove list of the entry
    of the icon, in lower case: the variant is flagged as listed when its
    style is in that list, and is not flagged when it is not or when the
    report has no entry for the icon. *)
Theorem marker_reads_written_report :
  (∀ r iconName styleName,
     styleName ≠ "twotone" →
     Marker.shouldMark (Hash.report_json r) iconName styleName
     = Some (match Js.get r iconName with
             | Some d =>
                 if Js.includes (Js.toLowerCase <$> Hash.remove d) styleName
                 then Some Marker.ListedInReport else None
             | None => None
             end)) ∧
  (∀ r iconName styleName,
     styleName ≠ "twotone" →
     Marker.shouldMark (Visual.report_json r) iconName styleName
     = Some (match Js.get r iconName with
             | Some d =>
                 if Js.includes (Js.toLowerCase <$> Visual.remove d) styleName
                 then Some Marker.ListedInReport else None
             | None => None
             end)).
Proof.
  split; intros r iconName styleName Hstyle; unfold Marker.shouldMark;
    rewrite decide_False by done; unfold Marker.report_remove; simpl;
    rewrite get_fmap; destruct (Js.get r iconName) as [d|]; simpl;
    try done.
  - unfold Marker.entry_remove. simpl. by rewrite lower_all_strings.
  - unfold Marker.entry_remove, Visual.entry_json.
    destruct (Visual.keep d); simpl; by rewrite lower_all_strings.
Qed.

Lemma variant_after_cases report iconName child child' :
  variant_after report iconName child child' →
  child' = child ∨
  (child' = (Marker.markVariantForDeletion child).1 ∧
   Marker.variant_type child = "COMPONENT" ∧
   (Marker.extractStyleFromVariantName (Marker.variant_name child) = "twotone" ∨
    ∃ remove,
      Marker.report_remove report iconName = Some remove ∧
      Marker.extractStyleFromVariantName (Marker.variant_name child) ∈ remove)).
Proof.
  unfold variant_after. case_decide as Hc; [|by left].
  unfold Marker.shouldMark. case_decide as Htt.
  - intros ->. right. by repeat split; [|left].
  - destruct (Marker.report_remove report iconName) as [remove|]; simpl; [|done].
    destruct (Js.includes remove _) eqn:Hinc; [|by left].
    intros ->. right. repeat split; [done|]. right. exists remove. split; [done|].
    by apply bool_decide_eq_true in Hinc.
Qed.

(** X18. The marker changes nothing but the variants it flags.  On a page
    whose names are made of ASCII characters and warning signs, and for a
    report whose strings are ASCII: after a run that does not throw the
    page has the same nodes, with their types and names, each with the same
    children in the same order; and a child is either as it was or is a
    component of a component set, flagged, whose style is two-tone or is in
    the remove list the report has for the normalised name of the set.  A
    message that is not a report to load leaves the page as it is. *)
Theorem marker_flags_only_listed JSON_parse msg page page' count :
  plain_page page →
  (∀ report, JSON_parse (Marker.msg_content msg) = Some report →
             ascii_json report = true) →
  Marker.onmessage JSON_parse msg page = Some (page', count) →
  (Marker.msg_type msg ≠ "load-json" → page' = page ∧ count = None) ∧
  Forall2
    (λ node node',
       Marker.node_type node' = Marker.node_type node ∧
       Marker.node_name node' = Marker.node_name node ∧
       Forall2
         (λ child child',
            child' = child ∨
            (child' = (Marker.markVariantForDeletion child).1 ∧
             Marker.node_type node = "COMPONENT_SET" ∧
             Marker.variant_type child = "COMPONENT" ∧
             ∃ report,
               Marker.msg_type msg = "load-json" ∧
               JSON_parse (Marker.msg_content msg) = Some report ∧
               (Marker.extractStyleFromVariantName (Marker.variant_name child)
                = "twotone" ∨
                ∃ remove,
                  Marker.report_remove report
                    (Marker.normalizeName (Marker.node_name node)) = Some remove ∧
                  Marker.extractStyleFromVariantName (Marker.variant_name child)
                  ∈ remove)))
         (Marker.children node) (Marker.children node'))
    page page'.
Proof.
  intros _ _. unfold Marker.onmessage. case_decide as Hload.
  - destruct (JSON_parse (Marker.msg_content msg)) as [report|] eqn:Hparse;
      simpl; [|done].
    destruct (Js.for_of _ _ page) as [[nodes markedCount]|] eqn:Hrun; simpl; [|done].
    intros [= <- <-]. split; [done|].
    apply visit_nodes_spec in Hrun as (page' & -> & HF). simpl.
    eapply Forall2_impl; [exact HF|]. intros node node'. unfold node_after.
    case_decide as Hset.
    + intros (Ht & Hn & Hkids). split; [done|]. split; [done|].
      eapply Forall2_impl; [exact Hkids|]. intros child child' Hafter.
      apply variant_after_cases in Hafter as [->|(-> & Hc & Hwhy)]; [by left|].
      right. repeat split; [done..|]. by exists report.
    + intros ->. split; [done|]. split; [done|].
      apply Forall2_same_length_lookup. split; [done|].
      intros i x y Hx Hy. left. congruence.
  - intros [= <- <-]. split; [done|].
    apply Forall2_same_length_lookup. split; [done|].
    intros i x y Hx Hy. assert (x = y) as -> by congruence.
    split; [done|]. split; [done|].
    apply Forall2_same_length_lookup. split; [done|].
    intros j a b Ha Hb. left. congruence.
Qed.

(** ** The marker: a second run *)

Lemma prefix_app_other p s c w :
  str_all (λ a, negb (Ascii.eqb a c)) p = true →
  String.prefix p (s +:+ String c w) = String.prefix p s.
Proof.
  revert s. induction p as [|a p IH]; intros s Hp.
  - by rewrite !prefix_nil.
  - simpl in Hp. apply andb_prop in Hp as [Hac Hp].
    apply negb_true_iff, Ascii.eqb_neq in Hac.
    destruct s as [|b s].
    + simpl. by destruct (Ascii.ascii_dec a c).
    + rewrite str_app_cons. simpl.
      destruct (Ascii.ascii_dec a b); [by apply IH|done].
Qed.

Lemma endsWith_cons c s suffix :
  Js.endsWith (String c s) suffix = false → Js.endsWith s suffix = false.
Proof.
  unfold Js.endsWith. rewrite !bool_decide_eq_false, (strip_suffix_eq (String c s)).
  intros Hn [p Hp]. apply Hn.
  destruct (String.eqb (String c s) suffix); [by eexists|].
  rewrite Hp. by eexists.
Qed.

Lemma str_take_while_all p s : str_all p s = true → Js.str_take_while p s = s.
Proof.
  induction s as [|c s IH]; [done|]. simpl.
  intros [Hc Hs]%andb_prop. by rewrite Hc, IH.
Qed.

Lemma str_take_while_app p t suffix :
  str_all p suffix = true →
  Js.str_take_while p (t +:+ suffix) = Js.str_take_while p t ∨
  Js.str_take_while p (t +:+ suffix) = Js.str_take_while p t +:+ suffix.
Proof.
  intros Hs. induction t as [|d t IH].
  - right. by apply str_take_while_all.
  - rewrite str_app_cons. simpl. destruct (p d); [|by left].
    destruct IH as [-> | ->]; [by left|by right].
Qed.

Lemma match_Style_cons c rest :
  Marker.match_Style (String c rest)
  = if String.prefix "Style=" (String c rest) &&
       negb (String.eqb
               (Js.str_take_while (λ c, negb (Js.is_line_end c))
                  (Js.str_drop 6 (String c rest))) "")
    then Some (Js.str_take_while (λ c, negb (Js.is_line_end c))
                 (Js.str_drop 6 (String c rest)))
    else Marker.match_Style rest.
Proof. done. Qed.

(** What [/Style=(.+)/] captures when a suffix without line ends that
    cannot continue or start a [Style=] is appended to a name that does not
    end with [Style=]: the same, or the same followed by the suffix. *)
Section MatchStyleSuffix.
Variable suffix : string.
Hypothesis suffix_prefix :
  ∀ s, String.prefix "Style=" (s +:+ suffix) = String.prefix "Style=" s.
Hypothesis suffix_line : str_all (λ c, negb (Js.is_line_end c)) suffix = true.
Hypothesis suffix_match : Marker.match_Style suffix = None.

Lemma match_Style_suffix name :
  Js.endsWith name "Style=" = false →
  match Marker.match_Style name with
  | Some captured =>
      Marker.match_Style (name +:+ suffix) = Some captured ∨
      Marker.match_Style (name +:+ suffix) = Some (captured +:+ suffix)
  | None => Marker.match_Style (name +:+ suffix) = None
  end.
Proof.
  induction name as [|c rest IH]; intros Hends; [done|].
  specialize (IH (endsWith_cons _ _ _ Hends)).
  rewrite str_app_cons, !match_Style_cons, <-str_app_cons, suffix_prefix.
  destruct (String.prefix "Style=" (String c rest)) eqn:Hpre; [|done].
  apply prefix_app_eq in Hpre as [t Ht]. rewrite Ht in Hends |- *.
  rewrite str_app_assoc.
  change (Js.str_drop 6 ("Style=" +:+ t)) with t.
  change (Js.str_drop 6 ("Style=" +:+ t +:+ suffix)) with (t +:+ suffix).
  destruct t as [|d t]; [by vm_compute in Hends|].
  rewrite str_app_cons. cbn [Js.str_take_while].
  destruct (negb (Js.is_line_end d)); [|done]. cbn [String.eqb negb andb].
  destruct (str_take_while_app (λ c, negb (Js.is_line_end c)) t suffix suffix_line)
    as [-> | ->]; [by left|by right].
Qed.

End MatchStyleSuffix.

Lemma match_Style_warning name :
  Js.endsWith name "Style=" = false →
  match Marker.match_Style name with
  | Some captured =>
      Marker.match_Style (name +:+ " " +:+ Marker.WARNING) = Some captured ∨
      Marker.match_Style (name +:+ " " +:+ Marker.WARNING)
      = Some (captured +:+ " " +:+ Marker.WARNING)
  | None => Marker.match_Style (name +:+ " " +:+ Marker.WARNING) = None
  end.
Proof.
  apply match_Style_suffix; [|done..].
  intros s. change (" " +:+ Marker.WARNING) with (String Ascii.Space Marker.WARNING).
  by apply prefix_app_other.
Qed.

Lemma extract_after_warning name :
  Js.endsWith name "Style=" = false →
  Marker.extractStyleFromVariantName (name +:+ " " +:+ Marker.WARNING)
  = Marker.extractStyleFromVariantName name.
Proof.
  intros Hends. unfold Marker.extractStyleFromVariantName.
  assert (∀ s, Js.str_filter Js.is_lower_or_digit
                 (Js.toLowerCase (s +:+ " " +:+ Marker.WARNING))
               = Js.str_filter Js.is_lower_or_digit (Js.toLowerCase s)) as Hsame.
  { intros s. unfold Js.toLowerCase. rewrite str_map_app, str_filter_app.
    replace (Js.str_filter Js.is_lower_or_digit
               (Js.str_map Js.lower_char (" " +:+ Marker.WARNING))) with ""
      by (by vm_compute).
    apply str_app_nil_r. }
  pose proof (match_Style_warning name Hends) as Hm.
  destruct (Marker.match_Style name) as [captured|].
  - destruct Hm as [-> | ->]; [done|apply Hsame].
  - rewrite Hm. apply Hsame.
Qed.

Lemma extract_marked variant :
  Js.endsWith (Marker.variant_name variant) "Style=" = false →
  Marker.extractStyleFromVariantName
    (Marker.variant_name (Marker.markVariantForDeletion variant).1)
  = Marker.extractStyleFromVariantName (Marker.variant_name variant).
Proof.
  intros Hends. unfold Marker.markVariantForDeletion.
  destruct (Js.str_includes _ _), (Marker.sealed variant); simpl; try done;
    by apply extract_after_warning.
Qed.

Lemma mark_again variant :
  Marker.markVariantForDeletion (Marker.markVariantForDeletion variant).1
  = Marker.markVariantForDeletion variant.
Proof.
  unfold Marker.markVariantForDeletion at 1.
  rewrite marked_name_has_warning.
  unfold Marker.markVariantForDeletion.
  by destruct (Js.str_includes _ _), (Marker.sealed variant) eqn:Hs; simpl;
    rewrite ?Hs.
Qed.

Lemma visit_variant_again report iconName child done n out n' :
  Js.endsWith (Marker.variant_name child) "Style=" = false →
  Marker.visit_variant report iconName (done, n) child = Some (out, n') →
  ∃ child' k,
    out = done ++ [child'] ∧ n' = n + k ∧
    ∀ done2 m,
      Marker.visit_variant report iconName (done2, m) child'
      = Some (done2 ++ [child'], m + k).
Proof.
  intros Hends. unfold Marker.visit_variant.
  destruct (decide (Marker.variant_type child = "COMPONENT")) as [Hc|Hc].
  - destruct (Marker.shouldMark report iconName _) as [[r|]|] eqn:Hd;
      simpl; [| |done].
    + destruct (Marker.markVariantForDeletion child) as [marked ok] eqn:Hm.
      intros [= <- <-]. exists marked, (if ok then 1 else 0).
      split; [done|]. split; [destruct ok; lia|]. intros done2 m.
      assert (marked = (Marker.markVariantForDeletion child).1) as ->
        by by rewrite Hm.
      rewrite decide_True
        by (unfold Marker.markVariantForDeletion;
            by destruct (Marker.sealed child)).
      rewrite extract_marked, Hd by done. simpl.
      rewrite mark_again, Hm. simpl. destruct ok; do 2 f_equal; lia.
    + intros [= <- <-]. exists child, 0. split; [done|]. split; [lia|].
      intros done2 m. rewrite decide_True, Hd by done. simpl.
      by rewrite Nat.add_0_r.
  - intros [= <- <-]. exists child, 0. split; [done|]. split; [lia|].
    intros done2 m. rewrite decide_False by done. by rewrite Nat.add_0_r.
Qed.

Lemma visit_variants_again report iconName kids done n out n' :
  Forall (λ child, Js.endsWith (Marker.variant_name child) "Style=" = false) kids →
  Js.for_of (Marker.visit_variant report iconName) (done, n) kids = Some (out, n') →
  ∃ kids' k,
    out = done ++ kids' ∧ n' = n + k ∧
    ∀ done2 m,
      Js.for_of (Marker.visit_variant report iconName) (done2, m) kids'
      = Some (done2 ++ kids', m + k).
Proof.
  intros Hkids. revert done n.
  induction Hkids as [|child kids Hchild _ IH]; intros done n.
  - simpl. intros [= <- <-]. exists [], 0. rewrite app_nil_r.
    split; [done|]. split; [lia|]. intros done2 m. simpl.
    by rewrite app_nil_r, Nat.add_0_r.
  - rewrite for_of_cons.
    destruct (Marker.visit_variant report iconName (done, n) child)
      as [[done1 n1]|] eqn:Hstep; simpl; [|done].
    apply visit_variant_again in Hstep as (child' & k1 & -> & -> & Hagain1);
      [|done].
    intros (kids' & k2 & -> & -> & Hagain2)%IH.
    exists (child' :: kids'), (k1 + k2). rewrite <-app_assoc.
    split; [done|]. split; [lia|]. intros done2 m.
    rewrite for_of_cons, Hagain1. simpl. rewrite Hagain2, <-app_assoc.
    do 2 f_equal. lia.
Qed.

Lemma visit_node_again report node done n out n' :
  Forall (λ child, Js.endsWith (Marker.variant_name child) "Style=" = false)
         (Marker.children node) →
  Marker.visit_node report (done, n) node = Some (out, n') →
  ∃ node' k,
    out = done ++ [node'] ∧ n' = n + k ∧
    ∀ done2 m,
      Marker.visit_node report (done2, m) node' = Some (done2 ++ [node'], m + k).
Proof.
  intros Hkids. unfold Marker.visit_node.
  destruct (decide (Marker.node_type node = "COMPONENT_SET")) as [Hc|Hc].
  - destruct (Js.for_of _ _ (Marker.children node)) as [[kids count]|] eqn:Hrun;
      simpl; [|done].
    apply visit_variants_again in Hrun as (kids' & k & -> & -> & Hagain); [|done].
    intros [= <- <-]. eexists _, k. split; [done|]. split; [done|].
    intros done2 m. simpl. rewrite decide_True by done.
    by rewrite Hagain.
  - intros [= <- <-]. exists node, 0. split; [done|]. split; [lia|].
    intros done2 m. rewrite decide_False by done. by rewrite Nat.add_0_r.
Qed.

Lemma visit_nodes_again report page done n out n' :
  Forall (λ node,
            Forall (λ child,
                      Js.endsWith (Marker.variant_name child) "Style=" = false)
                   (Marker.children node)) page →
  Js.for_of (Marker.visit_node report) (done, n) page = Some (out, n') →
  ∃ page' k,
    out = done ++ page' ∧ n' = n + k ∧
    ∀ done2 m,
      Js.for_of (Marker.visit_node report) (done2, m) page'
      = Some (done2 ++ page', m + k).
Proof.
  intros Hpage. revert done n.
  induction Hpage as [|node page Hnode _ IH]; intros done n.
  - simpl. intros [= <- <-]. exists [], 0. rewrite app_nil_r.
    split; [done|]. split; [lia|]. intros done2 m. simpl.
    by rewrite app_nil_r, Nat.add_0_r.
  - rewrite for_of_cons.
    destruct (Marker.visit_node report (done, n) node)
      as [[done1 n1]|] eqn:Hstep; simpl; [|done].
    apply visit_node_again in Hstep as (node' & k1 & -> & -> & Hagain1); [|done].
    intros (page' & k2 & -> & -> & Hagain2)%IH.
    exists (node' :: page'), (k1 + k2). rewrite <-app_assoc.
    split; [done|]. split; [lia|]. intros done2 m.
    rewrite for_of_cons, Hagain1. simpl. rewrite Hagain2, <-app_assoc.
    do 2 f_equal. lia.
Qed.

(** X19. Marking is idempotent.  Flagging a flagged variant again changes
    nothing and returns the same value; and on a page whose names are made
    of ASCII characters and warning signs, none of whose variant names ends
    with [Style=], with a report whose strings are ASCII, a second run of
    the handler with the same message leaves the page as the first run made
    it and closes with the same count. *)
Theorem marking_twice :
  (∀ variant,
     Marker.markVariantForDeletion (Marker.markVariantForDeletion variant).1
     = Marker.markVariantForDeletion variant) ∧
  (∀ JSON_parse msg page page' count,
     plain_page page →
     (∀ report, JSON_parse (Marker.msg_content msg) = Some report →
                ascii_json report = true) →
     Forall (λ node,
               Forall (λ child,
                         Js.endsWith (Marker.variant_name child) "Style=" = false)
                      (Marker.children node)) page →
     Marker.onmessage JSON_parse msg page = Some (page', count) →
     Marker.onmessage JSON_parse msg page' = Some (page', count)).
Proof.
  split; [apply mark_again|].
  intros JSON_parse msg page page' count _ _ Hpage. unfold Marker.onmessage.
  case_decide as Hload; [|by intros [= <- <-]].
  destruct (JSON_parse (Marker.msg_content msg)) as [report|]; simpl; [|done].
  destruct (Js.for_of _ _ page) as [[nodes markedCount]|] eqn:Hrun; simpl; [|done].
  apply visit_nodes_again in Hrun as (nodes' & k & -> & -> & Hagain); [|done].
  intros [= <- <-]. simpl. by rewrite Hagain.
Qed.

(** ** From a run to the deletion: the kept files *)

Section KeptFiles.
Variable path_join : list string → string.
Variable ICON_DIR TEMP_DIR : string.
Variable readdirSync : string → option (list string).
Variable getFileHash : string → option string.
Variable renderSvgToPng : string → string → option unit.
Variable visuallyCompare : string → string → option bool.
Variable JSON_parse : string → option Js.json.

Lemma hash_report_keys run :
  Hash.processIconGroups path_join ICON_DIR readdirSync getFileHash = Some run →
  NoDup (Js.keys (Hash.report run)).
Proof.
  intros Hrun.
  apply processGroups_spec in Hrun as (-> & _); [|apply wf_groupIconsByName].
  eapply sublist_NoDup; [|apply hash_entries_keys].
  by destruct (wf_groupIconsByName path_join ICON_DIR readdirSync).
Qed.

Lemma visual_report_keys run :
  Visual.processVisualDeduplication path_join ICON_DIR TEMP_DIR readdirSync
    renderSvgToPng visuallyCompare = Some run →
  NoDup (Js.keys (Visual.report run)).
Proof.
  intros Hrun.
  apply visual_processGroups_spec in Hrun as (-> & _); [|apply wf_groupIconsByName].
  eapply sublist_NoDup; [|apply visual_entries_keys].
  by destruct (wf_groupIconsByName path_join ICON_DIR readdirSync).
Qed.

Lemma hash_entry_styles run icon d :
  Hash.processIconGroups path_join ICON_DIR readdirSync getFileHash = Some run →
  (icon, d) ∈ Hash.report run →
  (∀ style, Some style ∈ Hash.keep d → style ∈ STYLES ∧ style ∉ Hash.remove d) ∧
  (∀ style, style ∈ Hash.remove d → style ∈ STYLES).
Proof.
  intros Hrun Hin.
  destruct (hash_report_entry _ _ _ _ _ _ _ Hrun Hin)
    as (variants & hashes & Hg & Hwf & Hh & Hnd & _ & ->).
  assert (∀ c, c ∈ Hash.duplicateClusters hashes → NoDup c ∧ c ≠ []) as Hfacts.
  { intros c Hc. by destruct (duplicate_cluster_facts _ _ Hnd Hc) as (_ & ? & ? & _). }
  destruct (hash_entry_perm _ Hfacts) as (kept & Hkept & Hperm).
  pose proof (duplicateClusters_NoDup hashes Hnd) as Hnd'.
  rewrite <-Hperm in Hnd'. apply NoDup_app in Hnd' as (_ & Hdisj & _).
  simpl. split.
  - intros style Hs. split.
    + apply list_elem_of_fmap in Hs as (c & Hk & Hc).
      destruct Hwf as [_ Hsub]. apply hashVariants_keys in Hh as [_ Hkeys].
      apply Hsub, Hkeys. eapply duplicateClusters_elem; [done|].
      by apply cluster_keep_in.
    + rewrite Hkept in Hs.
      apply list_elem_of_fmap in Hs as (s & [= ->] & Hs). by apply Hdisj.
  - intros style Hs. by eapply removed_styles_in_STYLES.
Qed.

Lemma visual_entry_styles run icon d :
  Visual.processVisualDeduplication path_join ICON_DIR TEMP_DIR readdirSync
    renderSvgToPng visuallyCompare = Some run →
  (icon, d) ∈ Visual.report run →
  (∀ style, Visual.keep d = Some style → style ∈ STYLES ∧ style ∉ Visual.remove d) ∧
  (∀ style, style ∈ Visual.remove d → style ∈ STYLES).
Proof.
  intros Hrun Hin.
  destruct (visual_report_entry _ _ _ _ _ _ _ _ _ Hrun Hin)
    as (variants & pngPaths & vd & Hg & [Hnd Hsub] & Hr & Hvd & Hlen & ->).
  destruct (involved_two _ _ _ _ Hnd Hvd Hlen) as [_ Hinv]. simpl. split.
  - intros style Hk. split.
    + by apply Hsub, Hinv, cluster_keep_in.
    + rewrite elem_of_cluster_remove, Hk. by intros [_ ?].
  - intros style [Hs _]%elem_of_cluster_remove. by apply Hsub, Hinv.
Qed.

(** X20. A deleter fed the report of the run that wrote it does not touch
    a kept file.  Where the files of different styles and icons of the
    report have different paths, after deleting by the report of a hash run
    the file of every kept style of every entry is as it was before; and
    the same for the visual deduplicator and its deleter. *)
Theorem kept_files_survive :
  (∀ run fs reportPath text fs' log,
     (∀ s i s' i',
        s ∈ STYLES → s' ∈ STYLES →
        i ∈ Js.keys (Hash.report run) → i' ∈ Js.keys (Hash.report run) →
        path_join [ICON_DIR; s; i +:+ ".svg"]
        = path_join [ICON_DIR; s'; i' +:+ ".svg"] →
        s = s' ∧ i = i') →
     Hash.processIconGroups path_join ICON_DIR readdirSync getFileHash = Some run →
     fs !! reportPath = Some (Deleter.File text) →
     JSON_parse text = Some (Hash.report_json (Hash.report run)) →
     Deleter.deleteFilesByHashReport path_join ICON_DIR JSON_parse fs reportPath
       = Some (fs', log) →
     ∀ iconName d style,
       (iconName, d) ∈ Hash.report run → Some style ∈ Hash.keep d →
       fs' !! path_join [ICON_DIR; style; iconName +:+ ".svg"]
       = fs !! path_join [ICON_DIR; style; iconName +:+ ".svg"]) ∧
  (∀ run fs reportPath text fs' log,
     (∀ s i s' i',
        s ∈ STYLES → s' ∈ STYLES →
        i ∈ Js.keys (Visual.report run) → i' ∈ Js.keys (Visual.report run) →
        path_join [ICON_DIR; s; i +:+ ".svg"]
        = path_join [ICON_DIR; s'; i' +:+ ".svg"] →
        s = s' ∧ i = i') →
     Visual.processVisualDeduplication path_join ICON_DIR TEMP_DIR readdirSync
       renderSvgToPng visuallyCompare = Some run →
     fs !! reportPath = Some (Deleter.File text) →
     JSON_parse text = Some (Visual.report_json (Visual.report run)) →
     Deleter.deleteFilesByVisualReport path_join ICON_DIR JSON_parse fs reportPath
       = Some (fs', log) →
     ∀ iconName d style,
       (iconName, d) ∈ Visual.report run → Visual.keep d = Some style →
       fs' !! path_join [ICON_DIR; style; iconName +:+ ".svg"]
       = fs !! path_join [ICON_DIR; style; iconName +:+ ".svg"]).
Proof.
  split; intros run fs reportPath text fs' log Hpaths Hrun Htext Hparse Hdel
                iconName d style Hin Hkeep.
  - unfold Deleter.deleteFilesByHashReport in Hdel.
    rewrite Htext in Hdel. simpl in Hdel. rewrite Hparse in Hdel. simpl in Hdel.
    rewrite deleteByHashReport_targets, hash_written_targets in Hdel.
    simpl in Hdel.
    destruct (Js.for_of _ _ _) as [st|] eqn:Hloop; simpl in Hdel; [|done].
    injection Hdel as <- _.
    rewrite (files_unlink_all _ _ _ _ Hloop). simpl.
    case_decide as Hp; [|done]. exfalso.
    apply (elem_of_written_targets path_join ICON_DIR Hash.remove) in Hp
      as (iconName' & d' & style' & Hin' & Hs' & Heq).
    destruct (hash_entry_styles _ _ _ Hrun Hin) as [Hk _].
    destruct (Hk style Hkeep) as [Hstyle Hnot].
    destruct (hash_entry_styles _ _ _ Hrun Hin') as [_ Hr].
    apply Hpaths in Heq as [-> ->];
      [|done|by apply Hr
       |apply list_elem_of_fmap; by exists (iconName, d)
       |apply list_elem_of_fmap; by exists (iconName', d')].
    pose proof (hash_report_keys run Hrun) as Hnd.
    apply (elem_get _ _ _ Hnd) in Hin, Hin'. congruence.
  - unfold Deleter.deleteFilesByVisualReport in Hdel.
    rewrite Htext in Hdel. simpl in Hdel. rewrite Hparse in Hdel. simpl in Hdel.
    rewrite deleteByVisualReport_targets, visual_written_targets in Hdel.
    simpl in Hdel.
    destruct (Js.for_of _ _ _) as [st|] eqn:Hloop; simpl in Hdel; [|done].
    injection Hdel as <- _.
    rewrite (files_unlink_all _ _ _ _ Hloop). simpl.
    case_decide as Hp; [|done]. exfalso.
    apply (elem_of_written_targets path_join ICON_DIR Visual.remove) in Hp
      as (iconName' & d' & style' & Hin' & Hs' & Heq).
    destruct (visual_entry_styles _ _ _ Hrun Hin) as [Hk _].
    destruct (Hk style Hkeep) as [Hstyle Hnot].
    destruct (visual_entry_styles _ _ _ Hrun Hin') as [_ Hr].
    apply Hpaths in Heq as [-> ->];
      [|done|by apply Hr
       |apply list_elem_of_fmap; by exists (iconName, d)
       |apply list_elem_of_fmap; by exists (iconName', d')].
    pose proof (visual_report_keys run Hrun) as Hnd.
    apply (elem_get _ _ _ Hnd) in Hin, Hin'. congruence.
Qed.

End KeptFiles.

(** ** The tallies, style by style *)

Lemma get_table (count : string → nat) styles style :
  style ∈ styles →
  Js.get ((λ s, (s, Js.Num (count s))) <$> styles) style
  = Some (Js.Num (count style)).
Proof.
  induction styles as [|k styles IH]; [by intros ?%elem_of_nil|].
  intros Hin. simpl. case_decide as Hk; [by subst|].
  apply elem_of_cons in Hin as [->|Hin]; [done|by apply IH].
Qed.

Lemma set_table (count : string → nat) styles style n :
  NoDup styles →
  Js.set ((λ s, (s, Js.Num (count s))) <$> styles) style (Js.Num n)
  = (λ s, (s, Js.Num (if decide (s = style) then n else count s))) <$> styles
  ∨ style ∉ styles.
Proof.
  induction 1 as [|k styles Hk Hnd IH]; [right; by intros ?%elem_of_nil|].
  rewrite !fmap_cons. cbn [Js.set]. destruct (decide (k = style)) as [->|Hne].
  - left. f_equal. apply list_fmap_ext. intros i s Hs.
    rewrite decide_False; [done|]. intros ->. apply Hk.
    by eapply list_elem_of_lookup_2.
  - destruct IH as [->|Hnot]; [by left|]. right.
    intros [->|?]%elem_of_cons; done.
Qed.

Lemma table_ext (f g : string → nat) :
  (∀ style, f style = g style) → tally_table f = tally_table g.
Proof.
  intros Hfg. unfold tally_table. apply list_fmap_ext. intros i s _.
  by rewrite Hfg.
Qed.

Lemma NoDup_STYLES : NoDup STYLES.
Proof. apply (bool_decide_unpack _). by vm_compute. Qed.

Lemma get_tally_table count style :
  style ∈ STYLES → Js.get (tally_table count) style = Some (Js.Num (count style)).
Proof. apply get_table. Qed.

Lemma set_tally_table count style n :
  style ∈ STYLES →
  Js.set (tally_table count) style (Js.Num n)
  = tally_table (λ s, if decide (s = style) then n else count s).
Proof.
  intros Hin. by destruct (set_table count STYLES style n NoDup_STYLES).
Qed.

Lemma occurrences_cons style s styles :
  occurrences style (s :: styles)
  = (if decide (s = style) then 1 else 0) + occurrences style styles.
Proof.
  unfold occurrences. rewrite filter_cons. by case_decide.
Qed.

Lemma occurrences_app style l1 l2 :
  occurrences style (l1 ++ l2) = occurrences style l1 + occurrences style l2.
Proof. unfold occurrences. by rewrite filter_app, length_app. Qed.

Lemma occurrences_NoDup style styles :
  NoDup styles →
  occurrences style styles = if decide (style ∈ styles) then 1 else 0.
Proof.
  induction 1 as [|s styles Hs Hnd IH]; [done|].
  rewrite occurrences_cons, IH.
  destruct (decide (s = style)) as [->|Hne].
  - rewrite decide_False by done. rewrite decide_True by left. done.
  - destruct (decide (style ∈ styles)) as [Hin|Hnin].
    + rewrite decide_True by by right. done.
    + rewrite decide_False; [done|]. intros [->|?]%elem_of_cons; done.
Qed.

Lemma hash_count_table count style :
  style ∈ STYLES →
  Hash.count_style (tally_table count) style
  = tally_table (λ s, count s + occurrences s [style]).
Proof.
  intros Hin. unfold Hash.count_style.
  rewrite get_tally_table by done.
  change (Js.incr (Some (Js.Num (count style)))) with (Js.Num (S (count style))).
  rewrite set_tally_table by done. apply table_ext. intros s.
  rewrite occurrences_cons. case_decide as Hs.
  - subst. rewrite decide_True by done. unfold occurrences. simpl. lia.
  - rewrite decide_False by done. unfold occurrences. simpl. lia.
Qed.

Lemma foldl_hash_count_table styles count :
  styles ⊆ STYLES →
  foldl Hash.count_style (tally_table count) styles
  = tally_table (λ s, count s + occurrences s styles).
Proof.
  revert count. induction styles as [|x styles IH]; intros count Hsub.
  - simpl. apply table_ext. intros s. unfold occurrences. simpl. lia.
  - simpl. rewrite hash_count_table by (apply Hsub; left).
    rewrite IH by (intros s Hs; apply Hsub; by right).
    apply table_ext. intros s.
    rewrite (occurrences_cons s x styles), (occurrences_cons s x []).
    unfold occurrences at 1. simpl. lia.
Qed.

Lemma foldl_visual_count_table styles total count :
  styles ⊆ STYLES →
  foldl Visual.count_style (total, tally_table count) styles
  = (total + length styles, tally_table (λ s, count s + occurrences s styles)).
Proof.
  revert total count. induction styles as [|x styles IH]; intros total count Hsub.
  - simpl. rewrite Nat.add_0_r. f_equal. apply table_ext. intros s.
    unfold occurrences. simpl. lia.
  - assert (x ∈ STYLES) as Hx by (apply Hsub; left).
    cbn [foldl]. unfold Visual.count_style at 2.
    rewrite get_tally_table by done.
    change (Js.incr (Some (Js.Num (count x)))) with (Js.Num (S (count x))).
    rewrite set_tally_table by done.
    rewrite IH by (intros s Hs; apply Hsub; by right).
    f_equal; [simpl; lia|]. apply table_ext. intros s.
    rewrite (occurrences_cons s x styles). case_decide as Hs.
    + subst. rewrite decide_True by done. lia.
    + rewrite decide_False by done. lia.
Qed.

Lemma occurrences_entries {D} (remove : D → list string) (r : Js.obj D) style :
  Forall (λ e, NoDup (remove e.2)) r →
  occurrences style (mjoin (remove <$> r.*2))
  = length (filter (λ e, style ∈ remove e.2) r).
Proof.
  induction 1 as [|e r Hnd _ IH]; [done|].
  rewrite !fmap_cons.
  change (mjoin (remove e.2 :: (remove <$> r.*2)))
    with (remove e.2 ++ mjoin (remove <$> r.*2)).
  rewrite occurrences_app, IH, filter_cons.
  rewrite occurrences_NoDup by done. by case_decide.
Qed.

Section StyleTallies.
Variable path_join : list string → string.
Variable ICON_DIR TEMP_DIR : string.
Variable readdirSync : string → option (list string).
Variable getFileHash : string → option string.
Variable renderSvgToPng : string → string → option unit.
Variable visuallyCompare : string → string → option bool.

Lemma hash_run_tallies groups st st' count :
  Forall (λ e, wf_variants e.2) groups →
  Hash.removedPerStyle st = tally_table count →
  Js.for_of (Hash.process_icon getFileHash) st groups = Some st' →
  Hash.removedPerStyle st'
  = tally_table
      (λ s, count s +
            occurrences s
              (mjoin (Hash.remove
                        <$> (omap (hash_icon_entry getFileHash) groups).*2))).
Proof.
  intros Hwf. revert st count.
  induction Hwf as [|[icon variants] groups Hv _ IH]; intros st count Htab.
  - simpl. intros [= <-]. rewrite Htab. apply table_ext. intros s.
    unfold occurrences. simpl. lia.
  - rewrite for_of_cons.
    destruct (Hash.process_icon getFileHash st (icon, variants)) as [st1|] eqn:Hstep;
      simpl; [|done].
    unfold Hash.process_icon in Hstep. unfold hash_icon_entry at 1. simpl.
    destruct (Hash.hashVariants getFileHash variants) as [hashes|] eqn:Hh;
      simpl in Hstep |- *; [|done].
    case_bool_decide.
    + rewrite foldl_resolve_cluster in Hstep. injection Hstep as <-.
      intros Hrun. apply (IH _ (λ s, count s + occurrences s
                            (mjoin (cluster_remove <$> Hash.duplicateClusters hashes))))
        in Hrun.
      * rewrite Hrun. apply table_ext. intros s. simpl.
        rewrite occurrences_app, Nat.add_assoc. reflexivity.
      * simpl. rewrite Htab. apply foldl_hash_count_table.
        intros s Hs. by eapply removed_styles_in_STYLES.
    + injection Hstep as <-. intros Hrun. by apply (IH _ count) in Hrun.
Qed.

Lemma visual_run_tallies groups st st' count :
  Forall (λ e, wf_variants e.2) groups →
  Visual.removalByStyle st = tally_table count →
  Js.for_of (Visual.process_icon path_join TEMP_DIR renderSvgToPng visuallyCompare)
    st groups = Some st' →
  Visual.removalByStyle st'
  = tally_table
      (λ s, count s +
            occurrences s
              (mjoin (Visual.remove
                        <$> (omap (visual_icon_entry path_join TEMP_DIR
                                     renderSvgToPng visuallyCompare) groups).*2))).
Proof.
  intros Hwf. revert st count.
  induction Hwf as [|[icon variants] groups Hv _ IH]; intros st count Htab.
  - simpl. intros [= <-]. rewrite Htab. apply table_ext. intros s.
    unfold occurrences. simpl. lia.
  - rewrite for_of_cons.
    destruct (Visual.process_icon _ _ _ _ st (icon, variants)) as [st1|] eqn:Hstep;
      simpl; [|done].
    unfold Visual.process_icon in Hstep. unfold visual_icon_entry at 1. simpl.
    case_bool_decide.
    { injection Hstep as <-. intros Hrun. by apply (IH _ count) in Hrun. }
    destruct (Visual.renderAll _ _ _ _ _) as [pngPaths|] eqn:Hr;
      simpl in Hstep |- *; [|done].
    destruct (Visual.compare_pairs _ _ _ _) as [vd|] eqn:Hvd;
      simpl in Hstep |- *; [|done].
    case_bool_decide as Hlen.
    + destruct Hv as [Hnd Hsub]. simpl in Hnd, Hsub.
      destruct (involved_two _ _ _ _ Hnd Hvd Hlen) as [_ Hinv].
      rewrite Htab, foldl_visual_count_table in Hstep.
      2:{ intros s [Hs _]%elem_of_cluster_remove. by apply Hsub, Hinv. }
      injection Hstep as <-. intros Hrun.
      apply (IH _ (λ s, count s + occurrences s
                          (cluster_remove (Visual.allInvolved vd)))) in Hrun; [|done].
      rewrite Hrun. apply table_ext. intros s. simpl.
      rewrite occurrences_app, Nat.add_assoc. reflexivity.
    + injection Hstep as <-. intros Hrun. by apply (IH _ count) in Hrun.
Qed.

(** X21. The tallies of a run, style by style: in the table either
    deduplicator prints at the end, the count of each style of [STYLES] is
    the number of entries of the report whose remove list has that style,
    and no remove list has a style twice. *)
Theorem style_tallies :
  (∀ run,
     Hash.processIconGroups path_join ICON_DIR readdirSync getFileHash = Some run →
     Hash.removedPerStyle run = tally_table (hash_style_removals (Hash.report run)) ∧
     Forall (λ e, NoDup (Hash.remove e.2)) (Hash.report run)) ∧
  (∀ run,
     Visual.processVisualDeduplication path_join ICON_DIR TEMP_DIR readdirSync
       renderSvgToPng visuallyCompare = Some run →
     Visual.removalByStyle run
     = tally_table (visual_style_removals (Visual.report run)) ∧
     Forall (λ e, NoDup (Visual.remove e.2)) (Visual.report run)).
Proof.
  split; intros run Hrun.
  - assert (Forall (λ e, NoDup (Hash.remove e.2)) (Hash.report run)) as Hnd.
    { apply Forall_forall. intros [icon d] Hin. simpl.
      destruct (hash_report_entry _ _ _ _ _ _ _ Hrun Hin)
        as (variants & hashes & _ & _ & _ & Hndk & _ & ->).
      assert (∀ c, c ∈ Hash.duplicateClusters hashes → NoDup c ∧ c ≠ []) as Hfacts.
      { intros c Hc.
        by destruct (duplicate_cluster_facts _ _ Hndk Hc) as (_ & ? & ? & _). }
      destruct (hash_entry_perm _ Hfacts) as (kept & _ & Hperm).
      pose proof (duplicateClusters_NoDup hashes Hndk) as Hnd'.
      rewrite <-Hperm in Hnd'. by apply NoDup_app in Hnd' as (_ & _ & ?). }
    split; [|done].
    pose proof (wf_groupIconsByName path_join ICON_DIR readdirSync) as [Hk Hwf].
    pose proof Hrun as Hspec.
    apply processGroups_spec in Hspec as (Hrep & _); [|done].
    apply (hash_run_tallies _ Hash.initial _ (λ _, 0) Hwf eq_refl) in Hrun.
    rewrite Hrun, <-Hrep. apply table_ext. intros s.
    by rewrite (occurrences_entries Hash.remove).
  - assert (Forall (λ e, NoDup (Visual.remove e.2)) (Visual.report run)) as Hnd.
    { apply Forall_forall. intros [icon d] Hin. simpl.
      destruct (visual_report_entry _ _ _ _ _ _ _ _ _ Hrun Hin)
        as (variants & pngPaths & vd & _ & _ & _ & _ & _ & ->).
      simpl. rewrite cluster_remove_perm. apply NoDup_filter, allInvolved_NoDup. }
    split; [|done].
    pose proof (wf_groupIconsByName path_join ICON_DIR readdirSync) as [Hk Hwf].
    pose proof Hrun as Hspec.
    apply visual_processGroups_spec in Hspec as (Hrep & _); [|done].
    apply (visual_run_tallies _ Visual.initial _ (λ _, 0) Hwf eq_refl) in Hrun.
    rewrite Hrun, <-Hrep. apply table_ext. intros s.
    by rewrite (occurrences_entries Visual.remove).
Qed.

End StyleTallies.

(** * Part IV: the properties on the example library *)

Lemma example_same_files : same_files Example.readdirSync Example.readdirSync'.
Proof.
  intros dir. unfold Example.readdirSync, Example.readdirSync'.
  repeat case_decide; constructor;
    apply (bool_decide_unpack _); vm_compute; exact I.
Defined.

Lemma removal_totals_witness :
  (∃ run, Example.hash_run = Some run ∧
     Hash.totalFilesRemoved run = hash_removals (Hash.report run) ∧
     Js.keys (Hash.removedPerStyle run) = STYLES ∧
     tally_sum (Hash.removedPerStyle run) = Js.Num (Hash.totalFilesRemoved run)) ∧
  (∃ run, Example.visual_run = Some run ∧
     Visual.totalFilesToRemove run = visual_removals (Visual.report run) ∧
     Js.keys (Visual.removalByStyle run) = STYLES ∧
     tally_sum (Visual.removalByStyle run) = Js.Num (Visual.totalFilesToRemove run)).
Proof.
  pose proof (removal_totals Example.path_join "icons" "tmp" Example.readdirSync
                Example.getFileHash Example.renderSvgToPng Example.visuallyCompare)
    as [Hhash Hvisual].
  split.
  - eexists. split; [reflexivity|]. apply Hhash. vm_compute. reflexivity.
  - eexists. split; [reflexivity|]. apply Hvisual. vm_compute. reflexivity.
Defined.

Lemma entries_keep_and_remove_witness :
  (∃ run d, Example.hash_run = Some run ∧ ("a", d) ∈ Hash.report run ∧
     Hash.keep d ≠ [] ∧
     Forall (λ k, ∃ style, k = Some style ∧ style ∈ STYLES) (Hash.keep d) ∧
     Hash.remove d ≠ []) ∧
  (∃ run d, Example.visual_run = Some run ∧ ("c", d) ∈ Visual.report run ∧
     (∃ style, Visual.keep d = Some style ∧ style ∈ STYLES) ∧
     Visual.remove d ≠ []).
Proof.
  pose proof (entries_keep_and_remove Example.path_join "icons" "tmp"
                Example.readdirSync Example.getFileHash Example.renderSvgToPng
                Example.visuallyCompare) as [Hhash Hvisual].
  split.
  - eexists _, _. split; [reflexivity|].
    assert (∀ A (x : A) l, x ∈ x :: l) as Hhd by (intros; left).
    split; [apply Hhd|].
    eapply Hhash; [vm_compute; reflexivity|apply Hhd].
  - eexists _, _. split; [reflexivity|].
    assert (∀ A (x y : A) l, x ∈ y :: x :: l) as Hsnd by (intros; right; left).
    split; [apply Hsnd|].
    eapply Hvisual; [vm_compute; reflexivity|apply Hsnd].
Defined.

(** The hash report of the example library: the icon [a] has two duplicate
    clusters and its entry is one object, not an array with one object per
    cluster. *)
Lemma hash_report_two_clusters_not_an_array :
  ∃ run variants hashes entry,
    Hash.processIconGroups Example.path_join "icons" Example.readdirSync
      Example.getFileHash = Some run ∧
    Js.get (groupIconsByName Example.path_join "icons" Example.readdirSync) "a"
      = Some variants ∧
    Hash.hashVariants Example.getFileHash variants = Some hashes ∧
    Hash.duplicateClusters hashes = [["outlined"; "filled"]; ["sharp"; "round"]] ∧
    Js.field (Hash.report_json (Hash.report run)) "a" = Some entry ∧
    entry = Js.JObject
              [("keep", Js.JArray [Js.JString "outlined"; Js.JString "round"]);
               ("remove", Js.JArray [Js.JString "filled"; Js.JString "sharp"])] ∧
    ¬ per_cluster_array (Hash.duplicateClusters hashes) entry.
Proof.
  eexists _, _, _, _.
  split; [vm_compute; reflexivity|].
  split; [vm_compute; reflexivity|].
  split; [vm_compute; reflexivity|].
  split; [vm_compute; reflexivity|].
  split; [vm_compute; reflexivity|].
  split; [reflexivity|].
  intros (decisions & Harr & _). discriminate Harr.
Qed.

Lemma hash_report_entry_is_one_object_witness :
  ∃ run entry,
    Example.hash_run = Some run ∧
    Js.field (Hash.report_json (Hash.report run)) "a" = Some entry ∧
    ∃ variants hashes kept removes,
      (("a", variants) ∈
         groupIconsByName Example.path_join "icons" Example.readdirSync) ∧
      Hash.hashVariants Example.getFileHash variants = Some hashes ∧
      Forall3 (λ cluster k remove, splits_cluster cluster (Some k) remove)
              (Hash.duplicateClusters hashes) kept removes ∧
      entry = Js.JObject [("keep", Js.JArray (Js.JString <$> kept));
                          ("remove", Js.JArray (Js.JString <$> mjoin removes))] ∧
      (∀ items, entry ≠ Js.JArray items) ∧
      Deleter.groups_of entry = [entry].
Proof.
  eexists _, _. split; [reflexivity|]. split; [vm_compute; reflexivity|].
  eapply (hash_report_entry_is_one_object Example.path_join "icons"
            Example.readdirSync Example.getFileHash);
    vm_compute; reflexivity.
Defined.

Lemma keep_outlined_or_smallest_witness :
  (∃ run d,
     Example.hash_run = Some run ∧ ("b", d) ∈ Hash.report run ∧
     ∃ variants hashes removes,
       (("b", variants) ∈
          groupIconsByName Example.path_join "icons" Example.readdirSync) ∧
       Hash.hashVariants Example.getFileHash variants = Some hashes ∧
       Hash.remove d = mjoin removes ∧
       Forall (λ cluster, 2 ≤ length cluster) (Hash.duplicateClusters hashes) ∧
       Forall3 outlined_or_smallest
         (Hash.duplicateClusters hashes) (Hash.keep d) removes) ∧
  (∃ run d,
     Example.visual_run = Some run ∧ ("a", d) ∈ Visual.report run ∧
     ∃ variants pngPaths visualDuplicates,
       (("a", variants) ∈
          groupIconsByName Example.path_join "icons" Example.readdirSync) ∧
       Visual.renderAll Example.path_join "tmp" Example.renderSvgToPng "a" variants
         = Some pngPaths ∧
       Visual.compare_pairs Example.visuallyCompare pngPaths variants []
         = Some visualDuplicates ∧
       2 ≤ length (Visual.allInvolved visualDuplicates) ∧
       outlined_or_smallest (Visual.allInvolved visualDuplicates)
         (Visual.keep d) (Visual.remove d)).
Proof.
  pose proof (keep_outlined_or_smallest Example.path_join "icons" "tmp"
                Example.readdirSync Example.getFileHash Example.renderSvgToPng
                Example.visuallyCompare) as [Hhash Hvisual].
  split.
  - eexists _, _. split; [reflexivity|].
    assert (∀ A (x y z : A) l, x ∈ y :: z :: x :: l) as Hthird
      by (intros; right; right; left).
    split; [apply Hthird|].
    eapply Hhash; [vm_compute; reflexivity|apply Hthird].
  - eexists _, _. split; [reflexivity|].
    assert (∀ A (x : A) l, x ∈ x :: l) as Hhd by (intros; left).
    split; [apply Hhd|].
    eapply Hvisual; [vm_compute; reflexivity|apply Hhd].
Defined.

Lemma keep_and_remove_split_cluster_witness :
  (∃ run d,
     Example.hash_run = Some run ∧ ("a", d) ∈ Hash.report run ∧
     ∃ variants hashes removes,
       (("a", variants) ∈
          groupIconsByName Example.path_join "icons" Example.readdirSync) ∧
       Hash.hashVariants Example.getFileHash variants = Some hashes ∧
       Hash.remove d = mjoin removes ∧
       Forall3 splits_cluster (Hash.duplicateClusters hashes) (Hash.keep d) removes ∧
       (∀ style, Some style ∈ Hash.keep d → style ∉ Hash.remove d) ∧
       (∀ style, Some style ∈ Hash.keep d ∨ style ∈ Hash.remove d ↔
                 ∃ cluster, cluster ∈ Hash.duplicateClusters hashes ∧ style ∈ cluster)) ∧
  (∃ run d,
     Example.visual_run = Some run ∧ ("c", d) ∈ Visual.report run ∧
     ∃ variants pngPaths,
       (("c", variants) ∈
          groupIconsByName Example.path_join "icons" Example.readdirSync) ∧
       Visual.renderAll Example.path_join "tmp" Example.renderSvgToPng "c" variants
         = Some pngPaths ∧
       ∃ kept, Visual.keep d = Some kept ∧ (kept ∉ Visual.remove d) ∧
         ∀ style, kept = style ∨ style ∈ Visual.remove d ↔
                  involved (Visual.judgment Example.visuallyCompare pngPaths)
                           (Js.keys variants) style).
Proof.
  pose proof (keep_and_remove_split_cluster Example.path_join "icons" "tmp"
                Example.readdirSync Example.getFileHash Example.renderSvgToPng
                Example.visuallyCompare) as [Hhash Hvisual].
  split.
  - eexists _, _. split; [reflexivity|].
    assert (∀ A (x : A) l, x ∈ x :: l) as Hhd by (intros; left).
    split; [apply Hhd|].
    eapply Hhash; [vm_compute; reflexivity|apply Hhd].
  - eexists _, _. split; [reflexivity|].
    assert (∀ A (x y : A) l, x ∈ y :: x :: l) as Hsnd by (intros; right; left).
    split; [apply Hsnd|].
    eapply Hvisual; [vm_compute; reflexivity|apply Hsnd].
Defined.

Lemma chained_judgments_one_cluster_witness :
  ∃ run,
    Example.visual_run = Some run ∧
    Js.get (Visual.report run) "c"
      = Some {| Visual.keep := Some "outlined";
                Visual.remove := ["filled"; "round"] |} ∧
    ∃ pngPaths,
      Visual.renderAll Example.path_join "tmp" Example.renderSvgToPng "c"
        [("outlined", "icons/outlined/c.svg"); ("filled", "icons/filled/c.svg");
         ("round", "icons/round/c.svg")] = Some pngPaths ∧
      ¬ (("outlined", "round") ∈
           equal_pairs (Visual.judgment Example.visuallyCompare pngPaths)
             ["outlined"; "filled"; "round"]) ∧
      ∀ style, involved (Visual.judgment Example.visuallyCompare pngPaths)
                 ["outlined"; "filled"; "round"] style
               ↔ style ∈ ["outlined"; "filled"; "round"].
Proof.
  eexists. split; [reflexivity|].
  eapply (chained_judgments_one_cluster Example.path_join "icons" "tmp"
            Example.readdirSync Example.renderSvgToPng Example.visuallyCompare
            _ "c" "icons/outlined/c.svg" "icons/filled/c.svg" "icons/round/c.svg").
  - vm_compute. reflexivity.
  - apply (bool_decide_unpack _). vm_compute. exact I.
  - vm_compute. reflexivity.
  - vm_compute. reflexivity.
  - vm_compute. reflexivity.
Defined.

Lemma two_tone_always_marked_witness :
  Marker.shouldMark (Js.JObject []) "c" "twotone" = Some (Some Marker.TwoToneStyle) ∧
  ∃ page' count node' variant',
    Marker.onmessage Example.JSON_parse Example.message Example.page
      = Some (page', Some count) ∧
    page' !! 1 = Some node' ∧
    Marker.children node' !! 1 = Some variant' ∧
    Js.str_includes (Marker.variant_name variant') Marker.WARNING = true.
Proof.
  destruct two_tone_always_marked as (Htest & Hmarked & _).
  split; [apply Htest|].
  assert (∃ page' count,
            Marker.onmessage Example.JSON_parse Example.message Example.page
            = Some (page', Some count)) as (page' & count & Hrun).
  { eexists _, _. vm_compute. reflexivity. }
  edestruct (Hmarked Example.JSON_parse Example.message Example.page page' count 1 1)
    as (node' & variant' & Hnode & Hvariant & _ & Hname);
    [exact Hrun|reflexivity|reflexivity|reflexivity|reflexivity
    |vm_compute; reflexivity|].
  by exists page', count, node', variant'.
Defined.

Lemma missing_report_deletes_nothing_witness :
  Deleter.deleteFilesByHashReport Example.path_join "icons" Example.JSON_parse
    Example.files "missing.json"
    = Some (Example.files, [Deleter.ReportNotFound "missing.json"]) ∧
  Deleter.deleteFilesByVisualReport Example.path_join "icons" Example.JSON_parse
    Example.files "missing.json"
    = Some (Example.files, [Deleter.ReportNotFound "missing.json"]).
Proof.
  apply (missing_report_deletes_nothing Example.path_join "icons"
           Example.JSON_parse Example.files "missing.json").
  vm_compute. reflexivity.
Defined.

(** ** The further properties on the example library *)

Lemma example_files_regular p : Example.files !! p ≠ Some Deleter.Directory.
Proof.
  unfold Example.files. rewrite lookup_fmap. by destruct (_ !! p).
Defined.

Lemma example_hash_deletion :
  ∃ fs' log,
    Deleter.deleteFilesByHashReport Example.path_join "icons" Example.JSON_parse
      Example.files "dedup-report.json" = Some (fs', log).
Proof.
  destruct (hash_written_deletion Example.path_join "icons" Example.JSON_parse
              Example.files "dedup-report.json" "hash report"
              ExampleReports.hash_report)
    as (fs' & log & Hrun & _);
    [vm_compute; reflexivity|vm_compute; reflexivity
    |intros; apply example_files_regular|].
  exists fs', log. exact Hrun.
Defined.

Lemma example_visual_deletion :
  ∃ fs' log,
    Deleter.deleteFilesByVisualReport Example.path_join "icons" Example.JSON_parse
      Example.files "visual-dedup-report.json" = Some (fs', log).
Proof.
  destruct (visual_written_deletion Example.path_join "icons" Example.JSON_parse
              Example.files "visual-dedup-report.json" "visual report"
              ExampleReports.visual_report)
    as (fs' & log & Hrun & _);
    [vm_compute; reflexivity|vm_compute; reflexivity
    |intros; apply example_files_regular|].
  exists fs', log. exact Hrun.
Defined.

Lemma absent_target_is_skipped_witness :
  Deleter.delete_style Example.path_join "icons" "b" (Deleter.start Example.files)
    (Js.JString "sharp") = Some (Deleter.start Example.files) ∧
  (∃ fs' log log',
     Deleter.deleteFilesByHashReport Example.path_join "icons" Example.JSON_parse
       Example.files "dedup-report.json" = Some (fs', log) ∧
     Deleter.deleteFilesByHashReport Example.path_join "icons" Example.JSON_parse
       fs' "dedup-report.json" = Some (fs', log') ∧
     (log' = [Deleter.TotalDeleted 0]
      ∨ log' = [Deleter.ReportNotFound "dedup-report.json"])) ∧
  (∃ fs' log log',
     Deleter.deleteFilesByVisualReport Example.path_join "icons" Example.JSON_parse
       Example.files "visual-dedup-report.json" = Some (fs', log) ∧
     Deleter.deleteFilesByVisualReport Example.path_join "icons" Example.JSON_parse
       fs' "visual-dedup-report.json" = Some (fs', log') ∧
     (log' = [Deleter.TotalDeleted 0]
      ∨ log' = [Deleter.ReportNotFound "visual-dedup-report.json"])).
Proof.
  destruct (absent_target_is_skipped Example.path_join "icons" Example.JSON_parse)
    as (Hstep & Hhash & Hvisual).
  split; [|split].
  - apply Hstep. vm_compute. reflexivity.
  - destruct example_hash_deletion as (fs' & log & Hrun).
    destruct (Hhash _ _ _ _ Hrun) as (log' & Hagain & Hlog).
    exists fs', log, log'. split; [exact Hrun|]. split; [exact Hagain|exact Hlog].
  - destruct example_visual_deletion as (fs' & log & Hrun).
    destruct (Hvisual _ _ _ _ Hrun) as (log' & Hagain & Hlog).
    exists fs', log, log'. split; [exact Hrun|]. split; [exact Hagain|exact Hlog].
Defined.

Lemma basename_round_trip_witness :
  (Js.endsWith ("home" +:+ ".svg") ".svg" = true ∧
   Js.basename ("home" +:+ ".svg") ".svg" = "home") ∧
  Js.basename "a.svg" ".svg" +:+ ".svg" = "a.svg".
Proof.
  destruct basename_round_trip as [Hjoin Hsplit].
  split; [apply Hjoin|]. apply Hsplit. vm_compute. reflexivity.
Defined.

Lemma example_no_proto_file :
  no_proto_file Example.path_join "icons" Example.existsSync Example.readdirSync.
Proof.
  intros style files Hs _ Hrd.
  apply list_elem_of_In in Hs. simpl in Hs.
  destruct Hs as [<-|[<-|[<-|[<-|[]]]]]; vm_compute in Hrd;
    injection Hrd as <-; apply (bool_decide_unpack _); vm_compute; exact I.
Defined.

Lemma groupIconsByName_paths_witness :
  (Runtime.groupIconsByName Example.path_join "icons" Example.existsSync
     Example.readdirSync = None ↔
   ∃ style, style ∈ STYLES ∧
            unlistable Example.path_join "icons" Example.existsSync
              Example.readdirSync style) ∧
  ∀ groups,
    Runtime.groupIconsByName Example.path_join "icons" Example.existsSync
      Example.readdirSync = Some groups →
    ∀ iconName style,
      group_path groups iconName style
      = if decide (style ∈ STYLES ∧ (iconName ∉ Runtime.MEMBERS) ∧
                   Example.existsSync (Example.path_join ["icons"; style]) = true)
        then
          files ← Example.readdirSync (Example.path_join ["icons"; style]);
          if decide (iconName +:+ ".svg" ∈ files)
          then Some (Example.path_join
                       [Example.path_join ["icons"; style]; iconName +:+ ".svg"])
          else None
        else None.
Proof.
  apply (groupIconsByName_paths Example.path_join "icons" Example.existsSync
           Example.readdirSync).
  apply example_no_proto_file.
Defined.

Lemma runtime_listing_order_witness :
  (Runtime.groupIconsByName Example.path_join "icons" Example.existsSync
     Example.readdirSync = None ↔
   Runtime.groupIconsByName Example.path_join "icons" Example.existsSync
     Example.readdirSync' = None) ∧
  ∀ groups groups',
    Runtime.groupIconsByName Example.path_join "icons" Example.existsSync
      Example.readdirSync = Some groups →
    Runtime.groupIconsByName Example.path_join "icons" Example.existsSync
      Example.readdirSync' = Some groups' →
    content2 groups = content2 groups' ∧
    ∀ iconName style,
      group_path groups iconName style = group_path groups' iconName style.
Proof.
  apply (runtime_listing_order Example.path_join "icons" Example.existsSync
           Example.readdirSync Example.readdirSync').
  - apply example_same_files.
  - apply example_no_proto_file.
Defined.

Lemma groupIconsByName_shape_witness :
  ∃ variants,
    ("a", variants) ∈ groupIconsByName Example.path_join "icons" Example.readdirSync ∧
    variants ≠ [] ∧ NoDup (Js.keys variants) ∧ Js.keys variants `sublist_of` STYLES.
Proof.
  destruct (groupIconsByName_shape Example.path_join "icons" Example.readdirSync)
    as [_ Hshape].
  assert (∃ variants,
            ("a", variants)
            ∈ groupIconsByName Example.path_join "icons" Example.readdirSync)
    as [variants Hin].
  { eexists. apply get_Some_elem. vm_compute. reflexivity. }
  exists variants. split; [exact Hin|]. apply (Hshape "a" variants Hin).
Defined.

Lemma clusters_are_digest_classes_witness :
  ∃ variants hashes,
    Js.get (groupIconsByName Example.path_join "icons" Example.readdirSync) "a"
      = Some variants ∧
    Hash.hashVariants Example.getFileHash variants = Some hashes ∧
    ((∃ cluster, cluster ∈ Hash.duplicateClusters hashes ∧
                 "outlined" ∈ cluster ∧ "filled" ∈ cluster)
     ↔ ∃ h, variant_hash Example.getFileHash variants "outlined" = Some h ∧
            variant_hash Example.getFileHash variants "filled" = Some h).
Proof.
  eexists _, _. split; [vm_compute; reflexivity|].
  split; [vm_compute; reflexivity|].
  apply clusters_are_digest_classes.
  - apply (bool_decide_unpack _). vm_compute. exact I.
  - vm_compute. reflexivity.
  - discriminate.
Defined.

Lemma hash_entry_iff_shared_digest_witness :
  ∃ run,
    Example.hash_run = Some run ∧
    ("a" ∈ Js.keys (Hash.report run) ↔
     ∃ variants s s' h,
       (("a", variants)
        ∈ groupIconsByName Example.path_join "icons" Example.readdirSync) ∧
       s ≠ s' ∧
       variant_hash Example.getFileHash variants s = Some h ∧
       variant_hash Example.getFileHash variants s' = Some h).
Proof.
  eexists. split; [reflexivity|].
  apply (hash_entry_iff_shared_digest Example.path_join "icons"
           Example.readdirSync Example.getFileHash).
  vm_compute. reflexivity.
Defined.

Lemma hash_run_counters_witness :
  ∃ run,
    Example.hash_run = Some run ∧
    Hash.totalIcons run
      = length (groupIconsByName Example.path_join "icons" Example.readdirSync) ∧
    Hash.totalIconsAffected run = length (Hash.report run) ∧
    NoDup (Js.keys (Hash.report run)) ∧
    Js.keys (Hash.report run)
      `sublist_of` Js.keys (groupIconsByName Example.path_join "icons"
                              Example.readdirSync).
Proof.
  eexists. split; [reflexivity|].
  apply (hash_run_counters Example.path_join "icons"
           Example.readdirSync Example.getFileHash).
  vm_compute. reflexivity.
Defined.

Lemma keep_then_remove_order_witness :
  (cluster_keep ["filled"; "outlined"] = Some "outlined" ∧
   cluster_remove ["filled"; "outlined"]
   = filter (λ s, s ≠ "outlined") ["filled"; "outlined"]) ∧
  ∃ m, cluster_keep ["sharp"; "round"; "filled"] = Some m ∧
       m :: cluster_remove ["sharp"; "round"; "filled"]
       = Js.sort ["sharp"; "round"; "filled"] ∧
       StronglySorted Js.str_le (m :: cluster_remove ["sharp"; "round"; "filled"]).
Proof.
  split.
  - apply (keep_then_remove_order ["filled"; "outlined"]).
    + apply (bool_decide_unpack _). vm_compute. exact I.
    + discriminate.
    + apply (bool_decide_unpack _). vm_compute. exact I.
  - apply (keep_then_remove_order ["sharp"; "round"; "filled"]).
    + apply (bool_decide_unpack _). vm_compute. exact I.
    + discriminate.
    + apply (bool_decide_unpack _). vm_compute. exact I.
Defined.

Lemma visual_table_symmetric_witness :
  ∃ variants pngPaths vd,
    Js.get (groupIconsByName Example.path_join "icons" Example.readdirSync) "c"
      = Some variants ∧
    Visual.renderAll Example.path_join "tmp" Example.renderSvgToPng "c" variants
      = Some pngPaths ∧
    Visual.compare_pairs Example.visuallyCompare pngPaths variants [] = Some vd ∧
    (∀ style other,
       listed_with vd style other ↔
       (style, other) ∈ equal_pairs (Visual.judgment Example.visuallyCompare pngPaths)
                          (Js.keys variants) ∨
       (other, style) ∈ equal_pairs (Visual.judgment Example.visuallyCompare pngPaths)
                          (Js.keys variants)) ∧
    (∀ style other, listed_with vd style other → listed_with vd other style) ∧
    (∀ style, ¬ listed_with vd style style).
Proof.
  eexists _, _, _. split; [vm_compute; reflexivity|].
  split; [vm_compute; reflexivity|].
  split; [vm_compute; reflexivity|].
  apply visual_table_symmetric.
  - apply (bool_decide_unpack _). vm_compute. exact I.
  - vm_compute. reflexivity.
Defined.

Lemma visual_entry_iff_equal_pair_witness :
  ∃ run,
    Example.visual_run = Some run ∧
    (∀ iconName,
       iconName ∈ Js.keys (Visual.report run) ↔
       ∃ variants,
         (iconName, variants)
         ∈ groupIconsByName Example.path_join "icons" Example.readdirSync ∧
         scratch_equal Example.path_join "tmp" Example.visuallyCompare iconName
           (Js.keys variants) ≠ []) ∧
    (∀ iconName d,
       (iconName, d) ∈ Visual.report run →
       ∃ variants,
         (iconName, variants)
         ∈ groupIconsByName Example.path_join "icons" Example.readdirSync ∧
         ∀ style,
           Visual.keep d = Some style ∨ style ∈ Visual.remove d ↔
           ∃ other,
             (style, other) ∈ scratch_equal Example.path_join "tmp"
                                Example.visuallyCompare iconName (Js.keys variants) ∨
             (other, style) ∈ scratch_equal Example.path_join "tmp"
                                Example.visuallyCompare iconName (Js.keys variants)).
Proof.
  eexists. split; [reflexivity|].
  apply (visual_entry_iff_equal_pair Example.path_join "icons" "tmp"
           Example.readdirSync Example.renderSvgToPng Example.visuallyCompare).
  vm_compute. reflexivity.
Defined.

Lemma visual_run_counters_witness :
  ∃ run,
    Example.visual_run = Some run ∧
    Visual.totalIcons run
      = length (groupIconsByName Example.path_join "icons" Example.readdirSync) ∧
    Visual.iconsWithDuplicates run = length (Visual.report run) ∧
    NoDup (Js.keys (Visual.report run)) ∧
    Js.keys (Visual.report run)
      `sublist_of` Js.keys (groupIconsByName Example.path_join "icons"
                              Example.readdirSync).
Proof.
  eexists. split; [reflexivity|].
  apply (visual_run_counters Example.path_join "icons" "tmp"
           Example.readdirSync Example.renderSvgToPng Example.visuallyCompare).
  vm_compute. reflexivity.
Defined.

Lemma deleter_accounting_witness :
  (∃ fs' log deleted,
     Deleter.deleteFilesByHashReport Example.path_join "icons" Example.JSON_parse
       Example.files "dedup-report.json" = Some (fs', log) ∧
     log = (Deleter.FileDeleted <$> deleted)
           ++ [Deleter.TotalDeleted (length deleted)] ∧
     NoDup deleted ∧
     (∀ p, p ∈ deleted ↔ is_Some (Example.files !! p) ∧ fs' !! p = None) ∧
     (∀ p, fs' !! p = None ∨ fs' !! p = Example.files !! p) ∧
     size fs' + length deleted = size Example.files) ∧
  (∃ fs' log deleted,
     Deleter.deleteFilesByVisualReport Example.path_join "icons" Example.JSON_parse
       Example.files "visual-dedup-report.json" = Some (fs', log) ∧
     log = (Deleter.FileDeleted <$> deleted)
           ++ [Deleter.TotalDeleted (length deleted)] ∧
     NoDup deleted ∧
     (∀ p, p ∈ deleted ↔ is_Some (Example.files !! p) ∧ fs' !! p = None) ∧
     (∀ p, fs' !! p = None ∨ fs' !! p = Example.files !! p) ∧
     size fs' + length deleted = size Example.files).
Proof.
  destruct (deleter_accounting Example.path_join "icons" Example.JSON_parse)
    as [Hhash Hvisual].
  split.
  - destruct example_hash_deletion as (fs' & log & Hrun).
    assert (is_Some (Example.files !! "dedup-report.json")) as Hthere.
    { apply (bool_decide_unpack _). vm_compute. exact I. }
    destruct (Hhash _ _ _ _ Hthere Hrun) as (deleted & Hfacts).
    exists fs', log, deleted. split; [exact Hrun|exact Hfacts].
  - destruct example_visual_deletion as (fs' & log & Hrun).
    assert (is_Some (Example.files !! "visual-dedup-report.json")) as Hthere.
    { apply (bool_decide_unpack _). vm_compute. exact I. }
    destruct (Hvisual _ _ _ _ Hthere Hrun) as (deleted & Hfacts).
    exists fs', log, deleted. split; [exact Hrun|exact Hfacts].
Defined.

Lemma example_no_array_entry :
  no_array_entry (Hash.report_json ExampleReports.hash_report).
Proof.
  intros fields [= <-]. by repeat constructor.
Defined.

Lemma example_merged :
  Forall2 (λ e e' : string * Js.json, e'.1 = e.1 ∧ merged_entry e.2 = Some e'.2)
          ExampleReports.per_cluster ExampleReports.merged.
Proof. by repeat constructor. Defined.

Lemma deleters_agree_witness :
  Deleter.deleteByHashReport Example.path_join "icons" Example.files
    (Hash.report_json ExampleReports.hash_report)
  = Deleter.deleteByVisualReport Example.path_join "icons" Example.files
      (Hash.report_json ExampleReports.hash_report) ∧
  Deleter.deleteByHashReport Example.path_join "icons" Example.files
    (Js.JObject ExampleReports.per_cluster)
  = Deleter.deleteByVisualReport Example.path_join "icons" Example.files
      (Js.JObject ExampleReports.merged).
Proof.
  destruct (deleters_agree Example.path_join "icons") as [Hsame Hmerged].
  split.
  - apply Hsame, example_no_array_entry.
  - apply Hmerged, example_merged.
Defined.


Lemma normalizeName_keeps_word_chars_witness :
  Marker.normalizeName "Arrow Back ⚠️"
  = Js.str_filter Js.is_word_char (Js.toLowerCase "Arrow Back ⚠️") ∧
  str_all Js.is_word_char (Marker.normalizeName "Arrow Back ⚠️") = true ∧
  Marker.normalizeName (Marker.normalizeName "Arrow Back ⚠️")
  = Marker.normalizeName "Arrow Back ⚠️" ∧
  Marker.normalizeName ("Arrow Back ⚠️" +:+ "_2")
  = Marker.normalizeName "Arrow Back ⚠️" +:+ Marker.normalizeName "_2" ∧
  Marker.normalizeName ("Arrow Back ⚠️" +:+ " " +:+ Marker.WARNING)
  = Marker.normalizeName "Arrow Back ⚠️".
Proof.
  apply (normalizeName_keeps_word_chars "Arrow Back ⚠️" "_2");
    vm_compute; reflexivity.
Defined.

Lemma marker_reads_written_report_witness :
  Marker.shouldMark (Hash.report_json ExampleReports.hash_report) "a" "filled"
  = Some (match Js.get ExampleReports.hash_report "a" with
          | Some d =>
              if Js.includes (Js.toLowerCase <$> Hash.remove d) "filled"
              then Some Marker.ListedInReport else None
          | None => None
          end) ∧
  Marker.shouldMark (Visual.report_json ExampleReports.visual_report) "c" "outlined"
  = Some (match Js.get ExampleReports.visual_report "c" with
          | Some d =>
              if Js.includes (Js.toLowerCase <$> Visual.remove d) "outlined"
              then Some Marker.ListedInReport else None
          | None => None
          end).
Proof.
  destruct marker_reads_written_report as [Hhash Hvisual].
  split; [apply Hhash|apply Hvisual]; discriminate.
Defined.

Lemma example_plain_page : plain_page Example.page.
Proof. repeat constructor. Defined.

Lemma example_ascii_report report :
  Example.JSON_parse (Marker.msg_content Example.message) = Some report →
  ascii_json report = true.
Proof. vm_compute. by intros [= <-]. Defined.

Lemma marker_flags_only_listed_witness :
  ∃ page' count,
    Marker.onmessage Example.JSON_parse Example.message Example.page
      = Some (page', count) ∧
    (Marker.msg_type Example.message ≠ "load-json" →
     page' = Example.page ∧ count = None) ∧
    Forall2
      (λ node node',
         Marker.node_type node' = Marker.node_type node ∧
         Marker.node_name node' = Marker.node_name node ∧
         Forall2
           (λ child child',
              child' = child ∨
              (child' = (Marker.markVariantForDeletion child).1 ∧
               Marker.node_type node = "COMPONENT_SET" ∧
               Marker.variant_type child = "COMPONENT" ∧
               ∃ report,
                 Marker.msg_type Example.message = "load-json" ∧
                 Example.JSON_parse (Marker.msg_content Example.message)
                   = Some report ∧
                 (Marker.extractStyleFromVariantName (Marker.variant_name child)
                  = "twotone" ∨
                  ∃ remove,
                    Marker.report_remove report
                      (Marker.normalizeName (Marker.node_name node)) = Some remove ∧
                    Marker.extractStyleFromVariantName (Marker.variant_name child)
                    ∈ remove)))
           (Marker.children node) (Marker.children node'))
      Example.page page'.
Proof.
  eexists _, _. split; [vm_compute; reflexivity|].
  apply marker_flags_only_listed;
    [apply example_plain_page|apply example_ascii_report|vm_compute; reflexivity].
Defined.

Lemma example_page_names :
  Forall (λ node,
            Forall (λ child,
                      Js.endsWith (Marker.variant_name child) "Style=" = false)
                   (Marker.children node)) Example.page.
Proof. repeat constructor. Defined.

Lemma marking_twice_witness :
  ∃ page' count,
    Marker.onmessage Example.JSON_parse Example.message Example.page
      = Some (page', count) ∧
    Marker.onmessage Example.JSON_parse Example.message page'
      = Some (page', count).
Proof.
  destruct marking_twice as [_ Hagain].
  eexists _, _. split; [vm_compute; reflexivity|].
  apply (Hagain Example.JSON_parse Example.message Example.page);
    [apply example_plain_page|apply example_ascii_report
    |apply example_page_names|vm_compute; reflexivity].
Defined.

Lemma example_hash_paths s i s' i' :
  s ∈ STYLES → s' ∈ STYLES →
  i ∈ Js.keys ExampleReports.hash_report →
  i' ∈ Js.keys ExampleReports.hash_report →
  Example.path_join ["icons"; s; i +:+ ".svg"]
  = Example.path_join ["icons"; s'; i' +:+ ".svg"] →
  s = s' ∧ i = i'.
Proof.
  intros Hs Hs' Hi Hi'.
  apply list_elem_of_In in Hs, Hs', Hi, Hi'. simpl in Hs, Hs', Hi, Hi'.
  intuition subst; try done; vm_compute in *; discriminate.
Defined.

Lemma example_visual_paths s i s' i' :
  s ∈ STYLES → s' ∈ STYLES →
  i ∈ Js.keys ExampleReports.visual_report →
  i' ∈ Js.keys ExampleReports.visual_report →
  Example.path_join ["icons"; s; i +:+ ".svg"]
  = Example.path_join ["icons"; s'; i' +:+ ".svg"] →
  s = s' ∧ i = i'.
Proof.
  intros Hs Hs' Hi Hi'.
  apply list_elem_of_In in Hs, Hs', Hi, Hi'. simpl in Hs, Hs', Hi, Hi'.
  intuition subst; try done; vm_compute in *; discriminate.
Defined.

Lemma kept_files_survive_witness :
  (∃ fs' log,
     Deleter.deleteFilesByHashReport Example.path_join "icons" Example.JSON_parse
       Example.files "dedup-report.json" = Some (fs', log) ∧
     fs' !! Example.path_join ["icons"; "outlined"; "a" +:+ ".svg"]
     = Example.files !! Example.path_join ["icons"; "outlined"; "a" +:+ ".svg"]) ∧
  (∃ fs' log,
     Deleter.deleteFilesByVisualReport Example.path_join "icons" Example.JSON_parse
       Example.files "visual-dedup-report.json" = Some (fs', log) ∧
     fs' !! Example.path_join ["icons"; "outlined"; "c" +:+ ".svg"]
     = Example.files !! Example.path_join ["icons"; "outlined"; "c" +:+ ".svg"]).
Proof.
  destruct (kept_files_survive Example.path_join "icons" "tmp" Example.readdirSync
              Example.getFileHash Example.renderSvgToPng Example.visuallyCompare
              Example.JSON_parse) as [Hhash Hvisual].
  split.
  - destruct example_hash_deletion as (fs' & log & Hrun).
    exists fs', log. split; [exact Hrun|].
    eapply (Hhash _ Example.files "dedup-report.json" "hash report" fs' log);
      cycle 1.
    + vm_compute. reflexivity.
    + vm_compute. reflexivity.
    + vm_compute. reflexivity.
    + exact Hrun.
    + apply get_Some_elem. vm_compute. reflexivity.
    + apply (bool_decide_unpack _). vm_compute. exact I.
    + apply example_hash_paths.
  - destruct example_visual_deletion as (fs' & log & Hrun).
    exists fs', log. split; [exact Hrun|].
    eapply (Hvisual _ Example.files "visual-dedup-report.json" "visual report"
              fs' log); cycle 1.
    + vm_compute. reflexivity.
    + vm_compute. reflexivity.
    + vm_compute. reflexivity.
    + exact Hrun.
    + apply get_Some_elem. vm_compute. reflexivity.
    + vm_compute. reflexivity.
    + apply example_visual_paths.
Defined.

Lemma style_tallies_witness :
  (∃ run,
     Example.hash_run = Some run ∧
     Hash.removedPerStyle run = tally_table (hash_style_removals (Hash.report run)) ∧
     Forall (λ e, NoDup (Hash.remove e.2)) (Hash.report run)) ∧
  (∃ run,
     Example.visual_run = Some run ∧
     Visual.removalByStyle run
     = tally_table (visual_style_removals (Visual.report run)) ∧
     Forall (λ e, NoDup (Visual.remove e.2)) (Visual.report run)).
Proof.
  destruct (style_tallies Example.path_join "icons" "tmp" Example.readdirSync
              Example.getFileHash Example.renderSvgToPng Example.visuallyCompare)
    as [Hhash Hvisual].
  split.
  - eexists. split; [reflexivity|]. apply Hhash. vm_compute. reflexivity.
  - eexists. split; [reflexivity|]. apply Hvisual. vm_compute. reflexivity.
Defined.
